(** * Interaction core of the gesture-driven ornament scene

    A shallow embedding of [src/types.ts], [src/components/HandController.tsx],
    [src/App.tsx] and [src/components/MagicScene.tsx], with the gesture
    handler and the audio player of the earlier variant of the component
    ([src/unnamed/part_000]).

    Conventions of the embedding:
    - a JavaScript [number] is a real number ([R]); integer-valued numbers that
      only count or index (loop counters, array indices, [Date.now()]) are
      [nat] or [Z]; where a frame callback feeds a number back into itself
      frame after frame, the number is a binary64 value and every operation
      on it rounds ([Binary64], [Double]);
    - a JavaScript exception ([TypeError] on reading a field of [undefined])
      is [None] in the [option] monad;
    - [Math.random()] is an explicit draw: a real argument where the source
      draws once, a numbered oracle [nat -> R] threaded through a state monad
      where it draws many times;
    - React state ([useState], [useRef]) is one record, and every callback is
      a function from record to record. *)

From Stdlib Require Import Reals Lra Lia ZArith List String Ascii Bool.
From Stdlib Require Import Decimal DecimalZ DecimalString.
Import ListNotations.

Open Scope string_scope.
Open Scope list_scope.
Open Scope R_scope.

(** ** JavaScript primitives used by the sources *)

Module Js.

(** [a < b] and [a > b] on numbers, as booleans. *)
Definition ltb (a b : R) : bool := if Rlt_dec a b then true else false.
Definition gtb (a b : R) : bool := ltb b a.

(** [Math.floor]. *)
Definition floor (x : R) : Z := Int_part x.

(** Rounding toward zero, as used by the remainder operator. *)
Definition trunc (x : R) : Z :=
  if Rlt_dec x 0 then (- floor (- x))%Z else floor x.

(** [x % y] on numbers: the remainder has the sign of the dividend. *)
Definition rem (x y : R) : R := x - y * IZR (trunc (x / y)).

(** The template literal [`${n}`] for an integer-valued number. *)
Definition toString (n : Z) : string :=
  NilEmpty.string_of_int (Z.to_int n).

(** White space skipped by [parseInt] (the ASCII part of it). *)
Definition isWhiteSpace (c : ascii) : bool :=
  let n := nat_of_ascii c in
  ((9 <=? n) && (n <=? 13) || (n =? 32))%nat.

Fixpoint skipWhiteSpace (s : string) : string :=
  match s with
  | String c r => if isWhiteSpace c then skipWhiteSpace r else s
  | EmptyString => s
  end.

(** Value of a character as a digit in a radix up to 36. *)
Definition digitValue (c : ascii) : option Z :=
  let n := Z.of_nat (nat_of_ascii c) in
  if ((48 <=? n) && (n <=? 57))%Z then Some (n - 48)%Z
  else if ((97 <=? n) && (n <=? 122))%Z then Some (n - 87)%Z
  else if ((65 <=? n) && (n <=? 90))%Z then Some (n - 55)%Z
  else None.

(** The longest prefix of digits of the radix, as a number; [acc] is
    [None] until a first digit has been read. *)
Fixpoint parseDigits (radix : Z) (s : string) (acc : option Z) : option Z :=
  match s with
  | String c r =>
      match digitValue c with
      | Some d =>
          if (d <? radix)%Z
          then parseDigits radix r
                 (Some (match acc with
                        | Some a => a * radix + d
                        | None => d
                        end)%Z)
          else acc
      | None => acc
      end
  | EmptyString => acc
  end.

(** [parseInt(s)] with no radix argument, on ASCII text: leading white
    space, a sign, a [0x] prefix, then digits; [None] is [NaN]. *)
Definition parseInt (s : string) : option Z :=
  let s := skipWhiteSpace s in
  let '(sign, s) :=
    match s with
    | String "-" r => ((-1)%Z, r)
    | String "+" r => (1%Z, r)
    | _ => (1%Z, s)
    end in
  let '(radix, s) :=
    match s with
    | String "0" (String "x" r) | String "0" (String "X" r) => (16%Z, r)
    | _ => (10%Z, s)
    end in
  match parseDigits radix s None with
  | Some n => Some (sign * n)%Z
  | None => None
  end.

(** [s.split(sep)[1]]: the text between the first and the second
    separator, [None] ([undefined]) when there is no separator. *)
Fixpoint takeUntil (sep : ascii) (s : string) : string :=
  match s with
  | String c r => if Ascii.eqb c sep then EmptyString
                  else String c (takeUntil sep r)
  | EmptyString => EmptyString
  end.

Fixpoint dropThrough (sep : ascii) (s : string) : option string :=
  match s with
  | String c r => if Ascii.eqb c sep then Some r else dropThrough sep r
  | EmptyString => None
  end.

Definition splitAt1 (sep : ascii) (s : string) : option string :=
  match dropThrough sep s with
  | Some r => Some (takeUntil sep r)
  | None => None
  end.

(** [l.splice(index, 1)] on a copy: a negative index counts from the end,
    an index past the end removes nothing. *)
Definition splice1 {A} (l : list A) (index : Z) : list A :=
  let len := Z.of_nat (List.length l) in
  let start := if (index <? 0)%Z then Z.max (len + index) 0
               else Z.min index len in
  firstn (Z.to_nat start) l ++ skipn (S (Z.to_nat start)) l.

(** The option monad stands for code that may throw. *)
Definition bind {A B} (m : option A) (k : A -> option B) : option B :=
  match m with
  | Some a => k a
  | None => None
  end.

(** [Array.prototype.every]: stops at the first element that fails, so a
    later element that would throw is never looked at. *)
Fixpoint every {A} (p : A -> option bool) (l : list A) : option bool :=
  match l with
  | [] => Some true
  | a :: l' =>
      match p a with
      | Some true => every p l'
      | Some false => Some false
      | None => None
      end
  end.

(** Truthiness of a [string | null]: [null] and the empty string are
    falsy. *)
Definition truthy (s : option string) : bool :=
  match s with
  | None => false
  | Some EmptyString => false
  | Some (String _ _) => true
  end.

End Js.

Notation "x <- m ;; k" := (Js.bind m (fun x => k))
  (at level 61, m at next level, right associativity).

(** ** IEEE 754 binary64 arithmetic

    Where a number is fed back into the same computation frame after
    frame, its rounding decides what the iteration does, and the
    arithmetic is modelled with it: a finite number is the real it
    denotes, every operation rounds the exact result to the nearest number
    of the format, ties to even, and a result too large for the format
    ([Infinity], and the [NaN] that can follow from it) is [None]. The two
    signed zeros are not told apart. *)

Module Binary64.

(** Precision in bits, exponent of the smallest subnormal, and exponent
    of the first power of two beyond the format. *)
Definition prec : Z := 53.
Definition emin : Z := (-1074).
Definition emax : Z := 1024.

(** The exponent [e] with [2^(e-1) <= |x| < 2^e], for a nonzero [x]. *)
Definition mag (x : R) : Z := (Int_part (ln (Rabs x) / ln 2) + 1)%Z.

(** The exponent of the last bit kept when [x] is rounded. *)
Definition exponent (x : R) : Z := Z.max (mag x - prec) emin.

(** The nearest integer, the even one of two equally near. *)
Definition nearestEven (y : R) : Z :=
  let f := Int_part y in
  let r := y - IZR f in
  if Rlt_dec r (1 / 2) then f
  else if Rlt_dec (1 / 2) r then (f + 1)%Z
  else if Z.even f then f else (f + 1)%Z.

(** The nearest multiple of [2 ^ exponent x]. *)
Definition nearest (x : R) : R :=
  IZR (nearestEven (x * powerRZ 2 (- exponent x))) * powerRZ 2 (exponent x).

(** Rounding to the format, with overflow. *)
Definition round (x : R) : option R :=
  let r := nearest x in
  if Rlt_dec (Rabs r) (powerRZ 2 emax) then Some r else None.

(** [x + y], [x - y] and [x * y] on numbers. *)
Definition add (x y : R) : option R := round (x + y).
Definition sub (x y : R) : option R := round (x - y).
Definition mul (x y : R) : option R := round (x * y).

(** A decimal literal of the source denotes the number nearest to it. *)
Definition literal (x : R) : option R := round x.

(** The unit roundoff [2^-53], half the smallest subnormal, and a
    magnitude far enough from overflow for a few operations. *)
Definition u : R := / 9007199254740992.
Definition eta : R := powerRZ 2 (-1075).
Definition limit : R := powerRZ 2 1000.

(** Linear arithmetic with the unit roundoff as a numeral. *)
Ltac lra_u := unfold u in *; lra.

(** Rewrite one rounding of the goal whose argument is [m * 2^e] exactly,
    by the lemma [exact] that such numbers are left as they are. *)
Ltac rounds_to exact m e :=
  match goal with
  | |- context [round ?x] =>
      rewrite (exact x m e) by first [unfold emin; lia | simpl; lra]
  end;
  cbn [Js.bind].

End Binary64.

(** ** [src/types.ts] *)

Inductive AppState := TREE | SCATTER | INSPECT.

Inductive ItemType := sphere | box | photo | star.

Record Vector3 := mkVector3 { vx : R; vy : R; vz : R }.

Record Point2 := mkPoint2 { px : R; py : R }.

Record HandGestureData := mkGesture {
  isFist : bool;
  isOpen : bool;
  isPinching : bool;
  isPointing : bool;
  handPosition : Point2
}.

Definition AppState_eqb (a b : AppState) : bool :=
  match a, b with
  | TREE, TREE | SCATTER, SCATTER | INSPECT, INSPECT => true
  | _, _ => false
  end.

(** ** [src/components/HandController.tsx]: the gesture classifier *)

Module HandController.

(** One point of a landmark frame (the depth coordinate is never read). *)
Record Landmark := mkLandmark { x : R; y : R }.

(** [lm[i]] followed by a field read: throws when the index is absent. *)
Definition at_ (lm : list Landmark) (i : nat) : option Landmark :=
  nth_error lm i.

(** [results] as delivered by the capture pipeline: [multiHandLandmarks]
    may be missing, and otherwise lists one frame per detected hand. *)
Record Results := mkResults {
  multiHandLandmarks : option (list (list Landmark))
}.

Definition detectFist (lm : list Landmark) : option bool :=
  Js.every (fun tipIdx =>
              tip <- at_ lm tipIdx ;;
              pip <- at_ lm (tipIdx - 2) ;;
              Some (Js.gtb (y tip) (y pip)))
           [8; 12; 16; 20]%nat.

Definition detectOpenPalm (lm : list Landmark) : option bool :=
  Js.every (fun tipIdx =>
              tip <- at_ lm tipIdx ;;
              pip <- at_ lm (tipIdx - 2) ;;
              Some (Js.ltb (y tip) (y pip)))
           [8; 12; 16; 20]%nat.

Definition detectPinch (lm : list Landmark) : option bool :=
  l8 <- at_ lm 8 ;;
  l4 <- at_ lm 4 ;;
  let dx := x l8 - x l4 in
  let dy := y l8 - y l4 in
  let dist := sqrt (dx * dx + dy * dy) in
  Some (Js.ltb dist 0.05).

Definition detectPointing (lm : list Landmark) : option bool :=
  l8 <- at_ lm 8 ;;
  l6 <- at_ lm 6 ;;
  let indexExtended := Js.ltb (y l8) (y l6) in
  l12 <- at_ lm 12 ;;
  l10 <- at_ lm 10 ;;
  let middleFolded := Js.gtb (y l12) (y l10) in
  l16 <- at_ lm 16 ;;
  l14 <- at_ lm 14 ;;
  let ringFolded := Js.gtb (y l16) (y l14) in
  l20 <- at_ lm 20 ;;
  l18 <- at_ lm 18 ;;
  let pinkyFolded := Js.gtb (y l20) (y l18) in
  Some (indexExtended && middleFolded && ringFolded && pinkyFolded).

(** The signal sent when no hand is in view. *)
Definition noHand : HandGestureData :=
  mkGesture false false false false (mkPoint2 0.5 0.5).

(** [onResults]: the value handed to [onGesture], or [None] when reading
    the frame throws. *)
Definition onResults (results : Results) : option HandGestureData :=
  match multiHandLandmarks results with
  | Some (landmarks :: _) =>
      isFist <- detectFist landmarks ;;
      isOpen <- detectOpenPalm landmarks ;;
      isPinching <- detectPinch landmarks ;;
      isPointing <- detectPointing landmarks ;;
      wrist <- at_ landmarks 0 ;;
      middle <- at_ landmarks 9 ;;
      let centerX := (x wrist + x middle) / 2 in
      let centerY := (y wrist + y middle) / 2 in
      Some (mkGesture isFist isOpen isPinching isPointing
                      (mkPoint2 (1 - centerX) centerY))
  | Some [] | None => Some noHand
  end.

(** At most one of three flags is raised. *)
Definition atMostOne (a b c : bool) : bool :=
  negb (a && b) && negb (a && c) && negb (b && c).

(** A flag a detector may fail to produce counts as not raised. *)
Definition raised (f : option bool) : bool :=
  match f with
  | Some b => b
  | None => false
  end.

End HandController.

(** ** [src/App.tsx]: the interaction state machine *)

Module App.

Definition MAX_PHOTOS : nat := 20.

(** The component's state: the [useState] cells and the [useRef] cells
    that the handlers read or write. *)
Record State := mkState {
  appState : AppState;
  gestureData : HandGestureData;
  photos : list string;
  focusId : option string;
  wasPointingRef : bool;
  deleteConfirm : bool;
  gestureCooldownRef : Z
}.

(** [photosRef] and [focusIdRef] are copies of [photos] and [focusId]
    that an effect refreshes after every change of the original
    (lines 83-87); a read of [ref.current] is a read of the original. *)
Definition photosRef (s : State) : list string := photos s.
Definition focusIdRef (s : State) : option string := focusId s.

Definition noGesture : HandGestureData :=
  mkGesture false false false false (mkPoint2 0.5 0.5).

Definition initial : State :=
  mkState TREE noGesture [] None false false 0%Z.

Definition setAppState (m : AppState) (s : State) : State :=
  mkState m (gestureData s) (photos s) (focusId s) (wasPointingRef s)
          (deleteConfirm s) (gestureCooldownRef s).

Definition setGestureData (g : HandGestureData) (s : State) : State :=
  mkState (appState s) g (photos s) (focusId s) (wasPointingRef s)
          (deleteConfirm s) (gestureCooldownRef s).

Definition setPhotos (p : list string) (s : State) : State :=
  mkState (appState s) (gestureData s) p (focusId s) (wasPointingRef s)
          (deleteConfirm s) (gestureCooldownRef s).

Definition setFocusId (f : option string) (s : State) : State :=
  mkState (appState s) (gestureData s) (photos s) f (wasPointingRef s)
          (deleteConfirm s) (gestureCooldownRef s).

Definition setWasPointing (b : bool) (s : State) : State :=
  mkState (appState s) (gestureData s) (photos s) (focusId s) b
          (deleteConfirm s) (gestureCooldownRef s).

Definition setDeleteConfirm (b : bool) (s : State) : State :=
  mkState (appState s) (gestureData s) (photos s) (focusId s)
          (wasPointingRef s) b (gestureCooldownRef s).

Definition setGestureCooldown (t : Z) (s : State) : State :=
  mkState (appState s) (gestureData s) (photos s) (focusId s)
          (wasPointingRef s) (deleteConfirm s) t.

(** The id given to the photo at an index. *)
Definition photoId (i : Z) : string := "photo-" ++ Js.toString i.

(** [Math.floor(Math.random() * n)] for a draw [random]. *)
Definition randomIdx (random : R) (n : nat) : Z :=
  Js.floor (random * INR n).

(** [handleGesture(data)] at time [now = Date.now()]; [random] is the
    value [Math.random()] returns if the handler calls it. *)
Definition handleGesture (now : Z) (random : R) (data : HandGestureData)
           (s : State) : State :=
  if (now <? gestureCooldownRef s)%Z then s
  else
    let s := setGestureData data s in
    let isFreshPoint := isPointing data && negb (wasPointingRef s) in
    let s := setWasPointing (isPointing data) s in
    let prev := appState s in
    if isFist data then
      setAppState TREE (setDeleteConfirm false (setFocusId None s))
    else if isPointing data && (0 <? List.length (photosRef s))%nat then
      if negb (AppState_eqb prev INSPECT) || isFreshPoint then
        let randomIdx := randomIdx random (List.length (photosRef s)) in
        setAppState INSPECT
          (setDeleteConfirm false (setFocusId (Some (photoId randomIdx)) s))
      else setAppState INSPECT s
    else if isOpen data then
      setAppState SCATTER
        (if AppState_eqb prev INSPECT
         then setDeleteConfirm false (setFocusId None s)
         else s)
    else if AppState_eqb prev SCATTER && isPinching data
            && (0 <? List.length (photosRef s))%nat then
      setAppState INSPECT
        (if negb (Js.truthy (focusIdRef s))
         then setDeleteConfirm false (setFocusId (Some (photoId 0)) s)
         else s)
    else s.

(** [handleFileUpload]: [files] are the object URLs of the chosen
    files. *)
Definition handleFileUpload (files : list string) (s : State) : State :=
  let remainingSlots := (Z.of_nat MAX_PHOTOS - Z.of_nat (List.length (photos s)))%Z in
  if (remainingSlots <=? 0)%Z then s
  else
    let newFiles :=
      if (remainingSlots <? Z.of_nat (List.length files))%Z
      then firstn (Z.to_nat remainingSlots) files
      else files in
    setPhotos (photos s ++ newFiles) s.

Definition handlePhotoSelect (id : string) (s : State) : State :=
  setAppState INSPECT (setDeleteConfirm false (setFocusId (Some id) s)).

(** The timer armed by the first click on delete. *)
Definition deleteConfirmTimeout (s : State) : State :=
  setDeleteConfirm false s.

Definition handleDeleteClick (now : Z) (s : State) : State :=
  if negb (deleteConfirm s) then setDeleteConfirm true s
  else
    match focusId s with
    | Some id =>
        if Js.truthy (Some id) && prefix "photo-" id then
          let indexStr := Js.splitAt1 "-" id in
          match Js.bind indexStr Js.parseInt with
          | Some index =>
              let newPhotos := Js.splice1 (photos s) index in
              setGestureCooldown (now + 2000)%Z
                (setAppState SCATTER
                   (setDeleteConfirm false
                      (setFocusId None (setPhotos newPhotos s))))
          | None => s
          end
        else s
    | None => s
    end.

Definition handleCloseInspect (now : Z) (s : State) : State :=
  setGestureCooldown (now + 1000)%Z
    (setDeleteConfirm false (setAppState SCATTER (setFocusId None s))).

(** Everything that can happen to the state. *)
Inductive Event :=
| Gesture (now : Z) (random : R) (data : HandGestureData)
| PhotoSelect (id : string)
| DeleteClick (now : Z)
| DeleteTimeout
| CloseInspect (now : Z)
| FileUpload (files : list string).

Definition step (e : Event) (s : State) : State :=
  match e with
  | Gesture now random data => handleGesture now random data s
  | PhotoSelect id => handlePhotoSelect id s
  | DeleteClick now => handleDeleteClick now s
  | DeleteTimeout => deleteConfirmTimeout s
  | CloseInspect now => handleCloseInspect now s
  | FileUpload files => handleFileUpload files s
  end.

(** Running a list of events, oldest first. *)
Fixpoint run (es : list Event) (s : State) : State :=
  match es with
  | [] => s
  | e :: es' => run es' (step e s)
  end.

Inductive reachable : State -> Prop :=
| reachable_initial : reachable initial
| reachable_step e s : reachable s -> reachable (step e s).

(** A run of capture ticks [(now, random, data)], oldest first. *)
Fixpoint ticks (ts : list (Z * R * HandGestureData)) (s : State) : State :=
  match ts with
  | [] => s
  | (now, random, data) :: ts' => ticks ts' (handleGesture now random data s)
  end.


(** The focus invariant of the machine. *)
Definition focusInv (s : State) : Prop :=
  focusId s <> None -> appState s = INSPECT.

(** A step that leaves INSPECT clears the focus. *)
Definition exitClears (s s' : State) : Prop :=
  appState s = INSPECT -> appState s' <> INSPECT -> focusId s' = None.

(** Reading fields through the setters, and nothing else. *)
Ltac state_simpl :=
  cbn [appState gestureData photos focusId wasPointingRef deleteConfirm
       gestureCooldownRef setAppState setGestureData setPhotos setFocusId
       setWasPointing setDeleteConfirm setGestureCooldown photosRef
       focusIdRef] in *.

(** Splitting on the condition of a conditional in the goal. *)
Ltac case_if :=
  match goal with
  | |- context [if ?b then _ else _] => destruct b eqn:?
  end.

Ltac open_handleGesture :=
  unfold handleGesture; cbv zeta; state_simpl.

End App.

(** ** [src/components/MagicScene.tsx]: layout generator and blend step *)

Module MagicScene.

Definition TREE_HEIGHT : R := 16.
Definition TREE_RADIUS_BASE : R := 6.0.
Definition ORNAMENT_COUNT : nat := 300.
Definition FOIL_COUNT : nat := 200.
Definition RIBBON_PARTICLE_COUNT : nat := 400.
Definition LIGHT_COUNT : nat := 100.
Definition SCATTER_RADIUS_X : R := 45.
Definition SCATTER_RADIUS_Y : R := 25.
Definition SCATTER_RADIUS_Z : R := 20.

(** A [THREE.Color] is the hex text it was built from. *)
Definition Color := string.

Module PALETTE.
Definition TWILIGHT : Color := "#2d2436".
Definition RED : Color := "#C41E3A".
Definition GOLD : Color := "#FFD700".
Definition METALLIC_GOLD : Color := "#CFB53B".
Definition SILVER : Color := "#E0E0E0".
Definition GREEN : Color := "#1B4D3E".
Definition CREAM : Color := "#F2E8C9".
Definition LIGHT_WARM : Color := "#ffddaa".
Definition DEEP_BLUE : Color := "#0033FF".
End PALETTE.

Record SceneItem := mkItem {
  id : string;
  type : ItemType;
  treePos : Vector3;
  scatterPos : Vector3;
  rotation : Vector3;
  color : option Color;
  textureUrl : option string;
  scale : R
}.

(** *** Generation with [Math.random()]

    A generator reads the draws of an oracle in order: it takes the number
    of the next draw and returns its value with the number after its last
    draw. *)
Section Generator.

Variable oracle : nat -> R.

Definition Gen (A : Type) : Type := nat -> A * nat.

Definition ret {A} (a : A) : Gen A := fun k => (a, k).

Definition bind {A B} (m : Gen A) (f : A -> Gen B) : Gen B :=
  fun k => let (a, k') := m k in f a k'.

Definition Math_random : Gen R := fun k => (oracle k, S k).

Local Notation "x <~ m ;; f" := (bind m (fun x => f))
  (at level 61, m at next level, right associativity).

(** [for (let i = start; i < start + count; i++) tempItems.push(body i)]:
    the items pushed, in order. *)
Fixpoint pushLoop {A} (body : nat -> Gen A) (start count : nat)
  : Gen (list A) :=
  match count with
  | O => ret []
  | S count' =>
      it <~ body start ;;
      rest <~ pushLoop body (S start) count' ;;
      ret (it :: rest)
  end.

(** [a[i]] for a number [i]: [undefined] out of range. *)
Definition index {A} (a : list A) (i : Z) : option A :=
  if (i <? 0)%Z then None else nth_error a (Z.to_nat i).

Definition goldenAngle : R := PI * (3 - sqrt 5).
Definition layers : R := 5.

(** A scatter position: three draws, each centred and scaled. *)
Definition scatter (sx sy sz : R) : Gen Vector3 :=
  a <~ Math_random ;;
  b <~ Math_random ;;
  c <~ Math_random ;;
  ret (mkVector3 ((a - 0.5) * sx) ((b - 0.5) * sy) ((c - 0.5) * sz)).

Definition randomVector : Gen Vector3 :=
  a <~ Math_random ;;
  b <~ Math_random ;;
  c <~ Math_random ;;
  ret (mkVector3 a b c).

(** 1. Standard ornaments. *)
Definition ornament (i : nat) : Gen SceneItem :=
  let h_norm := INR i / INR ORNAMENT_COUNT in
  let h := h_norm * TREE_HEIGHT - TREE_HEIGHT / 2 in
  let layerPhase := Js.rem (h_norm * layers) 1 in
  let baseRadius := (1 - h_norm) * TREE_RADIUS_BASE in
  let layerKick := (1 - layerPhase) * 1.5 in
  let r := baseRadius + layerKick in
  let theta := INR i * goldenAngle in
  let treePos := mkVector3 (r * cos theta) h (r * sin theta) in
  scatterPos <~ scatter (SCATTER_RADIUS_X * 2) (SCATTER_RADIUS_Y * 2)
                        (SCATTER_RADIUS_Z * 2) ;;
  let colors := [PALETTE.RED; PALETTE.GREEN; PALETTE.METALLIC_GOLD;
                 PALETTE.SILVER] in
  t <~ Math_random ;;
  rotation <~ randomVector ;;
  c <~ Math_random ;;
  s <~ Math_random ;;
  ret (mkItem ("ornament-" ++ Js.toString (Z.of_nat i))
              (if Js.gtb t 0.6 then box else sphere)
              treePos scatterPos rotation
              (index colors (Js.floor (c * INR (List.length colors))))
              None
              (s * 0.6 + 0.3)).

(** 2. Foil flakes. *)
Definition foil (i : nat) : Gen SceneItem :=
  let h_norm := INR i / INR FOIL_COUNT in
  hr <~ Math_random ;;
  let h := h_norm * TREE_HEIGHT - TREE_HEIGHT / 2 + (hr * 2 - 1) in
  let baseRadius := (1 - h_norm) * TREE_RADIUS_BASE in
  rr <~ Math_random ;;
  let r := baseRadius + rr * 1.5 + 0.5 in
  let theta := INR i * goldenAngle * 2 in
  let treePos := mkVector3 (r * cos theta) h (r * sin theta) in
  scatterPos <~ scatter (SCATTER_RADIUS_X * 2.2) (SCATTER_RADIUS_Y * 2.2)
                        (SCATTER_RADIUS_Z * 1.5) ;;
  rotation <~ randomVector ;;
  c <~ Math_random ;;
  s <~ Math_random ;;
  ret (mkItem ("foil-" ++ Js.toString (Z.of_nat i))
              box treePos scatterPos rotation
              (Some (if Js.gtb c 0.4 then PALETTE.METALLIC_GOLD
                     else PALETTE.SILVER))
              None
              (s * 0.4 + 0.2)).

Definition ribbonSpirals : R := 5.
Definition braidFreq : R := 30.
Definition braidAmp : R := 0.4.

(** 3. Ribbon 1: white, braided. *)
Definition ribbonWhite (i : nat) : Gen SceneItem :=
  let t := INR i / INR RIBBON_PARTICLE_COUNT in
  let h := t * TREE_HEIGHT - TREE_HEIGHT / 2 in
  let layerPhase := Js.rem (t * layers) 1 in
  let baseRadius := (1 - t) * TREE_RADIUS_BASE in
  let layerKick := (1 - layerPhase) * 1.8 in
  let r := baseRadius + layerKick + 1.3 in
  let baseTheta := t * PI * 2 * ribbonSpirals in
  let theta := baseTheta + sin (t * braidFreq) * braidAmp in
  let treePos := mkVector3 (r * cos theta) h (r * sin theta) in
  scatterPos <~ scatter (SCATTER_RADIUS_X * 2.5) (SCATTER_RADIUS_Y * 2)
                        SCATTER_RADIUS_Z ;;
  ret (mkItem ("ribbon-white-" ++ Js.toString (Z.of_nat i))
              box treePos scatterPos (mkVector3 t t 0)
              (Some "#FFFFFF") None 0.28).

(** 4. Ribbon 2: deep blue, braided in the opposite phase. *)
Definition ribbonBlue (i : nat) : Gen SceneItem :=
  let t := INR i / INR RIBBON_PARTICLE_COUNT in
  let h := t * TREE_HEIGHT - TREE_HEIGHT / 2 in
  let layerPhase := Js.rem (t * layers) 1 in
  let baseRadius := (1 - t) * TREE_RADIUS_BASE in
  let layerKick := (1 - layerPhase) * 1.8 in
  let r := baseRadius + layerKick + 0.5 in
  let baseTheta := t * PI * 2 * ribbonSpirals in
  let theta := baseTheta - sin (t * braidFreq) * braidAmp in
  let treePos := mkVector3 (r * cos theta) h (r * sin theta) in
  scatterPos <~ scatter (SCATTER_RADIUS_X * 2.5) (SCATTER_RADIUS_Y * 2)
                        SCATTER_RADIUS_Z ;;
  ret (mkItem ("ribbon-blue-" ++ Js.toString (Z.of_nat i))
              box treePos scatterPos (mkVector3 t t 10)
              (Some PALETTE.DEEP_BLUE) None 0.3).

Definition lightSpirals : R := 4.

(** 5. Light strip. *)
Definition light (i : nat) : Gen SceneItem :=
  let t := INR i / INR LIGHT_COUNT in
  let h := t * TREE_HEIGHT - TREE_HEIGHT / 2 in
  let layerPhase := Js.rem (t * layers) 1 in
  let baseRadius := (1 - t) * TREE_RADIUS_BASE in
  let layerKick := (1 - layerPhase) * 1.6 in
  let r := baseRadius + layerKick + 0.2 in
  let theta := t * PI * 2 * lightSpirals + PI in
  let treePos := mkVector3 (r * cos theta) h (r * sin theta) in
  scatterPos <~ scatter (SCATTER_RADIUS_X * 2) (SCATTER_RADIUS_Y * 2)
                        SCATTER_RADIUS_Z ;;
  ret (mkItem ("light-" ++ Js.toString (Z.of_nat i))
              sphere treePos scatterPos (mkVector3 0 0 0)
              (Some PALETTE.LIGHT_WARM) None 0.2).

(** [items]: computed once, when the scene is mounted. *)
Definition items : Gen (list SceneItem) :=
  l1 <~ pushLoop ornament 0 ORNAMENT_COUNT ;;
  l2 <~ pushLoop foil 0 FOIL_COUNT ;;
  l3 <~ pushLoop ribbonWhite 0 RIBBON_PARTICLE_COUNT ;;
  l4 <~ pushLoop ribbonBlue 0 RIBBON_PARTICLE_COUNT ;;
  l5 <~ pushLoop light 0 LIGHT_COUNT ;;
  ret (l1 ++ l2 ++ l3 ++ l4 ++ l5).

(** [photos.length || 1]. *)
Definition lengthOr1 (n : nat) : R :=
  match n with
  | O => 1
  | _ => INR n
  end.

(** The callback of [photos.map], for a collection of [n] photos. *)
Definition photoItem (n : nat) (url : string) (i : nat) : Gen SceneItem :=
  let h := INR i / lengthOr1 n * (TREE_HEIGHT * 0.8) - TREE_HEIGHT / 3 in
  let r := (1 - (h + TREE_HEIGHT / 2) / TREE_HEIGHT)
           * (TREE_RADIUS_BASE + 2) in
  let theta := INR i * (PI * 2 / lengthOr1 n) + 1 in
  let scatterRadius := 12 in
  let scatterAngle := INR i / lengthOr1 n * PI * 2 in
  jitter <~ Math_random ;;
  ret (mkItem (App.photoId (Z.of_nat i))
              photo
              (mkVector3 (r * cos theta) h (r * sin theta))
              (mkVector3 (cos scatterAngle * scatterRadius)
                         ((jitter - 0.5) * 16)
                         (sin scatterAngle * scatterRadius))
              (mkVector3 0 0 0)
              (Some PALETTE.CREAM) (Some url) 1).

(** [photos.map(callback)]: the callback sees each element with its
    index; [i] is the index of the head of [rest]. *)
Fixpoint mapPhotos (n : nat) (rest : list string) (i : nat)
  : Gen (list SceneItem) :=
  match rest with
  | [] => ret []
  | url :: rest' =>
      it <~ photoItem n url i ;;
      its <~ mapPhotos n rest' (S i) ;;
      ret (it :: its)
  end.

Definition photoItems (photos : list string) : Gen (list SceneItem) :=
  mapPhotos (List.length photos) photos 0.

(** [allItems]: recomputed from the memoised [items] whenever the photo
    collection changes. *)
Definition allItems (items : list SceneItem) (photos : list string)
  : Gen (list SceneItem) :=
  photoItems <~ photoItems photos ;;
  ret (items ++ photoItems).

End Generator.

(** *** The position part of [MagicItem]'s frame callback *)

(** [Vector3.lerp], [multiplyScalar] and [distanceTo]. *)
Definition lerp (p v : Vector3) (alpha : R) : Vector3 :=
  mkVector3 (vx p + (vx v - vx p) * alpha)
            (vy p + (vy v - vy p) * alpha)
            (vz p + (vz v - vz p) * alpha).

Definition multiplyScalar (v : Vector3) (k : R) : Vector3 :=
  mkVector3 (vx v * k) (vy v * k) (vz v * k).

Definition distanceTo (p v : Vector3) : R :=
  let dx := vx p - vx v in
  let dy := vy p - vy v in
  let dz := vz p - vz v in
  sqrt (dx * dx + dy * dy + dz * dz).

(** [focusId === item.id]. *)
Definition isFocus (focusId : option string) (item : SceneItem) : bool :=
  match focusId with
  | Some f => String.eqb f (id item)
  | None => false
  end.

Definition targetPos (item : SceneItem) (targetMode : AppState)
           (focusId : option string) : Vector3 :=
  match targetMode with
  | TREE => treePos item
  | SCATTER => scatterPos item
  | INSPECT =>
      match type item with
      | photo =>
          if isFocus focusId item then mkVector3 0 0 15
          else
            let v := multiplyScalar (scatterPos item) 1.2 in
            mkVector3 (vx v) (vy v) (vz v - 10)
      | _ => scatterPos item
      end
  end.

(** [position.lerp(targetPos, delta * 3.0)]. *)
Definition blend (target : Vector3) (delta : R) (p : Vector3) : Vector3 :=
  lerp p target (delta * 3.0).

(** The whole position update of one frame at clock time [time]: the
    blend, then in SCATTER mode a small drift seeded by the item's
    [randomOffset]. *)
Definition framePosition (item : SceneItem) (targetMode : AppState)
           (focusId : option string) (randomOffset time delta : R)
           (p : Vector3) : Vector3 :=
  let p := blend (targetPos item targetMode focusId) delta p in
  match targetMode with
  | SCATTER =>
      mkVector3 (vx p + cos (time * 0.5 + randomOffset) * 0.02)
                (vy p + sin (time + randomOffset) * 0.02)
                (vz p)
  | _ => p
  end.

(** The squared distance under the root of [distanceTo]. *)
Definition sqDist (p v : Vector3) : R :=
  (vx p - vx v) * (vx p - vx v) + (vy p - vy v) * (vy p - vy v)
  + (vz p - vz v) * (vz p - vz v).

(** The items of the list that are not photos. *)
Definition nonPhotos (l : list SceneItem) : list SceneItem :=
  filter (fun it => match type it with photo => false | _ => true end) l.

(** An item that is not a photo and whose id is not a photo id. *)
Definition plain (it : SceneItem) : Prop :=
  type it <> photo /\ forall z, id it <> App.photoId z.

(** Whether an id names an item of the list. *)
Definition resolves (focus : string) (l : list SceneItem) : Prop :=
  exists it, In it l /\ id it = focus.

End MagicScene.

(** ** Sample inputs used to exercise the statements below *)

Module Samples.

Import HandController.

(** A frame of 21 landmarks with every fingertip above its joint. *)
Definition openFrame : list Landmark :=
  map (fun i => mkLandmark 0.5
                  (if (8 <=? i)%nat && (i mod 4 =? 0)%nat then 0.2 else 0.6))
      (seq 0 21).

Definition pointing : HandGestureData :=
  mkGesture false false false true (mkPoint2 0.5 0.5).

Definition fist : HandGestureData :=
  mkGesture true false false true (mkPoint2 0.5 0.5).

Definition pinch : HandGestureData :=
  mkGesture false false true false (mkPoint2 0.5 0.5).

Definition open : HandGestureData :=
  mkGesture false true false false (mkPoint2 0.5 0.5).

(** Inspecting the second of three photos, with a cooldown until 5000. *)
Definition inspecting : App.State :=
  App.mkState INSPECT pointing ["a"; "b"; "c"] (Some "photo-1")
              true true 5000%Z.

(** Scattered with three photos, nothing pending. *)
Definition scattered : App.State :=
  App.mkState SCATTER App.noGesture ["a"; "b"; "c"] None
              false false 0%Z.

(** Scattered just after a close, with a cooldown until 5000. *)
Definition cooling : App.State :=
  App.mkState SCATTER App.noGesture ["a"; "b"; "c"] None
              false false 5000%Z.

(** Inspecting a photo picked by a click during a cooldown until 5000,
    with no pointing tick on record. *)
Definition reselected : App.State :=
  App.mkState INSPECT App.noGesture ["a"; "b"; "c"] (Some "photo-1")
              false false 5000%Z.

(** Scattered, holding the empty string as focus. *)
Definition emptyFocus : App.State :=
  App.mkState SCATTER App.noGesture ["a"; "b"; "c"] (Some "")
              false false 0%Z.

Definition origin : Vector3 := mkVector3 0 0 0.
Definition unitX : Vector3 := mkVector3 1 0 0.

(** An oracle whose every draw is one half. *)
Definition half : nat -> R := fun _ => 0.5.

End Samples.

(** ** Further code of the same files *)

(** *** Landmark frames moved as a whole *)

Module Frames.

Import HandController.

(** The frame with every landmark mapped to [(sx * x + a, y + b)]: a shift
    for [sx = 1], a horizontal mirror image for [sx = -1]. *)
Definition moveFrame (sx a b : R) (lm : list Landmark) : list Landmark :=
  map (fun l => mkLandmark (sx * x l + a) (y l + b)) lm.

(** A landmark in normalized image coordinates. *)
Definition inUnitSquare (l : Landmark) : Prop :=
  0 <= x l <= 1 /\ 0 <= y l <= 1.

End Frames.

(** *** Runs of the state machine with the inputs its hosts send *)

Module AppRuns.

Import App.

(** A focus that names a photo of the collection. *)
Definition validFocus (s : State) : Prop :=
  forall id, focusId s = Some id ->
  exists k, (k < List.length (photos s))%nat /\ id = photoId (Z.of_nat k).

(** What the hosts send: [Math.random()] returns a draw in [[0, 1)], and the
    scene reports a click only on a photo item it renders, whose id is
    [photo-k] for an index [k] of the collection. *)
Definition admissible (s : State) (e : Event) : Prop :=
  match e with
  | Gesture _ random _ => 0 <= random < 1
  | PhotoSelect id =>
      exists k, (k < List.length (photos s))%nat /\ id = photoId (Z.of_nat k)
  | _ => True
  end.

Inductive runsTo : State -> Prop :=
| runs_initial : runsTo initial
| runs_step e s : runsTo s -> admissible s e -> runsTo (step e s).

(** [isInspectMode && focusId && focusId.startsWith('photo')]: whether the
    delete and close buttons are rendered (line 372). *)
Definition controlsVisible (s : State) : bool :=
  AppState_eqb (appState s) INSPECT
  && Js.truthy (focusId s)
  && match focusId s with
     | Some id => prefix "photo" id
     | None => false
     end.

End AppRuns.

(** *** [CameraController] *)

Module Camera.

(** The position the camera is blended toward at clock time [time]. *)
Definition targetPos (mode : AppState) (gesture : HandGestureData)
           (time : R) : Vector3 :=
  match mode with
  | TREE => mkVector3 (sin (time * 0.1) * 5) 0 32
  | SCATTER =>
      let azimuth := (px (handPosition gesture) - 0.5) * PI * 1.5 in
      let height := (py (handPosition gesture) - 0.5) * 20 in
      let radius := 35 in
      mkVector3 (sin azimuth * radius) height (cos azimuth * radius)
  | INSPECT => mkVector3 0 0 25
  end.

(** The point the camera looks at. *)
Definition lookAtPos : Vector3 := mkVector3 0 0 0.

End Camera.

(** *** Material flags and emissive intensity of [MagicItem] *)

Module Material.

Import MagicScene.

(** [s.includes(needle)]. *)
Definition includes (s needle : string) : bool :=
  match String.index 0 needle s with
  | Some _ => true
  | None => false
  end.

Definition toLower (c : ascii) : ascii :=
  let n := nat_of_ascii c in
  if ((65 <=? n) && (n <=? 90))%nat then ascii_of_nat (n + 32) else c.

Fixpoint lower (s : string) : string :=
  match s with
  | String c r => String (toLower c) (lower r)
  | EmptyString => EmptyString
  end.

(** [color.getHexString()] of a colour built from the text [#RRGGBB]: the
    six digits in lower case. *)
Definition getHexString (c : Color) : string :=
  match c with
  | String "#" r => lower r
  | _ => lower c
  end.

(** [item.color && item.color.getHexString() === new
    THREE.Color(ref).getHexString()]. *)
Definition hasColor (item : SceneItem) (ref : Color) : bool :=
  match color item with
  | Some c => String.eqb (getHexString c) (getHexString ref)
  | None => false
  end.

Definition isMetallicGold (item : SceneItem) : bool :=
  hasColor item PALETTE.METALLIC_GOLD.
Definition isSilver (item : SceneItem) : bool := hasColor item PALETTE.SILVER.
Definition isFoil (item : SceneItem) : bool := includes (id item) "foil".
Definition isLight (item : SceneItem) : bool := includes (id item) "light".
Definition isRibbon (item : SceneItem) : bool := includes (id item) "ribbon".
Definition isMatte (item : SceneItem) : bool :=
  hasColor item PALETTE.CREAM || hasColor item PALETTE.GREEN.

(** The emissive intensity a non-photo item is blended toward: in SCATTER
    mode a base value with a flash for lights and foils and a bonus for
    foils, otherwise a steady value. *)
Definition emissiveTarget (item : SceneItem) (targetMode : AppState)
           (time twinkleSpeed randomOffset : R) : R :=
  match targetMode with
  | SCATTER =>
      let sineWave := sin (time * twinkleSpeed + randomOffset) in
      let flash := if Js.gtb sineWave 0.8 then 2.0 else 0.0 in
      let foilBonus := if isFoil item then 2.0 else 0 in
      let baseEmissive :=
        if isLight item then 4.0
        else if isRibbon item then 3.0
        else if isMetallicGold item || isSilver item then 0.2
        else if isMatte item then 0.1
        else 0.6 in
      let dynamicFlash := if isLight item || isFoil item then flash else 0 in
      baseEmissive + dynamicFlash + foilBonus
  | _ =>
      if isLight item then 4.0
      else if isRibbon item then 3.0
      else if isFoil item then 1.5
      else if isMetallicGold item || isSilver item then 0.2
      else if isMatte item then 0.1
      else 0.5
  end.

(** The generation loop an id comes from, read off its prefix. *)
Definition idGroup (id : string) : nat :=
  if prefix "ornament-" id then 1
  else if prefix "foil-" id then 2
  else if prefix "ribbon-white-" id then 3
  else if prefix "ribbon-blue-" id then 4
  else if prefix "light-" id then 5
  else if prefix "photo-" id then 6
  else 0.

(** A list whose ids are pairwise distinct and whose items all come from
    loop [g]; and one whose items come from loop [g] or a later one. *)
Definition segment (g : nat) (l : list SceneItem) : Prop :=
  NoDup (map id l) /\ Forall (fun it => idGroup (id it) = g) l.

Definition ordered (g : nat) (l : list SceneItem) : Prop :=
  NoDup (map id l) /\ Forall (fun it => (g <= idGroup (id it))%nat) l.

(** An item whose id keywords agree with the loop its id prefix names:
    only foils hold [foil], only lights hold [light], only ribbons hold
    [ribbon], and only photos have the photo type. *)
Definition conventional (it : SceneItem) : Prop :=
  let g := idGroup (id it) in
  (1 <= g <= 6)%nat
  /\ (type it = photo <-> g = 6%nat)
  /\ isFoil it = (g =? 2)%nat
  /\ isLight it = (g =? 5)%nat
  /\ isRibbon it = ((g =? 3) || (g =? 4))%nat.

End Material.

(** *** The frame callbacks in binary64

    The blends of [MagicItem] and [CameraController] feed their result
    back into the next frame. They are modelled here with the rounding of
    every operation; the exact [MagicScene.framePosition] and
    [Camera.targetPos] above remain the reference for what one frame does
    up to rounding. [Math.sin] and [Math.cos] are approximated by the
    engine in a way the language leaves open: they enter as two functions
    on numbers. *)

Module Double.

Import Binary64.

(** The Euclidean length of a triple, and [Vector3.length]. *)
Definition length3 (x y z : R) : R := sqrt (x * x + y * y + z * z).

Definition norm (v : Vector3) : R := length3 (vx v) (vy v) (vz v).

(** One coordinate of [Vector3.lerp]: [this.x += (v.x - this.x) * alpha]. *)
Definition axis (x v alpha : R) : option R :=
  d <- sub v x ;;
  m <- mul d alpha ;;
  add x m.

(** [Vector3.lerp]. *)
Definition lerp (p v : Vector3) (alpha : R) : option Vector3 :=
  x <- axis (vx p) (vx v) alpha ;;
  y <- axis (vy p) (vy v) alpha ;;
  z <- axis (vz p) (vz v) alpha ;;
  Some (mkVector3 x y z).

(** [THREE.MathUtils.lerp]: [(1 - t) * x + t * y]. *)
Definition mathLerp (x y t : R) : option R :=
  s <- sub 1 t ;;
  a <- mul s x ;;
  b <- mul t y ;;
  add a b.

(** What a frame callback is given: [state.clock.elapsedTime] and the
    time since the previous frame. *)
Record Frame := mkFrame { elapsedTime : R; delta : R }.

(** A callback run on successive frames, oldest first; the result is
    [None] once a number computed on the way is not finite. *)
Fixpoint run {A : Type} (callback : Frame -> A -> option A)
         (frames : list Frame) (a : A) : option A :=
  match frames with
  | [] => Some a
  | f :: fs => a' <- callback f a ;; run callback fs a'
  end.

Section Engine.

Variables Math_sin Math_cos : R -> R.

(** The target position of [MagicItem]'s frame callback. *)
Definition targetPos (item : MagicScene.SceneItem) (targetMode : AppState)
           (focusId : option string) : option Vector3 :=
  match targetMode with
  | TREE => Some (MagicScene.treePos item)
  | SCATTER => Some (MagicScene.scatterPos item)
  | INSPECT =>
      match MagicScene.type item with
      | photo =>
          if MagicScene.isFocus focusId item then Some (mkVector3 0 0 15)
          else
            let s := MagicScene.scatterPos item in
            k <- literal 1.2 ;;
            x <- mul (vx s) k ;;
            y <- mul (vy s) k ;;
            z <- mul (vz s) k ;;
            z' <- sub z 10 ;;
            Some (mkVector3 x y z')
      | _ => Some (MagicScene.scatterPos item)
      end
  end.

(** [position.lerp(targetPos, delta * 3.0)]. *)
Definition blend (target : Vector3) (delta : R) (p : Vector3)
  : option Vector3 :=
  alpha <- mul delta 3 ;;
  lerp p target alpha.

(** The position update of one frame of [MagicItem]: the blend, then in
    SCATTER mode the drift along y and along x. *)
Definition framePosition (item : MagicScene.SceneItem)
           (targetMode : AppState) (focusId : option string)
           (randomOffset : R) (f : Frame) (p : Vector3) : option Vector3 :=
  target <- targetPos item targetMode focusId ;;
  p <- blend target (delta f) p ;;
  match targetMode with
  | SCATTER =>
      let time := elapsedTime f in
      k <- literal 0.02 ;;
      ty <- add time randomOffset ;;
      dy <- mul (Math_sin ty) k ;;
      y <- add (vy p) dy ;;
      h <- mul time 0.5 ;;
      tx <- add h randomOffset ;;
      dx <- mul (Math_cos tx) k ;;
      x <- add (vx p) dx ;;
      Some (mkVector3 x y (vz p))
  | _ => Some p
  end.

(** The target position of [CameraController]'s frame callback. *)
Definition cameraTarget (mode : AppState) (gesture : HandGestureData)
           (time : R) : option Vector3 :=
  match mode with
  | TREE =>
      k <- literal 0.1 ;;
      t <- mul time k ;;
      x <- mul (Math_sin t) 5 ;;
      Some (mkVector3 x 0 32)
  | SCATTER =>
      a <- sub (px (handPosition gesture)) 0.5 ;;
      pi <- literal PI ;;
      b <- mul a pi ;;
      azimuth <- mul b 1.5 ;;
      h <- sub (py (handPosition gesture)) 0.5 ;;
      height <- mul h 20 ;;
      let radius := 35 in
      x <- mul (Math_sin azimuth) radius ;;
      z <- mul (Math_cos azimuth) radius ;;
      Some (mkVector3 x height z)
  | INSPECT => Some (mkVector3 0 0 25)
  end.

(** [camera.position.lerp(targetPos, delta * 2.0)]. *)
Definition cameraFrame (mode : AppState) (gesture : HandGestureData)
           (f : Frame) (position : Vector3) : option Vector3 :=
  target <- cameraTarget mode gesture (elapsedTime f) ;;
  alpha <- mul (delta f) 2 ;;
  lerp position target alpha.

(** The emissive intensity a non-photo item is blended toward. *)
Definition emissiveTarget (item : MagicScene.SceneItem)
           (targetMode : AppState) (time twinkleSpeed randomOffset : R)
  : option R :=
  match targetMode with
  | SCATTER =>
      t <- mul time twinkleSpeed ;;
      t' <- add t randomOffset ;;
      let sineWave := Math_sin t' in
      k <- literal 0.8 ;;
      let flash := if Js.gtb sineWave k then 2 else 0 in
      let foilBonus := if Material.isFoil item then 2 else 0 in
      baseEmissive <-
        literal (if Material.isLight item then 4
                 else if Material.isRibbon item then 3
                 else if Material.isMetallicGold item
                         || Material.isSilver item then 0.2
                 else if Material.isMatte item then 0.1
                 else 0.6) ;;
      let dynamicFlash :=
        if Material.isLight item || Material.isFoil item then flash else 0 in
      s <- add baseEmissive dynamicFlash ;;
      add s foilBonus
  | _ =>
      literal (if Material.isLight item then 4
               else if Material.isRibbon item then 3
               else if Material.isFoil item then 1.5
               else if Material.isMetallicGold item
                       || Material.isSilver item then 0.2
               else if Material.isMatte item then 0.1
               else 0.5)
  end.

(** The emissive part of one frame: photos have no material to change. *)
Definition emissiveFrame (item : MagicScene.SceneItem)
           (targetMode : AppState) (twinkleSpeed randomOffset : R)
           (f : Frame) (emissiveIntensity : R) : option R :=
  match MagicScene.type item with
  | photo => Some emissiveIntensity
  | _ =>
      target <- emissiveTarget item targetMode (elapsedTime f) twinkleSpeed
                               randomOffset ;;
      t <- literal 0.1 ;;
      mathLerp emissiveIntensity target t
  end.

End Engine.

(** Frames whose blend factor [delta * k], as computed, lies within [lo]
    of the factor one that would land on the target. *)
Definition paced (k lo : R) (f : Frame) : Prop :=
  exists alpha, mul (delta f) k = Some alpha /\ lo <= alpha <= 2 - lo.

(** The distance from the target below which rounding decides the
    outcome of a blend paced by [lo]. *)
Definition noiseFloor (lo : R) (target : Vector3) : R :=
  (u * norm target + 10 * eta) / (lo - 6 * u).

(** The same for the emissive blend, whose factor is the literal 0.1. *)
Definition emissiveNoiseFloor (target : R) : R :=
  (7 * u * Rabs target + 4 * eta) / (1 / 10 - 7 * u).

(** The number that follows 1, and a position that far right of the
    unit point of the x axis. *)
Definition afterOne : R := 1 + / 4503599627370496.
Definition afterUnitX : Vector3 := mkVector3 afterOne 0 0.

(** An ornament whose place in the tree is the unit point of the x
    axis. *)
Definition unitItem : MagicScene.SceneItem :=
  MagicScene.mkItem "ornament-0" sphere Samples.unitX Samples.origin
                    Samples.origin None None 1.

End Double.

(** *** The earlier variant of the component ([src/unnamed/part_000]) *)

Module Legacy.

Record State := mkState {
  appState : AppState;
  gestureData : HandGestureData;
  photos : list string;
  focusId : option string
}.

(** [handleGesture] of the variant: no cooldown, no fresh-point test, and
    the photos and the focus are read from the state directly. *)
Definition handleGesture (random : R) (data : HandGestureData) (s : State)
  : State :=
  let prev := appState s in
  if isFist data then mkState TREE data (photos s) None
  else if isPointing data && (0 <? List.length (photos s))%nat then
    if negb (AppState_eqb prev INSPECT) then
      let randomIdx := App.randomIdx random (List.length (photos s)) in
      mkState INSPECT data (photos s) (Some (App.photoId randomIdx))
    else mkState INSPECT data (photos s) (focusId s)
  else if isOpen data then
    mkState SCATTER data (photos s)
            (if AppState_eqb prev INSPECT then None else focusId s)
  else if AppState_eqb prev SCATTER && isPinching data
          && (0 <? List.length (photos s))%nat then
    mkState INSPECT data (photos s)
            (if negb (Js.truthy (focusId s)) then Some (App.photoId 0)
             else focusId s)
  else mkState prev data (photos s) (focusId s).

(** The part of the current component's state the variant has. *)
Definition project (s : App.State) : State :=
  mkState (App.appState s) (App.gestureData s) (App.photos s)
          (App.focusId s).

Record Track := mkTrack { title : string; src : string }.

Definition PLAYLIST : list Track :=
  [ mkTrack "Jingle Bells" "./bgm.mp3";
    mkTrack "We Wish You a Merry Christmas"
            "https://upload.wikimedia.org/wikipedia/commons/9/9b/We_Wish_You_A_Merry_Christmas.ogg";
    mkTrack "Silent Night"
            "https://upload.wikimedia.org/wikipedia/commons/e/e0/Silent_Night_by_Kevin_MacLeod.ogg" ].

(** The audio cells of the variant's state. *)
Record Player := mkPlayer {
  trackIndex : Z;
  audioSrc : string;
  trackTitle : string;
  isPlaying : bool
}.

Definition initialPlayer : Player :=
  mkPlayer 0 "./bgm.mp3" "Jingle Bells" false.

Inductive Direction := next | prev.

(** [PLAYLIST[i]] followed by a field read: throws out of range. *)
Definition track (i : Z) : option Track :=
  if (i <? 0)%Z then None else nth_error PLAYLIST (Z.to_nat i).

(** [changeTrack(direction)]; [None] when reading the playlist throws. *)
Definition changeTrack (direction : Direction) (p : Player) : option Player :=
  let len := Z.of_nat (List.length PLAYLIST) in
  let newIndex :=
    if (trackIndex p =? -1)%Z then 0%Z
    else
      match direction with
      | next => Z.rem (trackIndex p + 1) len
      | prev => Z.rem (trackIndex p - 1 + len) len
      end in
  t <- track newIndex ;;
  Some (mkPlayer newIndex (src t) (title t)
                 (if negb (isPlaying p) then true else isPlaying p)).

(** A player whose index is -1 (an uploaded file plays) or an index of the
    playlist whose entry is the one that plays. *)
Definition consistent (p : Player) : Prop :=
  trackIndex p = (-1)%Z
  \/ ((0 <= trackIndex p < 3)%Z
      /\ track (trackIndex p) = Some (mkTrack (trackTitle p) (audioSrc p))).

(** [name.replace(/\.[^/.]+$/, "")]: the name without its last extension,
    a dot followed to the end by one or more characters that are neither
    a slash nor a dot; [None] when the text holds no such extension. *)
Fixpoint dropExtension (s : string) : option string :=
  match s with
  | EmptyString => None
  | String c r =>
      match dropExtension r with
      | Some r' => Some (String c r')
      | None =>
          if Ascii.eqb c "."
          then
            match r with
            | EmptyString => None
            | _ => if Material.includes r "/" || Material.includes r "."
                   then None else Some EmptyString
            end
          else None
      end
  end.

Definition stripExtension (s : string) : string :=
  match dropExtension s with
  | Some r => r
  | None => s
  end.

(** [handleAudioUpload] for a chosen file with the given name and object
    URL. *)
Definition handleAudioUpload (name url : string) (p : Player) : Player :=
  mkPlayer (-1) url (stripExtension name) true.

(** [togglePlay], with the audio element mounted. *)
Definition togglePlay (p : Player) : Player :=
  mkPlayer (trackIndex p) (audioSrc p) (trackTitle p) (negb (isPlaying p)).

Inductive PlayerEvent :=
| ChangeTrack (direction : Direction)
| AudioUpload (name url : string)
| TogglePlay.

(** One event; [None] when the handler throws. *)
Definition playerStep (e : PlayerEvent) (p : Player) : option Player :=
  match e with
  | ChangeTrack d => changeTrack d p
  | AudioUpload name url => Some (handleAudioUpload name url p)
  | TogglePlay => Some (togglePlay p)
  end.

Fixpoint playerRun (es : list PlayerEvent) (p : Player) : option Player :=
  match es with
  | [] => Some p
  | e :: es' => p' <- playerStep e p ;; playerRun es' p'
  end.

End Legacy.

(** *** Proof steps for printed digits *)

Module Reading.

(** Unfold one step of printing and of reading, and evaluate the digit
    just read. *)
Ltac read_digit :=
  cbn [NilEmpty.string_of_uint Pos.of_uint Pos.of_uint_acc Js.parseDigits];
  match goal with
  | |- context [Js.digitValue ?c] =>
      let v := eval vm_compute in (Js.digitValue c) in
      change (Js.digitValue c) with v; cbv iota beta
  end;
  match goal with
  | |- context [(?k <? 10)%Z] => change ((k <? 10)%Z) with true; cbv iota
  end.

End Reading.

(** * Properties *)

(** ** JavaScript primitives *)

Module JsFacts.

Lemma ltb_true (a b : R) : Js.ltb a b = true <-> a < b.
Proof. unfold Js.ltb. destruct (Rlt_dec a b); split; intros; congruence || lra. Qed.

Lemma ltb_false (a b : R) : Js.ltb a b = false <-> b <= a.
Proof. unfold Js.ltb. destruct (Rlt_dec a b); split; intros; congruence || lra. Qed.

(** A strict comparison never holds in both directions. *)
Lemma ltb_gtb_excl (a b : R) : Js.ltb a b && Js.gtb a b = false.
Proof.
  unfold Js.gtb.
  destruct (Js.ltb a b) eqn:E1, (Js.ltb b a) eqn:E2; trivial.
  apply ltb_true in E1, E2. lra.
Qed.

Lemma every_true_In {A} (p : A -> option bool) (l : list A) :
  Js.every p l = Some true -> forall a, In a l -> p a = Some true.
Proof.
  induction l as [|b l IH]; simpl; intros H a Ha; [easy|].
  destruct (p b) as [[|]|] eqn:E; try discriminate.
  destruct Ha as [<-|Ha]; auto.
Qed.

Lemma every_total {A} (p : A -> option bool) (l : list A) :
  (forall a, In a l -> exists b, p a = Some b) ->
  exists b, Js.every p l = Some b.
Proof.
  induction l as [|a l IH]; simpl; intros H; [now exists true|].
  destruct (H a (or_introl eq_refl)) as [[|] ->]; [|now exists false].
  apply IH. intros; apply H; now right.
Qed.

Example parseInt_digits : Js.parseInt "12abc" = Some 12%Z.
Proof. reflexivity. Qed.

Example parseInt_hex : Js.parseInt " 0x1f" = Some 31%Z.
Proof. reflexivity. Qed.

Example parseInt_NaN : Js.parseInt "abc" = None.
Proof. reflexivity. Qed.

Example split_photo_id : Js.splitAt1 "-" "photo-12-x" = Some "12".
Proof. reflexivity. Qed.

Example toString_12 : Js.toString 12 = "12".
Proof. reflexivity. Qed.

Example splice_middle : Js.splice1 ["a"; "b"; "c"] 1 = ["a"; "c"].
Proof. reflexivity. Qed.

Example splice_past_end : Js.splice1 ["a"; "b"; "c"] 7 = ["a"; "b"; "c"].
Proof. reflexivity. Qed.

End JsFacts.

(** ** The gesture classifier *)

Module HandControllerSpec.

Import HandController.

Lemma at_total (lm : list Landmark) (i : nat) :
  (i < List.length lm)%nat -> exists l, at_ lm i = Some l.
Proof.
  intros H. unfold at_. destruct (nth_error lm i) eqn:E; eauto.
  apply nth_error_None in E. lia.
Qed.

(** What a raised fist flag says about a finger whose tip is at [tip]. *)
Lemma fist_finger (lm : list Landmark) (tip : nat) :
  In tip [8; 12; 16; 20]%nat ->
  detectFist lm = Some true ->
  exists t p, at_ lm tip = Some t /\ at_ lm (tip - 2) = Some p /\ y p < y t.
Proof.
  intros Hin H. unfold detectFist in H.
  pose proof (JsFacts.every_true_In _ _ H tip Hin) as Ht. cbv beta in Ht.
  destruct (at_ lm tip) as [t|]; [|discriminate].
  destruct (at_ lm (tip - 2)) as [p|]; [|discriminate].
  simpl in Ht. injection Ht as Ht. apply JsFacts.ltb_true in Ht. eauto.
Qed.

Lemma open_finger (lm : list Landmark) (tip : nat) :
  In tip [8; 12; 16; 20]%nat ->
  detectOpenPalm lm = Some true ->
  exists t p, at_ lm tip = Some t /\ at_ lm (tip - 2) = Some p /\ y t < y p.
Proof.
  intros Hin H. unfold detectOpenPalm in H.
  pose proof (JsFacts.every_true_In _ _ H tip Hin) as Ht. cbv beta in Ht.
  destruct (at_ lm tip) as [t|]; [|discriminate].
  destruct (at_ lm (tip - 2)) as [p|]; [|discriminate].
  simpl in Ht. injection Ht as Ht. apply JsFacts.ltb_true in Ht. eauto.
Qed.

(** A raised pointing flag: index tip above its joint, middle tip below. *)
Lemma pointing_fingers (lm : list Landmark) :
  detectPointing lm = Some true ->
  exists l8 l6 l12 l10,
    at_ lm 8 = Some l8 /\ at_ lm 6 = Some l6 /\
    at_ lm 12 = Some l12 /\ at_ lm 10 = Some l10 /\
    y l8 < y l6 /\ y l10 < y l12.
Proof.
  unfold detectPointing. intros H.
  destruct (at_ lm 8) as [l8|]; [|discriminate].
  destruct (at_ lm 6) as [l6|]; [|discriminate].
  destruct (at_ lm 12) as [l12|]; [|discriminate].
  destruct (at_ lm 10) as [l10|]; [|discriminate].
  destruct (at_ lm 16) as [l16|]; [|discriminate].
  destruct (at_ lm 14) as [l14|]; [|discriminate].
  destruct (at_ lm 20) as [l20|]; [|discriminate].
  destruct (at_ lm 18) as [l18|]; [|discriminate].
  simpl in H. injection H as H.
  repeat (apply andb_true_iff in H; destruct H as [H ?]).
  exists l8, l6, l12, l10. repeat split; trivial;
    now apply JsFacts.ltb_true.
Qed.

Lemma fist_open_excl (lm : list Landmark) :
  raised (detectFist lm) && raised (detectOpenPalm lm) = false.
Proof.
  destruct (detectFist lm) as [[|]|] eqn:F; trivial.
  destruct (detectOpenPalm lm) as [[|]|] eqn:O; trivial. exfalso.
  destruct (fist_finger lm 8 (or_introl eq_refl) F) as (t & p & Ht & Hp & Hlt).
  destruct (open_finger lm 8 (or_introl eq_refl) O) as (t' & p' & Ht' & Hp' & Hlt').
  rewrite Ht in Ht'. rewrite Hp in Hp'.
  injection Ht' as <-. injection Hp' as <-. lra.
Qed.

Lemma fist_pointing_excl (lm : list Landmark) :
  raised (detectFist lm) && raised (detectPointing lm) = false.
Proof.
  destruct (detectFist lm) as [[|]|] eqn:F; trivial.
  destruct (detectPointing lm) as [[|]|] eqn:P; trivial. exfalso.
  destruct (fist_finger lm 8 (or_introl eq_refl) F) as (t & p & Ht & Hp & Hlt).
  destruct (pointing_fingers lm P)
    as (l8 & l6 & _ & _ & H8 & H6 & _ & _ & Hi & _).
  change (8 - 2)%nat with 6%nat in Hp. rewrite Ht in H8. rewrite Hp in H6.
  injection H8 as <-. injection H6 as <-. lra.
Qed.

Lemma open_pointing_excl (lm : list Landmark) :
  raised (detectOpenPalm lm) && raised (detectPointing lm) = false.
Proof.
  destruct (detectOpenPalm lm) as [[|]|] eqn:O; trivial.
  destruct (detectPointing lm) as [[|]|] eqn:P; trivial. exfalso.
  destruct (open_finger lm 12 (or_intror (or_introl eq_refl)) O)
    as (t & p & Ht & Hp & Hlt).
  destruct (pointing_fingers lm P)
    as (_ & _ & l12 & l10 & _ & _ & H12 & H10 & _ & Hm).
  change (12 - 2)%nat with 10%nat in Hp. rewrite Ht in H12. rewrite Hp in H10.
  injection H12 as <-. injection H10 as <-. lra.
Qed.

Lemma atMostOne_intro (a b c : bool) :
  a && b = false -> a && c = false -> b && c = false ->
  atMostOne a b c = true.
Proof. unfold atMostOne. now intros -> -> ->. Qed.

(** On a full frame no detector throws. *)
Lemma detectors_total (lm : list Landmark) :
  (21 <= List.length lm)%nat ->
  exists f o pi po,
    detectFist lm = Some f /\ detectOpenPalm lm = Some o /\
    detectPinch lm = Some pi /\ detectPointing lm = Some po.
Proof.
  intros H.
  assert (T : forall i, (i < 21)%nat -> exists l, at_ lm i = Some l)
    by (intros; apply at_total; lia).
  assert (F : exists f, detectFist lm = Some f).
  { apply JsFacts.every_total. intros a Ha.
    destruct (T a) as [t ->]; [simpl in Ha; lia|].
    destruct (T (a - 2)%nat) as [p ->]; [simpl in Ha; lia|].
    simpl. eauto. }
  assert (O : exists o, detectOpenPalm lm = Some o).
  { apply JsFacts.every_total. intros a Ha.
    destruct (T a) as [t ->]; [simpl in Ha; lia|].
    destruct (T (a - 2)%nat) as [p ->]; [simpl in Ha; lia|].
    simpl. eauto. }
  destruct F as [f F], O as [o O]. exists f, o.
  unfold detectPinch, detectPointing.
  destruct (T 4%nat) as [l4 ->]; [lia|].
  destruct (T 6%nat) as [l6 ->]; [lia|].
  destruct (T 8%nat) as [l8 ->]; [lia|].
  destruct (T 10%nat) as [l10 ->]; [lia|].
  destruct (T 12%nat) as [l12 ->]; [lia|].
  destruct (T 14%nat) as [l14 ->]; [lia|].
  destruct (T 16%nat) as [l16 ->]; [lia|].
  destruct (T 18%nat) as [l18 ->]; [lia|].
  destruct (T 20%nat) as [l20 ->]; [lia|].
  cbn [Js.bind]. do 2 eexists. repeat split; eassumption || reflexivity.
Qed.

(** The open-hand sample frame: only [isOpen] is raised, and the hand
    position is the mirrored midpoint of wrist and middle-finger base. *)
Example openFrame_signal :
  onResults (mkResults (Some [Samples.openFrame]))
  = Some (mkGesture false true false false (mkPoint2 0.5 0.6)).
Proof.
  unfold onResults, detectFist, detectOpenPalm, detectPinch, detectPointing.
  cbn.
  assert (L : Js.ltb 0.2 0.6 = true) by (apply JsFacts.ltb_true; lra).
  assert (G : Js.gtb 0.2 0.6 = false) by (apply JsFacts.ltb_false; lra).
  rewrite !L, !G. cbn.
  assert (P : Js.ltb (sqrt ((0.5 - 0.5) * (0.5 - 0.5)
                            + (0.2 - 0.6) * (0.2 - 0.6))) 0.05 = false).
  { apply JsFacts.ltb_false.
    replace ((0.5 - 0.5) * (0.5 - 0.5) + (0.2 - 0.6) * (0.2 - 0.6))
      with (0.4 * 0.4) by lra.
    rewrite sqrt_square; lra. }
  rewrite P. do 2 f_equal. f_equal; lra.
Qed.

(** C9: when no hand is detected (the landmark list is absent or empty),
    [onResults] raises no error and emits the signal with all four flags
    false and [handPosition = (0.5, 0.5)]. *)
Theorem no_hand_neutral_signal (results : Results) :
  multiHandLandmarks results = None \/ multiHandLandmarks results = Some [] ->
  onResults results
  = Some (mkGesture false false false false (mkPoint2 0.5 0.5)).
Proof.
  intros [H|H]; unfold onResults; rewrite H; reflexivity.
Qed.

Lemma no_hand_neutral_signal_witness :
  onResults (mkResults None)
  = Some (mkGesture false false false false (mkPoint2 0.5 0.5))
  /\ onResults (mkResults (Some []))
     = Some (mkGesture false false false false (mkPoint2 0.5 0.5)).
Proof.
  split.
  - apply (no_hand_neutral_signal (mkResults None)). left. reflexivity.
  - apply (no_hand_neutral_signal (mkResults (Some []))). right. reflexivity.
Defined.

(** C10: for every landmark frame at most one of [isFist], [isOpen] and
    [isPointing] is true: the three detectors never raise two of the flags
    together, a frame of 21 landmarks makes all of them return, and the
    signal [onResults] emits for the frame carries at most one of the
    three. *)
Theorem classifier_flags_exclusive (lm : list Landmark) :
  atMostOne (raised (detectFist lm)) (raised (detectOpenPalm lm))
            (raised (detectPointing lm)) = true
  /\ ((21 <= List.length lm)%nat ->
      exists g, onResults (mkResults (Some [lm])) = Some g)
  /\ (forall rest g,
         onResults (mkResults (Some (lm :: rest))) = Some g ->
         atMostOne (isFist g) (isOpen g) (isPointing g) = true).
Proof.
  assert (X : atMostOne (raised (detectFist lm)) (raised (detectOpenPalm lm))
                        (raised (detectPointing lm)) = true).
  { apply atMostOne_intro;
      auto using fist_open_excl, fist_pointing_excl, open_pointing_excl. }
  split; [exact X|]. split.
  - intros H.
    destruct (detectors_total lm H) as (f & o & pi & po & F & O & Pi & Po).
    unfold onResults; cbn [multiHandLandmarks].
    rewrite F, O, Pi, Po. cbn [Js.bind].
    destruct (at_total lm 0) as [w ->]; [lia|].
    destruct (at_total lm 9) as [m ->]; [lia|].
    cbn [Js.bind]. eauto.
  - intros rest g. unfold onResults; cbn [multiHandLandmarks].
    destruct (detectFist lm) as [f|]; [|discriminate].
    destruct (detectOpenPalm lm) as [o|]; [|discriminate].
    destruct (detectPinch lm) as [pi|]; [|discriminate].
    destruct (detectPointing lm) as [po|]; [|discriminate].
    cbn [Js.bind raised] in *.
    destruct (at_ lm 0) as [w|]; [|discriminate].
    destruct (at_ lm 9) as [m|]; [|discriminate].
    cbn [Js.bind]. intros [= <-]. exact X.
Qed.

Lemma classifier_flags_exclusive_witness :
  exists g, onResults (mkResults (Some [Samples.openFrame])) = Some g
            /\ atMostOne (isFist g) (isOpen g) (isPointing g) = true.
Proof.
  destruct (classifier_flags_exclusive Samples.openFrame) as (_ & T & E).
  destruct (T ltac:(simpl; lia)) as [g Hg].
  exists g. split; [exact Hg | exact (E [] g Hg)].
Defined.

End HandControllerSpec.

(** ** The interaction state machine *)

Module AppSpec.

Import App.

Lemma AppState_eqb_eq (a b : AppState) : AppState_eqb a b = true <-> a = b.
Proof. destruct a, b; simpl; split; congruence. Qed.

(** [Math.floor(random * n)] is an index of a collection of [n]. *)
Lemma randomIdx_range (random : R) (n : nat) :
  0 <= random < 1 -> (0 < n)%nat ->
  (0 <= randomIdx random n < Z.of_nat n)%Z.
Proof.
  intros [H0 H1] Hn. unfold randomIdx, Js.floor.
  destruct (base_Int_part (random * INR n)) as [Hlo Hhi].
  assert (Hpos : 0 < INR n) by (apply lt_0_INR; exact Hn).
  rewrite INR_IZR_INZ in *.
  split.
  - apply Z.lt_succ_r. apply lt_IZR. rewrite succ_IZR. nra.
  - apply lt_IZR. nra.
Qed.

(** The draws mapped to an index [k] form an interval of length [1/n]:
    equal shares for every index. *)
Lemma randomIdx_share (random : R) (n : nat) (k : Z) :
  (0 < n)%nat ->
  randomIdx random n = k <->
  IZR k / INR n <= random < (IZR k + 1) / INR n.
Proof.
  intros Hn. unfold randomIdx, Js.floor.
  assert (Hpos : 0 < INR n) by (apply lt_0_INR; exact Hn).
  destruct (base_Int_part (random * INR n)) as [Hlo Hhi].
  split.
  - intros <-. split.
    + apply Rmult_le_reg_r with (INR n); trivial.
      unfold Rdiv. rewrite Rmult_assoc, Rinv_l by lra. lra.
    + apply Rmult_lt_reg_r with (INR n); trivial.
      unfold Rdiv. rewrite Rmult_assoc, Rinv_l by lra. lra.
  - intros [Hk1 Hk2].
    assert (A : IZR k <= random * INR n).
    { apply Rmult_le_compat_r with (r := INR n) in Hk1; [|lra].
      unfold Rdiv in Hk1. rewrite Rmult_assoc, Rinv_l in Hk1 by lra. lra. }
    assert (B : random * INR n < IZR k + 1).
    { apply Rmult_lt_compat_r with (r := INR n) in Hk2; [|lra].
      unfold Rdiv in Hk2. rewrite Rmult_assoc, Rinv_l in Hk2 by lra. lra. }
    apply Z.le_antisymm.
    + apply Z.lt_succ_r. apply lt_IZR. rewrite succ_IZR. lra.
    + apply Z.lt_succ_r. apply lt_IZR. rewrite succ_IZR. lra.
Qed.

Lemma cooldown_over (now deadline : Z) :
  (deadline <= now)%Z -> (now <? deadline)%Z = false.
Proof. intros. apply Z.ltb_ge. assumption. Qed.

Lemma nonempty_ltb {A} (l : list A) : l <> [] -> (0 <? List.length l)%nat = true.
Proof. destruct l; [congruence|reflexivity]. Qed.

(** A suppressed tick leaves the whole state as it was. *)
Lemma handleGesture_cooldown (now : Z) (random : R) (data : HandGestureData)
      (s : State) :
  (now < gestureCooldownRef s)%Z -> handleGesture now random data s = s.
Proof.
  intros H. unfold handleGesture.
  apply Z.ltb_lt in H. now rewrite H.
Qed.

Lemma handleGesture_inv now random data s :
  focusInv s -> focusInv (handleGesture now random data s).
Proof.
  unfold focusInv. destruct s as [m g ph f w d c]. intros I.
  open_handleGesture. repeat case_if; state_simpl;
    try exact I; try reflexivity; try congruence.
  intros H. apply I in H. subst m. discriminate.
Qed.

Lemma handleGesture_exit now random data s :
  exitClears s (handleGesture now random data s).
Proof.
  unfold exitClears. destruct s as [m g ph f w d c].
  open_handleGesture. intros ->.
  repeat case_if; state_simpl; try reflexivity; try congruence;
    try discriminate.
Qed.

Lemma handleDeleteClick_inv now s :
  focusInv s -> focusInv (handleDeleteClick now s).
Proof.
  unfold focusInv, handleDeleteClick. intros I.
  destruct (negb (deleteConfirm s)); [exact I|].
  destruct (focusId s) as [f|] eqn:F; [|rewrite F; congruence].
  destruct (Js.truthy (Some f) && prefix "photo-" f); [|rewrite F; exact I].
  destruct (Js.bind (Js.splitAt1 "-" f) Js.parseInt); [|rewrite F; exact I].
  cbn. congruence.
Qed.

Lemma handleDeleteClick_exit now s :
  exitClears s (handleDeleteClick now s).
Proof.
  unfold exitClears, handleDeleteClick. intros M.
  destruct (negb (deleteConfirm s)); [cbn; congruence|].
  destruct (focusId s) as [f|] eqn:F; [|congruence].
  destruct (Js.truthy (Some f) && prefix "photo-" f); [|congruence].
  destruct (Js.bind (Js.splitAt1 "-" f) Js.parseInt); [|congruence].
  reflexivity.
Qed.

Lemma handleFileUpload_same files s :
  appState (handleFileUpload files s) = appState s
  /\ focusId (handleFileUpload files s) = focusId s.
Proof.
  unfold handleFileUpload.
  destruct (_ <=? 0)%Z; split; reflexivity.
Qed.

Lemma step_inv e s : focusInv s -> focusInv (step e s).
Proof.
  destruct e; cbn [step].
  - apply handleGesture_inv.
  - intros _ _. reflexivity.
  - apply handleDeleteClick_inv.
  - intros I. exact I.
  - intros _ H. exfalso. apply H. reflexivity.
  - unfold focusInv.
    destruct (handleFileUpload_same files s) as [-> ->]. trivial.
Qed.

Lemma step_exit e s : exitClears s (step e s).
Proof.
  destruct e; cbn [step].
  - apply handleGesture_exit.
  - intros _ H. now destruct H.
  - apply handleDeleteClick_exit.
  - intros M H. now destruct H.
  - intros _ _. reflexivity.
  - unfold exitClears.
    destruct (handleFileUpload_same files s) as [-> _]. congruence.
Qed.

(** Ticks that all come before the deadline leave the state as it was. *)
Lemma ticks_cooldown (ts : list (Z * R * HandGestureData)) (s : State) :
  Forall (fun t => (fst (fst t) < gestureCooldownRef s)%Z) ts ->
  ticks ts s = s.
Proof.
  induction 1 as [|[[now random] data] ts Hnow _ IH]; cbn [ticks];
    [reflexivity|].
  cbn [fst] in Hnow. now rewrite handleGesture_cooldown.
Qed.

(** Closing the inspected photo at time [now] silences the gestures of
    the next second. *)
Lemma close_silences (now : Z) (s : State)
      (ts : list (Z * R * HandGestureData)) :
  Forall (fun t => (fst (fst t) < now + 1000)%Z) ts ->
  ticks ts (handleCloseInspect now s) = handleCloseInspect now s.
Proof. intros H. apply ticks_cooldown. exact H. Qed.

(** The sample states arise in runs from the initial state. *)
Example cooling_reachable :
  run [FileUpload ["a"; "b"; "c"]; PhotoSelect "photo-1"; CloseInspect 4000]
      initial
  = Samples.cooling.
Proof. reflexivity. Qed.

Example reselected_reachable :
  run [FileUpload ["a"; "b"; "c"]; PhotoSelect "photo-1"; CloseInspect 4000;
       PhotoSelect "photo-1"]
      initial
  = Samples.reselected.
Proof. reflexivity. Qed.

Example inspecting_reachable :
  run [FileUpload ["a"; "b"; "c"]; Gesture 10 0.5 Samples.pointing;
       CloseInspect 4000; PhotoSelect "photo-1"; DeleteClick 4100]
      initial
  = Samples.inspecting.
Proof. reflexivity. Qed.

(** What a confirmed delete of [photo-i] does. *)
Example delete_second_photo :
  handleDeleteClick 7000 Samples.inspecting
  = mkState SCATTER Samples.pointing ["a"; "c"] None true false 9000%Z.
Proof. reflexivity. Qed.

(** The walk of the specification: point with three photos, then a fist,
    then an open hand. *)
Example point_fist_open :
  let s0 := handleFileUpload ["a"; "b"; "c"] initial in
  let s1 := handleGesture 10 0.5 Samples.pointing s0 in
  let s2 := handleGesture 20 0.5 Samples.fist s1 in
  let s3 := handleGesture 30 0.5 Samples.open s2 in
  appState s1 = INSPECT
  /\ (exists k, (0 <= k < 3)%Z /\ focusId s1 = Some (photoId k))
  /\ (appState s2 = TREE /\ focusId s2 = None)
  /\ appState s3 = SCATTER.
Proof.
  cbv zeta. repeat split.
  exists (randomIdx 0.5 3). split; [|reflexivity].
  apply randomIdx_range; [lra|lia].
Qed.

(** C1, failing as stated: a fist signal that arrives before the cooldown
    deadline is ignored; the mode stays INSPECT, the focus and the pending
    delete confirmation stay as they were. *)
Lemma fist_ignored_during_cooldown :
  isFist Samples.fist = true
  /\ appState (handleGesture 1000 0 Samples.fist Samples.inspecting) = INSPECT
  /\ focusId (handleGesture 1000 0 Samples.fist Samples.inspecting)
     = Some "photo-1"
  /\ deleteConfirm (handleGesture 1000 0 Samples.fist Samples.inspecting)
     = true.
Proof. repeat split. Qed.

(** C1, amended: for every gesture signal with [isFist = true] that
    [handleGesture] receives when the current time is not before the
    cooldown deadline, and for every prior mode and prior focus (whatever
    the other flags of the signal), the resulting mode is TREE, the focus
    is null and the pending delete confirmation is cleared. *)
Theorem fist_resets (now : Z) (random : R) (data : HandGestureData)
        (s : State) :
  (gestureCooldownRef s <= now)%Z ->
  isFist data = true ->
  appState (handleGesture now random data s) = TREE
  /\ focusId (handleGesture now random data s) = None
  /\ deleteConfirm (handleGesture now random data s) = false.
Proof.
  intros C F. open_handleGesture.
  rewrite (cooldown_over _ _ C), F. state_simpl. auto.
Qed.

Lemma fist_resets_witness :
  appState (handleGesture 6000 0 Samples.fist Samples.inspecting) = TREE
  /\ focusId (handleGesture 6000 0 Samples.fist Samples.inspecting) = None
  /\ deleteConfirm (handleGesture 6000 0 Samples.fist Samples.inspecting)
     = false.
Proof.
  apply (fist_resets 6000 0 Samples.fist Samples.inspecting).
  - simpl. lia.
  - reflexivity.
Defined.

(** C2: while the current time is strictly before the cooldown deadline,
    any number of capture ticks, whatever their signals (a fist included),
    leaves the machine as it was: the mode and the focus, and in fact the
    whole state, are unchanged. *)
Theorem cooldown_suppresses_gestures
        (ts : list (Z * R * HandGestureData)) (s : State) :
  Forall (fun t => (fst (fst t) < gestureCooldownRef s)%Z) ts ->
  ticks ts s = s
  /\ appState (ticks ts s) = appState s
  /\ focusId (ticks ts s) = focusId s.
Proof.
  intros H. rewrite (ticks_cooldown ts s H). auto.
Qed.

Lemma cooldown_suppresses_gestures_witness :
  ticks [(1000%Z, 0, Samples.fist); (4999%Z, 0.5, Samples.pointing)]
        Samples.inspecting
  = Samples.inspecting.
Proof.
  apply (cooldown_suppresses_gestures
           [(1000%Z, 0, Samples.fist); (4999%Z, 0.5, Samples.pointing)]
           Samples.inspecting).
  repeat constructor; simpl; lia.
Defined.

(** C3, failing as stated, twice: a pointing tick with photos present that
    arrives before the cooldown deadline selects nothing (the mode stays
    SCATTER and the focus stays null); and while INSPECT, a pointing tick
    that follows a suppressed pointing tick is still taken as a fresh point,
    so the focus is drawn again although the previous tick was pointing. *)
Lemma pointing_cooldown_exceptions :
  (isFist Samples.pointing = false
   /\ isPointing Samples.pointing = true
   /\ photos Samples.cooling <> []
   /\ appState Samples.cooling <> INSPECT
   /\ appState (handleGesture 1000 0.5 Samples.pointing Samples.cooling)
      = SCATTER
   /\ focusId (handleGesture 1000 0.5 Samples.pointing Samples.cooling)
      = None)
  /\ (let s1 := handleGesture 4000 0.9 Samples.pointing Samples.reselected in
      let s2 := handleGesture 6000 0.9 Samples.pointing s1 in
      appState s1 = INSPECT
      /\ focusId s1 = Some "photo-1"
      /\ focusId s2 = Some "photo-2").
Proof.
  split; [repeat split; discriminate|].
  cbv zeta. split; [reflexivity|]. split; [reflexivity|].
  assert (K : randomIdx 0.9 3 = 2%Z).
  { apply randomIdx_share; [lia|]. cbn [INR]. lra. }
  change (Some (photoId (randomIdx 0.9 3)) = Some "photo-2").
  rewrite K. reflexivity.
Qed.

(** C3, amended: on a gesture tick that is not suppressed by the cooldown,
    with [isFist = false], [isPointing = true] and at least one photo: if
    the prior mode is not INSPECT, or the flag stored by the last tick that
    was not suppressed says it was not pointing, the focus becomes
    [photo-k] with [k = floor(random * photoCount)], an index in
    [0, photoCount), and the mode becomes INSPECT; if the prior mode is
    INSPECT and the stored flag says it was pointing, the mode stays
    INSPECT and the focus is unchanged.  The tick stores its own
    [isPointing] for the next one, and the draws that lead to an index [k]
    are those of [[k/n, (k+1)/n)], an equal share for every index. *)
Theorem pointing_selects_random_photo
        (now : Z) (random : R) (data : HandGestureData) (s : State) :
  (gestureCooldownRef s <= now)%Z ->
  isFist data = false ->
  isPointing data = true ->
  photos s <> [] ->
  0 <= random < 1 ->
  let n := List.length (photos s) in
  let s' := handleGesture now random data s in
  (appState s <> INSPECT \/ wasPointingRef s = false ->
     appState s' = INSPECT
     /\ exists k : Z,
         (0 <= k < Z.of_nat n)%Z
         /\ k = Js.floor (random * INR n)
         /\ focusId s' = Some ("photo-" ++ Js.toString k)%string)
  /\ (appState s = INSPECT /\ wasPointingRef s = true ->
        appState s' = INSPECT /\ focusId s' = focusId s)
  /\ wasPointingRef s' = isPointing data
  /\ (forall k : Z,
         Js.floor (random * INR n) = k <->
         IZR k / INR n <= random < (IZR k + 1) / INR n).
Proof.
  intros C F P Ph Hr n s'.
  assert (Hn : (0 < n)%nat).
  { subst n. destruct (photos s); [congruence|simpl; lia]. }
  subst s'. destruct s as [m g ph f w d c]. open_handleGesture.
  rewrite (cooldown_over _ _ C), F, P. state_simpl.
  rewrite (nonempty_ltb _ Ph). cbn [andb].
  assert (Fresh : m <> INSPECT \/ w = false ->
                  negb (AppState_eqb m INSPECT) || negb w = true).
  { intros [H| ->]; [|apply orb_true_r].
    destruct m; try reflexivity. exfalso. apply H. reflexivity. }
  split; [|split; [|split]].
  - intros H. rewrite (Fresh H). state_simpl. split; [reflexivity|].
    exists (randomIdx random n). split; [now apply randomIdx_range|].
    split; reflexivity.
  - intros [-> ->]. cbn [AppState_eqb negb orb]. state_simpl.
    split; reflexivity.
  - case_if; reflexivity.
  - intros k. apply (randomIdx_share random n k Hn).
Qed.

Lemma pointing_selects_random_photo_witness :
  appState (handleGesture 10 0.5 Samples.pointing Samples.scattered)
  = INSPECT
  /\ exists k : Z,
      (0 <= k < 3)%Z
      /\ focusId (handleGesture 10 0.5 Samples.pointing Samples.scattered)
         = Some ("photo-" ++ Js.toString k)%string.
Proof.
  destruct (pointing_selects_random_photo
              10 0.5 Samples.pointing Samples.scattered) as (A & _).
  - simpl. lia.
  - reflexivity.
  - reflexivity.
  - discriminate.
  - lra.
  - destruct A as (M & k & K & _ & Fk).
    + left. discriminate.
    + split; [exact M|]. exists k. split; [exact K | exact Fk].
Defined.

(** C4, failing as stated, twice: a pinch tick before the cooldown deadline
    changes nothing (the mode stays SCATTER, the focus stays null); and a
    focus that is the empty string is not null, yet the pinch replaces it
    by [photo-0]. *)
Lemma pinch_fallback_exceptions :
  (appState (handleGesture 1000 0 Samples.pinch Samples.cooling) = SCATTER
   /\ focusId (handleGesture 1000 0 Samples.pinch Samples.cooling) = None)
  /\ (focusId Samples.emptyFocus <> None
      /\ focusId (handleGesture 10 0 Samples.pinch Samples.emptyFocus)
         <> focusId Samples.emptyFocus).
Proof. repeat split; discriminate. Qed.

(** C4, amended: on a gesture tick that is not suppressed by the cooldown,
    with prior mode SCATTER, [isPinching = true], at least one photo and
    [isFist = isOpen = isPointing = false]: if the focus is null it becomes
    [photo-0] and the mode becomes INSPECT; if the focus is a non-empty id
    the mode becomes INSPECT and the focus is unchanged. *)
Theorem pinch_fallback
        (now : Z) (random : R) (data : HandGestureData) (s : State) :
  (gestureCooldownRef s <= now)%Z ->
  appState s = SCATTER ->
  isPinching data = true ->
  photos s <> [] ->
  isFist data = false -> isOpen data = false -> isPointing data = false ->
  let s' := handleGesture now random data s in
  (focusId s = None ->
     focusId s' = Some "photo-0" /\ appState s' = INSPECT)
  /\ (forall id, focusId s = Some id -> id <> "" ->
        appState s' = INSPECT /\ focusId s' = Some id).
Proof.
  intros C M Pi Ph F O P s'. subst s'.
  destruct s as [m g ph f w d c]. open_handleGesture. subst m.
  rewrite (cooldown_over _ _ C), F, P, O, Pi. state_simpl.
  rewrite (nonempty_ltb _ Ph). cbn [andb AppState_eqb]. split.
  - intros ->. cbn [Js.truthy negb]. state_simpl. split; reflexivity.
  - intros id -> Hid. destruct id as [|a id]; [congruence|].
    cbn [Js.truthy negb]. state_simpl. split; reflexivity.
Qed.

Lemma pinch_fallback_witness :
  focusId (handleGesture 10 0 Samples.pinch Samples.scattered)
  = Some "photo-0"
  /\ appState (handleGesture 10 0 Samples.pinch Samples.scattered)
     = INSPECT.
Proof.
  destruct (pinch_fallback 10 0 Samples.pinch Samples.scattered) as [A _].
  - simpl. lia.
  - reflexivity.
  - reflexivity.
  - discriminate.
  - reflexivity.
  - reflexivity.
  - reflexivity.
  - apply A. reflexivity.
Defined.

(** C5: in every state reachable from the initial state by gesture ticks,
    photo selections, close, delete clicks (with the confirmation timer)
    and uploads, a non-null focus implies mode INSPECT; and every single
    step that leaves INSPECT (fist, open hand, close, confirmed delete)
    ends with a null focus. *)
Theorem focus_implies_inspect (s : State) :
  reachable s ->
  (focusId s <> None -> appState s = INSPECT)
  /\ (forall e : Event,
         appState s = INSPECT -> appState (step e s) <> INSPECT ->
         focusId (step e s) = None).
Proof.
  intros H. split.
  - induction H as [|e s _ IH].
    + intros F. now destruct F.
    + apply step_inv. exact IH.
  - intros e. apply step_exit.
Qed.

Lemma focus_implies_inspect_witness :
  appState (step (PhotoSelect "photo-0")
                 (step (FileUpload ["a"]) initial)) = INSPECT.
Proof.
  apply (focus_implies_inspect
           (step (PhotoSelect "photo-0") (step (FileUpload ["a"]) initial))).
  - apply reachable_step. apply reachable_step. apply reachable_initial.
  - discriminate.
Defined.

End AppSpec.

(** ** Binary64 rounding *)

Module Binary64Facts.
Import Binary64.

Lemma pow2_pos (e : Z) : 0 < powerRZ 2 e.
Proof. apply powerRZ_lt; lra. Qed.

Lemma pow2_add (a b : Z) : powerRZ 2 (a + b) = powerRZ 2 a * powerRZ 2 b.
Proof. apply powerRZ_add; lra. Qed.

Lemma pow2_cancel (c : Z) : powerRZ 2 (- c) * powerRZ 2 c = 1.
Proof.
  rewrite <- pow2_add. replace (- c + c)%Z with 0%Z by lia. reflexivity.
Qed.

Lemma ln2_pos : 0 < ln 2.
Proof. pose proof ln_lt_2. lra. Qed.

Lemma pow2_exp (e : Z) : powerRZ 2 e = exp (IZR e * ln 2).
Proof. rewrite powerRZ_Rpower by lra. reflexivity. Qed.

Lemma pow2_le (a b : Z) : (a <= b)%Z -> powerRZ 2 a <= powerRZ 2 b.
Proof.
  intros H. rewrite !pow2_exp.
  apply IZR_le in H. pose proof ln2_pos.
  destruct (Req_dec (IZR a) (IZR b)) as [->|N]; [lra|].
  left. apply exp_increasing. apply Rmult_lt_compat_r; lra.
Qed.

Lemma pow2_lt (a b : Z) : (a < b)%Z -> powerRZ 2 a < powerRZ 2 b.
Proof.
  intros H. rewrite !pow2_exp.
  apply IZR_lt in H. pose proof ln2_pos.
  apply exp_increasing. apply Rmult_lt_compat_r; lra.
Qed.

Lemma pow2_S (e : Z) : powerRZ 2 (e + 1) = 2 * powerRZ 2 e.
Proof.
  rewrite pow2_add. replace (powerRZ 2 1) with 2 by (simpl; lra). ring.
Qed.

(** [mag x] brackets a nonzero [x] between two powers of two. *)
Lemma mag_spec (x : R) :
  x <> 0 -> powerRZ 2 (mag x - 1) <= Rabs x < powerRZ 2 (mag x).
Proof.
  intros Hx. unfold mag.
  assert (P : 0 < Rabs x) by now apply Rabs_pos_lt.
  set (y := ln (Rabs x) / ln 2).
  destruct (base_Int_part y) as [L U].
  pose proof ln2_pos as L2.
  assert (E : ln (Rabs x) = y * ln 2) by (unfold y; field; lra).
  rewrite !pow2_exp. rewrite <- (exp_ln (Rabs x)) by exact P.
  rewrite E. split.
  - replace (Int_part y + 1 - 1)%Z with (Int_part y) by lia.
    destruct L as [L|L]; [left; apply exp_increasing; nra|rewrite L; lra].
  - apply exp_increasing. rewrite plus_IZR. nra.
Qed.

Lemma mag_unique (x : R) (e : Z) :
  powerRZ 2 (e - 1) <= Rabs x < powerRZ 2 e -> mag x = e.
Proof.
  intros [L U].
  assert (Hx : x <> 0).
  { intros ->. rewrite Rabs_R0 in L. pose proof (pow2_pos (e - 1)). lra. }
  destruct (mag_spec x Hx) as [L' U'].
  destruct (Z.lt_trichotomy (mag x) e) as [H|[H|H]]; [|exact H|].
  - assert (powerRZ 2 (mag x) <= powerRZ 2 (e - 1)) by (apply pow2_le; lia).
    lra.
  - assert (powerRZ 2 e <= powerRZ 2 (mag x - 1)) by (apply pow2_le; lia).
    lra.
Qed.

Lemma mag_le (x : R) (e : Z) : x <> 0 -> Rabs x < powerRZ 2 e -> (mag x <= e)%Z.
Proof.
  intros Hx U. destruct (mag_spec x Hx) as [L _].
  destruct (Z_le_gt_dec (mag x) e) as [H|H]; [exact H|].
  assert (powerRZ 2 e <= powerRZ 2 (mag x - 1)) by (apply pow2_le; lia).
  lra.
Qed.

Lemma nearestEven_error (y : R) : Rabs (IZR (nearestEven y) - y) <= 1 / 2.
Proof.
  unfold nearestEven. destruct (base_Int_part y) as [L U].
  set (f := Int_part y) in *.
  destruct (Rlt_dec (y - IZR f) (1 / 2)) as [A|A].
  - apply Rabs_le. lra.
  - destruct (Rlt_dec (1 / 2) (y - IZR f)) as [B|B].
    + rewrite plus_IZR. apply Rabs_le. lra.
    + destruct (Z.even f); [|rewrite plus_IZR]; apply Rabs_le; lra.
Qed.

Lemma nearestEven_near (y : R) (n : Z) :
  Rabs (y - IZR n) < 1 / 2 -> nearestEven y = n.
Proof.
  intros H. apply Rabs_def2 in H. destruct H as [H1 H2].
  unfold nearestEven. destruct (base_Int_part y) as [L U].
  set (f := Int_part y) in *.
  assert (C : (f = n \/ f = n - 1)%Z).
  { assert (IZR n - 1 < IZR f + 1 /\ IZR f < IZR n + 1) as [P Q] by lra.
    rewrite <- minus_IZR, <- plus_IZR in P. rewrite <- plus_IZR in Q.
    apply lt_IZR in P, Q. lia. }
  destruct C as [C|C].
  - destruct (Rlt_dec (y - IZR f) (1 / 2)) as [A|A]; [exact C|].
    rewrite C in A. lra.
  - assert (E : IZR f = IZR n - 1) by (rewrite C, minus_IZR; reflexivity).
    destruct (Rlt_dec (y - IZR f) (1 / 2)) as [A|A]; [lra|].
    destruct (Rlt_dec (1 / 2) (y - IZR f)) as [B|B]; [lia|lra].
Qed.

Lemma nearestEven_IZR (n : Z) : nearestEven (IZR n) = n.
Proof.
  apply nearestEven_near. replace (IZR n - IZR n) with 0 by ring.
  rewrite Rabs_R0. lra.
Qed.

Lemma u_pow2 : u = powerRZ 2 (-53).
Proof. unfold u. simpl. lra. Qed.

Lemma eta_bounds : 0 < eta <= u.
Proof.
  unfold eta. split; [apply pow2_pos|]. rewrite u_pow2. apply pow2_le. lia.
Qed.

Lemma nearest_error (x : R) : Rabs (nearest x - x) <= u * Rabs x + eta.
Proof.
  unfold nearest. set (c := exponent x).
  set (y := x * powerRZ 2 (- c)).
  assert (E : x = y * powerRZ 2 c).
  { unfold y. rewrite Rmult_assoc, pow2_cancel. ring. }
  pose proof (nearestEven_error y) as N.
  pose proof (pow2_pos c) as Pc.
  replace (IZR (nearestEven y) * powerRZ 2 c - x)
    with ((IZR (nearestEven y) - y) * powerRZ 2 c) by lra.
  rewrite Rabs_mult, (Rabs_pos_eq (powerRZ 2 c)) by lra.
  destruct (Req_dec x 0) as [Z0|NZ].
  - assert (y = 0) by (unfold y; rewrite Z0; ring).
    subst y. rewrite H, nearestEven_IZR, Rminus_diag, Rabs_R0.
    pose proof eta_bounds. pose proof (Rabs_pos x). unfold u. nra.
  - destruct (mag_spec x NZ) as [L _].
    pose proof eta_bounds as [He _]. pose proof (Rabs_pos x) as Px.
    assert (Hu : 0 < u) by (unfold u; lra).
    unfold c, exponent. destruct (Z.max_spec (mag x - prec) emin) as [[_ ->]|[_ ->]].
    + unfold emin. replace (-1074)%Z with (-1075 + 1)%Z by lia.
      rewrite pow2_S. fold eta.
      set (d := Rabs _) in *. assert (0 <= d) by apply Rabs_pos.
      assert (d * (2 * eta) <= 1 / 2 * (2 * eta))
        by (apply Rmult_le_compat_r; lra).
      assert (0 <= u * Rabs x) by (apply Rmult_le_pos; lra).
      lra.
    + unfold prec. replace (mag x - 53)%Z with ((mag x - 1) + (-53) + 1)%Z by lia.
      rewrite pow2_S, pow2_add, <- u_pow2.
      set (m := powerRZ 2 (mag x - 1)) in *.
      assert (0 < m) by apply pow2_pos.
      set (d := Rabs _) in *. assert (0 <= d) by apply Rabs_pos.
      assert (0 < m * u) by (apply Rmult_lt_0_compat; lra).
      assert (d * (2 * (m * u)) <= 1 / 2 * (2 * (m * u)))
        by (apply Rmult_le_compat_r; lra).
      assert (m * u <= Rabs x * u) by (apply Rmult_le_compat_r; lra).
      lra.
Qed.

Lemma limit_huge : limit * 16777216 = powerRZ 2 emax.
Proof.
  unfold limit, emax. replace 1024%Z with (1000 + 24)%Z by lia.
  rewrite pow2_add. f_equal. simpl. lra.
Qed.

Lemma limit_ge : 1 <= limit.
Proof.
  unfold limit. change 1 with (powerRZ 2 0). apply pow2_le. lia.
Qed.

Lemma round_nearest (x : R) :
  Rabs (nearest x) < powerRZ 2 emax -> round x = Some (nearest x).
Proof.
  intros H. unfold round. cbv zeta.
  destruct (Rlt_dec (Rabs (nearest x)) (powerRZ 2 emax));
    [reflexivity|contradiction].
Qed.

Lemma round_some (x r : R) : round x = Some r -> r = nearest x.
Proof.
  unfold round. cbv zeta.
  destruct (Rlt_dec _ _); [intros [= <-]; reflexivity|discriminate].
Qed.

(** Rounding a number of moderate size gives a finite number with the
    standard error bound. *)
Lemma round_ok (x : R) :
  Rabs x <= limit * 1024 ->
  exists r, round x = Some r /\ Rabs (r - x) <= u * Rabs x + eta.
Proof.
  intros B. exists (nearest x). pose proof (nearest_error x) as E.
  split; [|exact E]. apply round_nearest.
  rewrite <- limit_huge. pose proof limit_ge. pose proof eta_bounds.
  pose proof (Rabs_triang_inv (nearest x) x).
  unfold u in *. lra.
Qed.

Lemma round_error (x r : R) :
  round x = Some r -> Rabs (r - x) <= u * Rabs x + eta.
Proof. intros H. apply round_some in H. subst r. apply nearest_error. Qed.

Lemma mantissa_bound (m : Z) :
  (Z.abs m < 2 ^ 53)%Z -> Rabs (IZR m) < powerRZ 2 53.
Proof.
  intros H. rewrite <- abs_IZR. apply IZR_lt in H.
  replace (powerRZ 2 53) with (IZR (2 ^ 53)); [exact H|].
  simpl. lra.
Qed.

(** Numbers of the format are left unchanged. *)
Lemma nearest_exact (m e : Z) :
  (Z.abs m < 2 ^ 53)%Z -> (emin <= e)%Z ->
  nearest (IZR m * powerRZ 2 e) = IZR m * powerRZ 2 e.
Proof.
  intros Hm He. set (x := IZR m * powerRZ 2 e).
  destruct (Z.eq_dec m 0) as [->|Nm].
  { unfold nearest, x. rewrite !Rmult_0_l, nearestEven_IZR. ring. }
  assert (Hx : x <> 0).
  { unfold x. apply Rmult_integral_contrapositive_currified.
    - now apply not_0_IZR.
    - pose proof (pow2_pos e). lra. }
  assert (Hc : (exponent x <= e)%Z).
  { unfold exponent. apply Z.max_lub; [|exact He].
    enough (mag x <= 53 + e)%Z by (unfold prec; lia).
    apply mag_le; [exact Hx|]. unfold x.
    rewrite Rabs_mult, (Rabs_pos_eq (powerRZ 2 e)) by (left; apply pow2_pos).
    rewrite pow2_add. apply Rmult_lt_compat_r; [apply pow2_pos|].
    now apply mantissa_bound. }
  unfold nearest. set (c := exponent x) in *.
  assert (K : powerRZ 2 (e - c) = IZR (2 ^ (e - c))).
  { rewrite <- (Z2Nat.id (e - c)) by lia. rewrite <- pow_powerRZ, pow_IZR.
    reflexivity. }
  assert (S : x * powerRZ 2 (- c) = IZR (m * 2 ^ (e - c))).
  { unfold x. rewrite mult_IZR, <- K. replace (e - c)%Z with (e + - c)%Z by lia.
    rewrite pow2_add. ring. }
  rewrite S, nearestEven_IZR, mult_IZR, <- K.
  unfold x. replace (e - c)%Z with (e + - c)%Z by lia.
  rewrite pow2_add, Rmult_assoc, Rmult_assoc, pow2_cancel. ring.
Qed.

Lemma round_exact (m e : Z) :
  (Z.abs m < 2 ^ 53)%Z -> (emin <= e <= 900)%Z ->
  round (IZR m * powerRZ 2 e) = Some (IZR m * powerRZ 2 e).
Proof.
  intros Hm [He He']. pose proof (nearest_exact m e Hm He) as N.
  rewrite <- N at 2. apply round_nearest. rewrite N.
  rewrite Rabs_mult, (Rabs_pos_eq (powerRZ 2 e)) by (left; apply pow2_pos).
  unfold emax. replace 1024%Z with (53 + 971)%Z by lia. rewrite pow2_add.
  pose proof (mantissa_bound m Hm) as A.
  assert (B : powerRZ 2 e <= powerRZ 2 971) by (apply pow2_le; lia).
  pose proof (pow2_pos e). pose proof (Rabs_pos (IZR m)). nra.
Qed.

Lemma round_dyadic (x : R) (m e : Z) :
  x = IZR m * powerRZ 2 e ->
  (Z.abs m < 2 ^ 53)%Z -> (emin <= e <= 900)%Z ->
  round x = Some x.
Proof. intros ->. apply round_exact. Qed.

(** The rounding of a number between two powers of two, named by the
    integer its scaled value is nearest to. *)
Lemma round_at (x : R) (e n : Z) :
  powerRZ 2 (e - 1) <= Rabs x < powerRZ 2 e ->
  (emin <= e - prec)%Z -> (e <= 900)%Z ->
  Rabs (x * powerRZ 2 (prec - e) - IZR n) < 1 / 2 ->
  round x = Some (IZR n * powerRZ 2 (e - prec)).
Proof.
  intros B He He' N.
  assert (Hx : x <> 0).
  { intros ->. rewrite Rabs_R0 in B. pose proof (pow2_pos (e - 1)). lra. }
  assert (C : exponent x = (e - prec)%Z).
  { unfold exponent. rewrite (mag_unique x e B). lia. }
  assert (V : nearest x = IZR n * powerRZ 2 (e - prec)).
  { unfold nearest. rewrite C.
    replace (- (e - prec))%Z with (prec - e)%Z by lia.
    now rewrite (nearestEven_near _ n N). }
  rewrite <- V. apply round_nearest.
  pose proof (nearest_error x) as E.
  pose proof (Rabs_triang_inv (nearest x) x) as T.
  pose proof eta_bounds as [_ Hu].
  assert (powerRZ 2 e <= powerRZ 2 900) by (apply pow2_le; lia).
  assert (powerRZ 2 900 * 4 <= powerRZ 2 emax).
  { replace 4 with (powerRZ 2 2) by (simpl; lra). rewrite <- pow2_add.
    apply pow2_le. unfold emax. lia. }
  assert (1 <= powerRZ 2 900).
  { change 1 with (powerRZ 2 0). apply pow2_le. lia. }
  pose proof (Rabs_pos x).
  unfold u in *. lra.
Qed.

End Binary64Facts.

(** ** Blends in binary64 *)

Module DoubleFacts.
Import Binary64 Binary64Facts.

Lemma Rabs3 (a b c : R) : Rabs (a + b + c) <= Rabs a + Rabs b + Rabs c.
Proof.
  pose proof (Rabs_triang (a + b) c). pose proof (Rabs_triang a b). lra.
Qed.

Lemma Rabs4 (a b c d : R) :
  Rabs (a + b + c + d) <= Rabs a + Rabs b + Rabs c + Rabs d.
Proof.
  pose proof (Rabs_triang (a + b + c) d). pose proof (Rabs3 a b c). lra.
Qed.

Lemma Rabs5 (a b c d e : R) :
  Rabs (a + b + c + d + e) <= Rabs a + Rabs b + Rabs c + Rabs d + Rabs e.
Proof.
  pose proof (Rabs_triang (a + b + c + d) e). pose proof (Rabs4 a b c d). lra.
Qed.

Lemma Rabs_le_inv (x b : R) : Rabs x <= b -> - b <= x <= b.
Proof. unfold Rabs. destruct (Rcase_abs x); lra. Qed.

Lemma Rabs_prod_le (a b x y : R) :
  Rabs a <= x -> Rabs b <= y -> Rabs (a * b) <= x * y.
Proof.
  intros Ha Hb. rewrite Rabs_mult.
  apply Rmult_le_compat; auto using Rabs_pos.
Qed.

Lemma limit_big : 1048576 <= limit.
Proof.
  unfold limit. replace 1048576 with (powerRZ 2 20) by (simpl; lra).
  apply pow2_le. lia.
Qed.

Lemma eta_small : 1048576 * eta <= u.
Proof.
  rewrite u_pow2. unfold eta. replace 1048576 with (powerRZ 2 20) by (simpl; lra).
  rewrite <- pow2_add. apply pow2_le. lia.
Qed.

(** One coordinate of a [lerp]: the result is finite, and its offset to
    the target is the exact one up to the rounding of three operations. *)
Lemma axis_ok (x v a : R) :
  Rabs x <= limit -> Rabs v <= limit -> 0 <= a <= 2 ->
  exists x',
    Double.axis x v a = Some x'
    /\ Rabs (x' - v)
       <= (Rabs (1 - a) + 6 * u) * Rabs (x - v) + (u * Rabs v + 5 * eta).
Proof.
  intros Hx Hv Ha. unfold Double.axis, sub, mul, add.
  pose proof limit_ge as HL. pose proof eta_bounds as [He0 Heu].
  set (D := Rabs (x - v)).
  assert (HD : 0 <= D) by apply Rabs_pos.
  assert (HD' : D <= 2 * limit).
  { unfold D. pose proof (Rabs_triang x (- v)) as T.
    rewrite Rabs_Ropp in T. replace (x + - v) with (x - v) in T by ring.
    lra. }
  assert (Dvx : Rabs (v - x) = D) by (unfold D; apply Rabs_minus_sym).
  destruct (round_ok (v - x)) as (d & -> & E1); [lra|]. cbn [Js.bind].
  rewrite Dvx in E1.
  assert (Bd : Rabs d <= D + (u * D + eta)).
  { pose proof (Rabs_triang (d - (v - x)) (v - x)) as T.
    replace (d - (v - x) + (v - x)) with d in T by ring. lra. }
  assert (Bda : Rabs (d * a) <= 2 * Rabs d).
  { rewrite Rabs_mult, (Rabs_pos_eq a) by lra.
    pose proof (Rabs_pos d). nra. }
  destruct (round_ok (d * a)) as (m & -> & E2); [lra_u|]. cbn [Js.bind].
  set (e1 := d - (v - x)) in *.
  set (e2 := m - d * a) in *.
  assert (Bae1 : Rabs (e1 * a) <= 2 * (u * D + eta)).
  { rewrite Rabs_mult, (Rabs_pos_eq a) by lra.
    pose proof (Rabs_pos e1). nra. }
  set (w := (x - v) * (1 - a)).
  assert (Bw : Rabs w = Rabs (1 - a) * D).
  { unfold w, D. rewrite Rabs_mult. ring. }
  assert (Bw' : Rabs w <= D).
  { rewrite Bw. assert (Rabs (1 - a) <= 1) by (apply Rabs_le; lra). nra. }
  assert (Exm : x + m = v + w + e1 * a + e2).
  { unfold w, e1, e2. ring. }
  assert (Bxm : Rabs (x + m) <= Rabs v + Rabs w + Rabs (e1 * a) + Rabs e2).
  { rewrite Exm. apply Rabs4. }
  destruct (round_ok (x + m)) as (x' & -> & E3); [lra_u|].
  exists x'. split; [reflexivity|].
  set (e3 := x' - (x + m)) in *.
  replace (x' - v) with (w + e1 * a + e2 + e3)
    by (unfold e3; rewrite Exm; ring).
  pose proof (Rabs4 w (e1 * a) e2 e3) as T.
  pose proof (Rabs_pos v). pose proof (Rabs_pos e2).
  rewrite Rmult_plus_distr_r, <- Bw. lra_u.
Qed.

(** *** Lengths of triples *)

Lemma sq3_nonneg (a b c : R) : 0 <= a * a + b * b + c * c.
Proof.
  pose proof (Rle_0_sqr a). pose proof (Rle_0_sqr b).
  pose proof (Rle_0_sqr c). unfold Rsqr in *. lra.
Qed.

Lemma length3_nonneg (a b c : R) : 0 <= Double.length3 a b c.
Proof. apply sqrt_pos. Qed.

Lemma length3_sqr (a b c : R) :
  Double.length3 a b c * Double.length3 a b c = a * a + b * b + c * c.
Proof. apply sqrt_sqrt, sq3_nonneg. Qed.

Lemma sqrt_le_sqr (s t : R) : 0 <= t -> s <= t * t -> sqrt s <= t.
Proof.
  intros Ht H. rewrite <- (sqrt_square t Ht). now apply sqrt_le_1_alt.
Qed.

Lemma abs_le_sqr (y b : R) : Rabs y <= b -> y * y <= b * b.
Proof.
  intros H. pose proof (Rabs_pos y).
  replace (y * y) with (Rabs y * Rabs y).
  - apply Rmult_le_compat; lra.
  - rewrite <- Rabs_mult. apply Rabs_pos_eq. apply Rle_0_sqr.
Qed.

Lemma length3_mono (y1 y2 y3 b1 b2 b3 : R) :
  Rabs y1 <= b1 -> Rabs y2 <= b2 -> Rabs y3 <= b3 ->
  Double.length3 y1 y2 y3 <= Double.length3 b1 b2 b3.
Proof.
  intros H1 H2 H3. apply sqrt_le_1_alt.
  apply abs_le_sqr in H1, H2, H3. lra.
Qed.

Lemma length3_coord (a b c : R) :
  Rabs a <= Double.length3 a b c
  /\ Rabs b <= Double.length3 a b c
  /\ Rabs c <= Double.length3 a b c.
Proof.
  pose proof (Rle_0_sqr a) as Ha. pose proof (Rle_0_sqr b) as Hb.
  pose proof (Rle_0_sqr c) as Hc. unfold Rsqr in *.
  repeat split; rewrite <- sqrt_Rsqr_abs; apply sqrt_le_1_alt;
    unfold Rsqr; lra.
Qed.

Lemma cauchy3 (a1 a2 a3 b1 b2 b3 : R) :
  a1 * b1 + a2 * b2 + a3 * b3
  <= Double.length3 a1 a2 a3 * Double.length3 b1 b2 b3.
Proof.
  set (A := Double.length3 a1 a2 a3). set (B := Double.length3 b1 b2 b3).
  pose proof (length3_nonneg a1 a2 a3) as HA. fold A in HA.
  pose proof (length3_nonneg b1 b2 b3) as HB. fold B in HB.
  pose proof (length3_sqr a1 a2 a3) as SA. fold A in SA.
  pose proof (length3_sqr b1 b2 b3) as SB. fold B in SB.
  set (s := a1 * b1 + a2 * b2 + a3 * b3).
  destruct (Rle_dec s 0) as [N|P].
  - assert (0 <= A * B) by now apply Rmult_le_pos. lra.
  - apply Rsqr_incr_0_var; [|now apply Rmult_le_pos].
    unfold Rsqr.
    replace (A * B * (A * B)) with ((A * A) * (B * B)) by ring.
    rewrite SA, SB. unfold s.
    pose proof (Rle_0_sqr (a1 * b2 - a2 * b1)).
    pose proof (Rle_0_sqr (a1 * b3 - a3 * b1)).
    pose proof (Rle_0_sqr (a2 * b3 - a3 * b2)).
    unfold Rsqr in *. lra.
Qed.

Lemma length3_triangle (a1 a2 a3 b1 b2 b3 : R) :
  Double.length3 (a1 + b1) (a2 + b2) (a3 + b3)
  <= Double.length3 a1 a2 a3 + Double.length3 b1 b2 b3.
Proof.
  pose proof (length3_nonneg a1 a2 a3) as HA.
  pose proof (length3_nonneg b1 b2 b3) as HB.
  pose proof (length3_sqr a1 a2 a3) as SA.
  pose proof (length3_sqr b1 b2 b3) as SB.
  pose proof (cauchy3 a1 a2 a3 b1 b2 b3) as C.
  apply sqrt_le_sqr; [lra|].
  set (A := Double.length3 a1 a2 a3) in *.
  set (B := Double.length3 b1 b2 b3) in *.
  replace ((A + B) * (A + B)) with (A * A + 2 * (A * B) + B * B) by ring.
  lra.
Qed.

Lemma length3_scale (k a1 a2 a3 : R) :
  0 <= k ->
  Double.length3 (k * Rabs a1) (k * Rabs a2) (k * Rabs a3)
  = k * Double.length3 a1 a2 a3.
Proof.
  intros Hk. unfold Double.length3.
  replace (k * Rabs a1 * (k * Rabs a1) + k * Rabs a2 * (k * Rabs a2)
           + k * Rabs a3 * (k * Rabs a3))
    with ((k * k) * (a1 * a1 + a2 * a2 + a3 * a3)).
  - rewrite sqrt_mult; [|nra|apply sq3_nonneg].
    now rewrite sqrt_square.
  - assert (E : forall y, Rabs y * Rabs y = y * y).
    { intros y. rewrite <- Rabs_mult. apply Rabs_pos_eq, Rle_0_sqr. }
    pose proof (E a1). pose proof (E a2). pose proof (E a3). nra.
Qed.

Lemma length3_const (c : R) : 0 <= c -> Double.length3 c c c <= 2 * c.
Proof. intros Hc. apply sqrt_le_sqr; nra. Qed.

(** Coordinate bounds of the shape left by a blend add up to a bound on
    the distance. *)
Lemma length3_bound (q k c g1 g2 g3 v1 v2 v3 y1 y2 y3 : R) :
  0 <= q -> 0 <= k -> 0 <= c ->
  Rabs y1 <= q * Rabs g1 + (k * Rabs v1 + c) ->
  Rabs y2 <= q * Rabs g2 + (k * Rabs v2 + c) ->
  Rabs y3 <= q * Rabs g3 + (k * Rabs v3 + c) ->
  Double.length3 y1 y2 y3
  <= q * Double.length3 g1 g2 g3 + k * Double.length3 v1 v2 v3 + 2 * c.
Proof.
  intros Hq Hk Hc H1 H2 H3.
  pose proof (length3_mono _ _ _ _ _ _ H1 H2 H3) as M.
  pose proof (length3_triangle (q * Rabs g1) (q * Rabs g2) (q * Rabs g3)
                (k * Rabs v1 + c) (k * Rabs v2 + c) (k * Rabs v3 + c)) as T1.
  pose proof (length3_triangle (k * Rabs v1) (k * Rabs v2) (k * Rabs v3)
                c c c) as T2.
  rewrite length3_scale in T1 by exact Hq.
  rewrite length3_scale in T2 by exact Hk.
  pose proof (length3_const c Hc). lra.
Qed.

Lemma distanceTo_length3 (p v : Vector3) :
  MagicScene.distanceTo p v
  = Double.length3 (vx p - vx v) (vy p - vy v) (vz p - vz v).
Proof. reflexivity. Qed.

Lemma distanceTo_nonneg (p v : Vector3) : 0 <= MagicScene.distanceTo p v.
Proof. rewrite distanceTo_length3. apply length3_nonneg. Qed.

Lemma norm_nonneg (v : Vector3) : 0 <= Double.norm v.
Proof. apply length3_nonneg. Qed.

(** A position within reach of a target of moderate length has moderate
    coordinates. *)
Lemma coords_in_range (p v : Vector3) :
  Double.norm v + MagicScene.distanceTo p v <= limit ->
  (Rabs (vx p) <= limit /\ Rabs (vy p) <= limit /\ Rabs (vz p) <= limit)
  /\ Rabs (vx v) <= limit /\ Rabs (vy v) <= limit /\ Rabs (vz v) <= limit.
Proof.
  intros H. rewrite distanceTo_length3 in H. unfold Double.norm in H.
  destruct (length3_coord (vx v) (vy v) (vz v)) as (V1 & V2 & V3).
  destruct (length3_coord (vx p - vx v) (vy p - vy v) (vz p - vz v))
    as (G1 & G2 & G3).
  pose proof (length3_nonneg (vx p - vx v) (vy p - vy v) (vz p - vz v)).
  pose proof (length3_nonneg (vx v) (vy v) (vz v)).
  assert (T : forall a b, Rabs a <= Rabs b + Rabs (a - b)).
  { intros a b. pose proof (Rabs_triang b (a - b)) as T.
    replace (b + (a - b)) with a in T by ring. exact T. }
  pose proof (T (vx p) (vx v)). pose proof (T (vy p) (vy v)).
  pose proof (T (vz p) (vz v)).
  repeat split; lra.
Qed.

(** [Vector3.lerp] with a factor between 0 and 2: the result is finite and
    its distance to the target is the exact one, [|1 - a|] times the old
    distance, up to rounding. *)
Lemma lerp_ok (p v : Vector3) (a : R) :
  Double.norm v + MagicScene.distanceTo p v <= limit -> 0 <= a <= 2 ->
  exists p',
    Double.lerp p v a = Some p'
    /\ MagicScene.distanceTo p' v
       <= (Rabs (1 - a) + 6 * u) * MagicScene.distanceTo p v
          + (u * Double.norm v + 10 * eta).
Proof.
  intros H Ha.
  destruct (coords_in_range p v H) as ((P1 & P2 & P3) & V1 & V2 & V3).
  unfold Double.lerp.
  destruct (axis_ok _ _ a P1 V1 Ha) as (x & -> & Bx).
  destruct (axis_ok _ _ a P2 V2 Ha) as (y & -> & By).
  destruct (axis_ok _ _ a P3 V3 Ha) as (z & -> & Bz).
  cbn [Js.bind]. eexists. split; [reflexivity|].
  rewrite !distanceTo_length3. cbn [vx vy vz]. unfold Double.norm.
  pose proof eta_bounds as [He _].
  assert (Hq : 0 <= Rabs (1 - a) + 6 * u).
  { pose proof (Rabs_pos (1 - a)). lra_u. }
  assert (Hu : 0 <= u) by lra_u.
  pose proof (length3_bound _ _ (5 * eta) _ _ _ _ _ _ _ _ _
                Hq Hu ltac:(lra) Bx By Bz).
  lra.
Qed.

(** *** Frames in a row *)

(** A callback that, on the frames that are [ok], scales a distance by
    [q < 1] up to an error [e] brings the distance to [e / (1 - q)]
    geometrically; [M] bounds the distances on which the callback is known
    to behave. *)
Lemma run_contracts {A : Type} (callback : Double.Frame -> A -> option A)
      (dist : A -> R) (ok : Double.Frame -> Prop) (q e M : R) :
  0 <= q < 1 -> 0 <= e -> e <= (1 - q) * M ->
  (forall f a, ok f -> dist a <= M ->
     exists a', callback f a = Some a' /\ dist a' <= q * dist a + e) ->
  forall frames, Forall ok frames ->
  forall a, dist a <= M ->
  exists a',
    Double.run callback frames a = Some a'
    /\ dist a' <= M
    /\ dist a' <= q ^ List.length frames * dist a
                  + e / (1 - q) * (1 - q ^ List.length frames).
Proof.
  intros Hq He HM Step frames Hok.
  induction Hok as [|f fs Hf _ IH]; intros a Ha; cbn [Double.run List.length].
  - exists a. split; [reflexivity|]. split; [exact Ha|]. cbn [pow]. lra.
  - destruct (Step f a Hf Ha) as (a1 & -> & B1). cbn [Js.bind].
    assert (Ha1 : dist a1 <= M) by nra.
    destruct (IH a1 Ha1) as (a' & R & B2 & B3).
    exists a'. split; [exact R|]. split; [exact B2|].
    cbn [pow]. set (n := List.length fs) in *.
    assert (Q : 0 <= q ^ n) by (apply pow_le; lra).
    set (F := e / (1 - q)).
    assert (EF : e = F * (1 - q)) by (unfold F; field; lra).
    fold F in B3.
    assert (q ^ n * dist a1 <= q ^ n * (q * dist a + e))
      by (apply Rmult_le_compat_l; assumption).
    rewrite EF in H. lra.
Qed.

Lemma run_contracts_floor {A : Type}
      (callback : Double.Frame -> A -> option A)
      (dist : A -> R) (ok : Double.Frame -> Prop) (q e M : R) :
  0 <= q < 1 -> 0 <= e -> e <= (1 - q) * M ->
  (forall f a, ok f -> dist a <= M ->
     exists a', callback f a = Some a' /\ dist a' <= q * dist a + e) ->
  forall frames, Forall ok frames ->
  forall a, dist a <= M ->
  exists a',
    Double.run callback frames a = Some a'
    /\ dist a' <= q ^ List.length frames * dist a + e / (1 - q).
Proof.
  intros Hq He HM Step frames Hok a Ha.
  destruct (run_contracts callback dist ok q e M Hq He HM Step frames Hok a Ha)
    as (a' & R & _ & B).
  exists a'. split; [exact R|].
  assert (Q : 0 <= q ^ List.length frames) by (apply pow_le; lra).
  assert (F : 0 <= e / (1 - q)).
  { apply Rmult_le_pos; [lra|]. left. apply Rinv_0_lt_compat. lra. }
  nra.
Qed.

(** *** The scalar blend *)

(** [MathUtils.lerp] with the literal 0.1 as factor: the result is finite
    and the gap to the target is nine tenths of the old one, up to
    rounding. *)
Lemma mathLerp_ok (x y : R) :
  Rabs x <= limit -> Rabs y <= limit ->
  exists t,
    literal 0.1 = Some t
    /\ exists x',
         Double.mathLerp x y t = Some x'
         /\ Rabs (x' - y)
            <= (9 / 10 + 7 * u) * Rabs (x - y) + (7 * u * Rabs y + 4 * eta).
Proof.
  intros Hx Hy. unfold literal, Double.mathLerp, sub, mul, add.
  pose proof limit_big as HL. pose proof eta_bounds as [He0 _].
  pose proof eta_small as Hes.
  pose proof (Rabs_pos x) as Px. pose proof (Rabs_pos y) as Py.
  set (G := Rabs (x - y)). assert (PG : 0 <= G) by apply Rabs_pos.
  assert (XG : Rabs x <= G + Rabs y).
  { pose proof (Rabs_triang (x - y) y) as T.
    replace (x - y + y) with x in T by ring. exact T. }
  assert (GX : G <= Rabs x + Rabs y).
  { unfold G. pose proof (Rabs_triang x (- y)) as T.
    rewrite Rabs_Ropp in T. exact T. }
  destruct (round_ok 0.1) as (t & Rt & Et).
  { rewrite Rabs_pos_eq; lra. }
  exists t. split; [exact Rt|].
  rewrite (Rabs_pos_eq 0.1) in Et by lra.
  assert (Bt : 0 < t < 1 / 8).
  { apply Rabs_le_inv in Et. split; lra_u. }
  assert (B1t : Rabs (1 - t) <= 9 / 10 + u).
  { apply Rabs_le_inv in Et. apply Rabs_le. split; lra_u. }
  destruct (round_ok (1 - t)) as (s & -> & Es); [lra_u|]. cbn [Js.bind].
  set (e1 := s - (1 - t)) in *.
  assert (Be1 : Rabs e1 <= 2 * u) by lra_u.
  assert (Bs : Rabs s <= 1).
  { pose proof (Rabs_triang e1 (1 - t)) as T.
    replace (e1 + (1 - t)) with s in T by (unfold e1; ring). lra_u. }
  assert (Bsx : Rabs (s * x) <= Rabs x).
  { pose proof (Rabs_prod_le s x 1 (Rabs x) Bs (Rle_refl _)). lra. }
  destruct (round_ok (s * x)) as (a & -> & Ea); [lra|]. cbn [Js.bind].
  set (e2 := a - s * x) in *.
  assert (Bty : Rabs (t * y) <= Rabs y).
  { assert (Rabs t <= 1) by (apply Rabs_le; lra).
    pose proof (Rabs_prod_le t y 1 (Rabs y) H (Rle_refl _)). lra. }
  destruct (round_ok (t * y)) as (b & -> & Eb); [lra|]. cbn [Js.bind].
  set (e3 := b - t * y) in *.
  set (w := (1 - t) * (x - y)).
  assert (Bw : Rabs w <= (9 / 10 + u) * G).
  { apply Rabs_prod_le; [exact B1t|apply Rle_refl]. }
  assert (Be1x : Rabs (e1 * x) <= 2 * u * Rabs x).
  { apply Rabs_prod_le; [exact Be1|apply Rle_refl]. }
  assert (Eab : a + b = y + w + e1 * x + e2 + e3).
  { unfold w, e1, e2, e3. ring. }
  assert (Bab : Rabs (a + b)
                <= Rabs y + Rabs w + Rabs (e1 * x) + Rabs e2 + Rabs e3).
  { rewrite Eab. apply Rabs5. }
  destruct (round_ok (a + b)) as (x' & -> & Ex); [lra_u|].
  exists x'. split; [reflexivity|].
  set (e4 := x' - (a + b)) in *.
  replace (x' - y) with (w + e1 * x + e2 + e3 + e4)
    by (unfold e4; rewrite Eab; ring).
  pose proof (Rabs5 w (e1 * x) e2 e3 e4) as T.
  lra_u.
Qed.

(** *** Paced blends toward a fixed target *)

(** One blend whose factor is at least [lo] away from 0 and from 2. *)
Lemma paced_lerp (k lo : R) (f : Double.Frame) (target p : Vector3) :
  0 <= lo <= 1 -> Double.paced k lo f ->
  Double.norm target + MagicScene.distanceTo p target <= limit ->
  exists p',
    (alpha <- mul (Double.delta f) k ;; Double.lerp p target alpha) = Some p'
    /\ MagicScene.distanceTo p' target
       <= (1 - lo + 6 * u) * MagicScene.distanceTo p target
          + (u * Double.norm target + 10 * eta).
Proof.
  intros Hlo (a & Ra & Ba) H. rewrite Ra. cbn [Js.bind].
  destruct (lerp_ok p target a H) as (p' & -> & B); [lra|].
  exists p'. split; [reflexivity|].
  assert (Rabs (1 - a) <= 1 - lo) by (apply Rabs_le; lra).
  pose proof (distanceTo_nonneg p target). nra.
Qed.

(** Frame after frame, such blends bring the distance down geometrically
    to the noise floor. *)
Lemma paced_run (callback : Double.Frame -> Vector3 -> option Vector3)
      (k lo : R) (target : Vector3) (frames : list Double.Frame)
      (p : Vector3) :
  (forall f q,
      callback f q
      = (alpha <- mul (Double.delta f) k ;; Double.lerp q target alpha)) ->
  7 * u <= lo <= 1 ->
  Forall (Double.paced k lo) frames ->
  2 * Double.norm target + MagicScene.distanceTo p target + 10 <= limit ->
  exists p',
    Double.run callback frames p = Some p'
    /\ MagicScene.distanceTo p' target
       <= (1 - lo + 6 * u) ^ List.length frames
          * MagicScene.distanceTo p target
          + Double.noiseFloor lo target.
Proof.
  intros C Hlo Hf H.
  pose proof (norm_nonneg target) as N. pose proof eta_bounds as [He Heu].
  pose proof (distanceTo_nonneg p target) as Dp.
  unfold Double.noiseFloor.
  replace (lo - 6 * u) with (1 - (1 - lo + 6 * u)) by ring.
  apply (run_contracts_floor callback
           (fun q => MagicScene.distanceTo q target) (Double.paced k lo)
           (1 - lo + 6 * u) (u * Double.norm target + 10 * eta)
           (limit - Double.norm target)).
  - lra_u.
  - assert (0 <= u * Double.norm target) by (apply Rmult_le_pos; lra_u).
    lra.
  - replace (1 - (1 - lo + 6 * u)) with (lo - 6 * u) by ring.
    assert (u * (limit - Double.norm target)
            <= (lo - 6 * u) * (limit - Double.norm target))
      by (apply Rmult_le_compat_r; lra).
    lra_u.
  - intros f q Hp Hq. rewrite C.
    apply paced_lerp; [lra_u|exact Hp|lra].
  - exact Hf.
  - lra.
Qed.

(** With frames no shorter than a 64th of the pace, the floor is a few
    units in the last place of the target. *)
Lemma noiseFloor_small (lo : R) (target : Vector3) :
  1 / 64 <= lo ->
  Double.noiseFloor lo target <= 128 * u * (Double.norm target + 1).
Proof.
  intros Hlo. unfold Double.noiseFloor.
  pose proof (norm_nonneg target) as N. pose proof eta_bounds as [He Heu].
  pose proof eta_small as Hs.
  set (e := u * Double.norm target + 10 * eta).
  assert (E0 : 0 <= e).
  { unfold e. assert (0 <= u * Double.norm target)
      by (apply Rmult_le_pos; lra_u). lra. }
  assert (E1 : e <= u * (Double.norm target + 1)) by (unfold e; lra_u).
  assert (D : / (lo - 6 * u) <= 128).
  { replace 128 with (/ / 128) by lra.
    apply Rinv_le_contravar; lra_u. }
  unfold Rdiv.
  assert (e * / (lo - 6 * u) <= e * 128)
    by (apply Rmult_le_compat_l; assumption).
  lra.
Qed.

(** Above the noise floor such a blend brings the position strictly
    closer. *)
Lemma paced_lerp_closer (k lo : R) (f : Double.Frame) (target p : Vector3) :
  7 * u <= lo <= 1 -> Double.paced k lo f ->
  Double.norm target + MagicScene.distanceTo p target <= limit ->
  Double.noiseFloor lo target < MagicScene.distanceTo p target ->
  exists p',
    (alpha <- mul (Double.delta f) k ;; Double.lerp p target alpha) = Some p'
    /\ MagicScene.distanceTo p' target < MagicScene.distanceTo p target.
Proof.
  intros Hlo Hp H F.
  destruct (paced_lerp k lo f target p) as (p' & R & B);
    [lra_u|exact Hp|exact H|].
  exists p'. split; [exact R|].
  unfold Double.noiseFloor in F.
  set (e := u * Double.norm target + 10 * eta) in *.
  set (D := MagicScene.distanceTo p target) in *.
  assert (P : 0 < lo - 6 * u) by lra_u.
  assert (E : e = e / (lo - 6 * u) * (lo - 6 * u)) by (field; lra).
  assert (e / (lo - 6 * u) * (lo - 6 * u) < D * (lo - 6 * u))
    by (apply Rmult_lt_compat_r; assumption).
  lra.
Qed.

End DoubleFacts.


(** ** The blend step *)

Module BlendSpec.

Import MagicScene.

Lemma sqDist_nonneg (p v : Vector3) : 0 <= sqDist p v.
Proof.
  unfold sqDist.
  pose proof (Rle_0_sqr (vx p - vx v)).
  pose proof (Rle_0_sqr (vy p - vy v)).
  pose proof (Rle_0_sqr (vz p - vz v)).
  unfold Rsqr in *. lra.
Qed.

Lemma distanceTo_sqrt (p v : Vector3) : distanceTo p v = sqrt (sqDist p v).
Proof. reflexivity. Qed.

Lemma sqDist_zero (p v : Vector3) : sqDist p v = 0 -> p = v.
Proof.
  destruct p as [a b c], v as [a' b' c']. unfold sqDist. cbn. intros H.
  pose proof (Rle_0_sqr (a - a')) as Ha.
  pose proof (Rle_0_sqr (b - b')) as Hb.
  pose proof (Rle_0_sqr (c - c')) as Hc.
  unfold Rsqr in Ha, Hb, Hc.
  assert (Za : (a - a') * (a - a') = 0) by lra.
  assert (Zb : (b - b') * (b - b') = 0) by lra.
  assert (Zc : (c - c') * (c - c') = 0) by lra.
  apply Rsqr_0_uniq in Za, Zb, Zc.
  f_equal; lra.
Qed.

Lemma distanceTo_pos (p v : Vector3) : p <> v -> 0 < distanceTo p v.
Proof.
  intros H. rewrite distanceTo_sqrt. apply sqrt_lt_R0.
  destruct (sqDist_nonneg p v) as [Hlt|Heq]; [exact Hlt|].
  exfalso. apply H. apply sqDist_zero. auto.
Qed.

Lemma distanceTo_self (v : Vector3) : distanceTo v v = 0.
Proof.
  rewrite distanceTo_sqrt. unfold sqDist.
  replace (_ + _ + _) with 0 by ring. apply sqrt_0.
Qed.

(** Outside SCATTER mode the frame moves the item by the blend alone. *)
Lemma framePosition_blend (Math_sin Math_cos : R -> R) item mode focus
      randomOffset target f p :
  mode <> SCATTER ->
  Double.targetPos item mode focus = Some target ->
  Double.framePosition Math_sin Math_cos item mode focus randomOffset f p
  = Double.blend target (Double.delta f) p.
Proof.
  intros M T. unfold Double.framePosition. rewrite T. cbn [Js.bind].
  destruct (Double.blend target (Double.delta f) p); cbn [Js.bind];
    destruct mode; congruence.
Qed.

Lemma origin_neq_unitX : Samples.origin <> Samples.unitX.
Proof. intros E. apply (f_equal vx) in E. cbn in E. lra. Qed.

Lemma unitX_neq_after : Samples.unitX <> Double.afterUnitX.
Proof.
  intros E. apply (f_equal vx) in E. cbn in E. unfold Double.afterOne in E.
  lra.
Qed.

Lemma distance_origin_unitX : distanceTo Samples.origin Samples.unitX = 1.
Proof.
  rewrite distanceTo_sqrt. unfold sqDist. cbn.
  replace (_ + _ + _) with 1 by ring. apply sqrt_1.
Qed.

Lemma norm_unitX : Double.norm Samples.unitX = 1.
Proof.
  unfold Double.norm, Double.length3. cbn.
  replace (_ + _ + _) with 1 by ring. apply sqrt_1.
Qed.

(** A coordinate that is zero and stays zero. *)
Lemma axis_zero (alpha : R) : Double.axis 0 0 alpha = Some 0.
Proof.
  unfold Double.axis, Binary64.sub, Binary64.mul, Binary64.add.
  Binary64.rounds_to Binary64Facts.round_dyadic 0%Z 0%Z.
  Binary64.rounds_to Binary64Facts.round_dyadic 0%Z 0%Z.
  Binary64.rounds_to Binary64Facts.round_dyadic 0%Z 0%Z.
  f_equal. lra.
Qed.

(** A frame of one second: the blend factor is 3 and the item ends up
    twice as far beyond the target as it was before it. *)
Lemma blend_one_second :
  Double.blend Samples.unitX 1 Samples.origin = Some (mkVector3 3 0 0).
Proof.
  unfold Double.blend, Double.lerp, Binary64.mul.
  cbn [vx vy vz Samples.origin Samples.unitX].
  Binary64.rounds_to Binary64Facts.round_dyadic 3%Z 0%Z.
  rewrite axis_zero. cbn [Js.bind].
  unfold Double.axis, Binary64.sub, Binary64.mul, Binary64.add.
  Binary64.rounds_to Binary64Facts.round_dyadic 1%Z 0%Z.
  Binary64.rounds_to Binary64Facts.round_dyadic 3%Z 0%Z.
  Binary64.rounds_to Binary64Facts.round_dyadic 3%Z 0%Z.
  f_equal. f_equal; lra.
Qed.

(** A frame of a sixteenth of a second, one unit in the last place short
    of the target: the step asked for is 3/16 of that unit, and the sum
    rounds back to where the item was. *)
Lemma blend_stalls :
  Double.blend Double.afterUnitX (1 / 16) Samples.unitX = Some Samples.unitX.
Proof.
  unfold Double.blend, Double.lerp, Binary64.mul.
  cbn [vx vy vz Double.afterUnitX Samples.unitX]. unfold Double.afterOne.
  Binary64.rounds_to Binary64Facts.round_dyadic 3%Z (-4)%Z.
  rewrite axis_zero. cbn [Js.bind].
  unfold Double.axis, Binary64.sub, Binary64.mul, Binary64.add.
  Binary64.rounds_to Binary64Facts.round_dyadic 1%Z (-52)%Z.
  Binary64.rounds_to Binary64Facts.round_dyadic 3%Z (-56)%Z.
  rewrite (Binary64Facts.round_at _ 1 4503599627370496).
  - cbn [Js.bind]. unfold Samples.unitX. f_equal. f_equal. simpl. lra.
  - rewrite Rabs_pos_eq by lra. simpl. lra.
  - unfold Binary64.emin, Binary64.prec. lia.
  - lia.
  - change (Binary64.prec - 1)%Z with 52%Z. simpl powerRZ.
    apply Rabs_def1; lra.
Qed.

(** A frame of a quarter of a second from the same place: the step asked
    for is 3/4 of the unit, and the sum rounds onto the target. *)
Lemma blend_lands :
  Double.blend Double.afterUnitX (1 / 4) Samples.unitX
  = Some Double.afterUnitX.
Proof.
  unfold Double.blend, Double.lerp, Binary64.mul.
  cbn [vx vy vz Double.afterUnitX Samples.unitX]. unfold Double.afterOne.
  Binary64.rounds_to Binary64Facts.round_dyadic 3%Z (-2)%Z.
  rewrite axis_zero. cbn [Js.bind].
  unfold Double.axis, Binary64.sub, Binary64.mul, Binary64.add.
  Binary64.rounds_to Binary64Facts.round_dyadic 1%Z (-52)%Z.
  Binary64.rounds_to Binary64Facts.round_dyadic 3%Z (-54)%Z.
  rewrite (Binary64Facts.round_at _ 1 4503599627370497).
  - cbn [Js.bind]. unfold Double.afterUnitX, Double.afterOne.
    f_equal. f_equal. simpl. lra.
  - rewrite Rabs_pos_eq by lra. simpl. lra.
  - unfold Binary64.emin, Binary64.prec. lia.
  - lia.
  - change (Binary64.prec - 1)%Z with 52%Z. simpl powerRZ.
    apply Rabs_def1; lra.
Qed.

(** A frame of SCATTER mode a quarter of a second long, for an item a
    1024th above its target: the blend brings it to a 4096th, and the
    drift then carries it nearly 0.02 to the side. *)
Lemma scatter_frame_drifts :
  exists p',
    Double.framePosition sin cos Double.unitItem SCATTER None 0
                         (Double.mkFrame 0 (1 / 4)) (mkVector3 0 0 (/ 1024))
    = Some p'
    /\ distanceTo (mkVector3 0 0 (/ 1024)) Samples.origin
       < distanceTo p' Samples.origin.
Proof.
  unfold Double.framePosition, Double.blend, Double.lerp, Binary64.mul.
  cbn [Double.targetPos Double.unitItem MagicScene.scatterPos Js.bind
       Double.delta Double.elapsedTime vx vy vz Samples.origin].
  Binary64.rounds_to Binary64Facts.round_dyadic 3%Z (-2)%Z.
  rewrite axis_zero. cbn [Js.bind].
  unfold Double.axis, Binary64.sub, Binary64.mul, Binary64.add.
  Binary64.rounds_to Binary64Facts.round_dyadic (-1)%Z (-10)%Z.
  Binary64.rounds_to Binary64Facts.round_dyadic (-3)%Z (-12)%Z.
  Binary64.rounds_to Binary64Facts.round_dyadic 1%Z (-12)%Z.
  cbn [vx vy vz]. unfold Binary64.literal.
  pose proof DoubleFacts.limit_big as HL.
  pose proof Binary64Facts.eta_bounds as [He Heu].
  destruct (Binary64Facts.round_ok 0.02) as (k & -> & Ek).
  { rewrite Rabs_pos_eq; lra. }
  cbn [Js.bind]. rewrite (Rabs_pos_eq 0.02) in Ek by lra.
  apply DoubleFacts.Rabs_le_inv in Ek.
  assert (Bk : 199 / 10000 <= k <= 201 / 10000) by (split; Binary64.lra_u).
  Binary64.rounds_to Binary64Facts.round_dyadic 0%Z 0%Z.
  replace (0 + 0) with 0 by lra. rewrite sin_0.
  Binary64.rounds_to Binary64Facts.round_dyadic 0%Z 0%Z.
  Binary64.rounds_to Binary64Facts.round_dyadic 0%Z 0%Z.
  Binary64.rounds_to Binary64Facts.round_dyadic 0%Z 0%Z.
  Binary64.rounds_to Binary64Facts.round_dyadic 0%Z 0%Z.
  replace (0 * 0.5 + 0) with 0 by lra. rewrite cos_0.
  destruct (Binary64Facts.round_ok (1 * k)) as (dx & -> & Edx).
  { rewrite Rabs_pos_eq; lra. }
  cbn [Js.bind]. rewrite (Rabs_pos_eq (1 * k)) in Edx by lra.
  apply DoubleFacts.Rabs_le_inv in Edx.
  assert (Bdx : 198 / 10000 <= dx <= 202 / 10000) by (split; Binary64.lra_u).
  destruct (Binary64Facts.round_ok (0 + dx)) as (x & -> & Ex).
  { rewrite Rabs_pos_eq; lra. }
  cbn [Js.bind]. rewrite (Rabs_pos_eq (0 + dx)) in Ex by lra.
  apply DoubleFacts.Rabs_le_inv in Ex.
  assert (Bx : 197 / 10000 <= x) by Binary64.lra_u.
  eexists. split; [reflexivity|].
  rewrite !DoubleFacts.distanceTo_length3. cbn [vx vy vz Samples.origin].
  match goal with
  | |- _ < Double.length3 ?a ?b ?c =>
      destruct (DoubleFacts.length3_coord a b c) as (C & _ & _)
  end.
  rewrite Rabs_pos_eq in C by lra.
  unfold Double.length3 at 1.
  replace ((0 - 0) * (0 - 0) + (0 - 0) * (0 - 0) + (/ 1024 - 0) * (/ 1024 - 0))
    with (/ 1024 * / 1024) by lra.
  rewrite sqrt_square by lra. lra.
Qed.




End BlendSpec.

(** ** The layout generator *)

Module LayoutSpec.

Import MagicScene.

Section WithOracle.

Variable oracle : nat -> R.

Lemma bind_run {A B} (m : Gen A) (f : A -> Gen B) (k : nat) :
  bind m f k = f (fst (m k)) (snd (m k)).
Proof. unfold bind. now destruct (m k). Qed.

Lemma pushLoop_S {A} (body : nat -> Gen A) (start count k : nat) :
  pushLoop body start (S count) k
  = (fst (body start k)
       :: fst (pushLoop body (S start) count (snd (body start k))),
     snd (pushLoop body (S start) count (snd (body start k)))).
Proof.
  change (pushLoop body start (S count) k)
    with (bind (body start)
               (fun it => bind (pushLoop body (S start) count)
                               (fun rest => ret (it :: rest))) k).
  rewrite !bind_run. reflexivity.
Qed.

Lemma pushLoop_length {A} (body : nat -> Gen A) (count : nat) :
  forall start k,
    List.length (fst (pushLoop body start count k)) = count.
Proof.
  induction count as [|count IH]; intros start k; [reflexivity|].
  rewrite pushLoop_S. cbn [fst List.length]. now rewrite IH.
Qed.

(** A loop whose body takes [c] draws takes [count * c] draws. *)
Lemma pushLoop_snd {A} (body : nat -> Gen A) (c count : nat) :
  (forall i k, snd (body i k) = (c + k)%nat) ->
  forall start k,
    snd (pushLoop body start count k) = (count * c + k)%nat.
Proof.
  intros Hc. induction count as [|count IH]; intros start k;
    [reflexivity|].
  rewrite pushLoop_S. cbn [snd]. rewrite IH, Hc. lia.
Qed.

(** The [j]-th item pushed is the body at [start + j], reading the
    oracle [j * c] draws further on. *)
Lemma pushLoop_nth {A} (body : nat -> Gen A) (c count : nat) :
  (forall i k, snd (body i k) = (c + k)%nat) ->
  forall start k j, (j < count)%nat ->
    nth_error (fst (pushLoop body start count k)) j
    = Some (fst (body (start + j)%nat (j * c + k)%nat)).
Proof.
  intros Hc. induction count as [|count IH]; intros start k j Hj; [lia|].
  rewrite pushLoop_S. cbn [fst]. destruct j as [|j]; cbn [nth_error].
  - now rewrite Nat.add_0_r.
  - rewrite IH by lia. rewrite Hc.
    replace (S start + j)%nat with (start + S j)%nat by lia.
    replace (j * c + (c + k))%nat with (S j * c + k)%nat by lia.
    reflexivity.
Qed.

Lemma pushLoop_Forall {A} (P : A -> Prop) (body : nat -> Gen A)
      (count : nat) :
  (forall i k, P (fst (body i k))) ->
  forall start k, Forall P (fst (pushLoop body start count k)).
Proof.
  intros HP. induction count as [|count IH]; intros start k.
  - constructor.
  - rewrite pushLoop_S. cbn [fst]. constructor; auto.
Qed.

Lemma ornament_draws (i k : nat) :
  snd (ornament oracle i k) = (9 + k)%nat.
Proof. reflexivity. Qed.

Lemma ornament_treePos (i k : nat) :
  treePos (fst (ornament oracle i k))
  = let h := INR i / 300 * 16 - 8 in
    let theta := INR i * (PI * (3 - sqrt 5)) in
    let r := (1 - INR i / 300) * 6
             + (1 - Js.rem (INR i / 300 * 5) 1) * 1.5 in
    mkVector3 (r * cos theta) h (r * sin theta).
Proof.
  cbv zeta. unfold ornament, scatter, randomVector.
  rewrite !bind_run. unfold ret. cbn [fst snd treePos].
  unfold ORNAMENT_COUNT, TREE_HEIGHT, TREE_RADIUS_BASE, layers,
    goldenAngle.
  rewrite (INR_IZR_INZ 300). change (Z.of_nat 300) with 300%Z.
  f_equal; try (f_equal; lra); lra.
Qed.

Lemma ornament_scatterPos (i k : nat) :
  scatterPos (fst (ornament oracle i k))
  = mkVector3 ((oracle k - 0.5) * (45 * 2))
              ((oracle (S k) - 0.5) * (25 * 2))
              ((oracle (S (S k)) - 0.5) * (20 * 2)).
Proof. reflexivity. Qed.

Lemma foil_draws (i k : nat) : snd (foil oracle i k) = (10 + k)%nat.
Proof. reflexivity. Qed.

Lemma ribbonWhite_draws (i k : nat) :
  snd (ribbonWhite oracle i k) = (3 + k)%nat.
Proof. reflexivity. Qed.

Lemma ribbonBlue_draws (i k : nat) :
  snd (ribbonBlue oracle i k) = (3 + k)%nat.
Proof. reflexivity. Qed.

Lemma light_draws (i k : nat) : snd (light oracle i k) = (3 + k)%nat.
Proof. reflexivity. Qed.

(** [items] starts with the 300 ornaments. *)
Lemma items_ornaments (k0 : nat) :
  exists rest,
    fst (items oracle k0)
    = fst (pushLoop (ornament oracle) 0 ORNAMENT_COUNT k0) ++ rest.
Proof.
  unfold items. rewrite !bind_run. unfold ret. cbn [fst].
  eexists. reflexivity.
Qed.

Lemma ornament_plain (i k : nat) : plain (fst (ornament oracle i k)).
Proof.
  split.
  - unfold ornament, scatter, randomVector.
    rewrite !bind_run. unfold ret. cbn [fst snd type].
    destruct (Js.gtb _ _); discriminate.
  - intros z. discriminate.
Qed.

Lemma foil_plain (i k : nat) : plain (fst (foil oracle i k)).
Proof. split; [|intros z]; discriminate. Qed.

Lemma ribbonWhite_plain (i k : nat) :
  plain (fst (ribbonWhite oracle i k)).
Proof. split; [|intros z]; discriminate. Qed.

Lemma ribbonBlue_plain (i k : nat) : plain (fst (ribbonBlue oracle i k)).
Proof. split; [|intros z]; discriminate. Qed.

Lemma light_plain (i k : nat) : plain (fst (light oracle i k)).
Proof. split; [|intros z]; discriminate. Qed.

Lemma Forall_app_intro {A} (P : A -> Prop) (l1 l2 : list A) :
  Forall P l1 -> Forall P l2 -> Forall P (l1 ++ l2).
Proof. intros H1 H2. apply Forall_app. now split. Qed.

(** Nothing in [items] is a photo or carries a photo id. *)
Lemma items_plain (k0 : nat) : Forall plain (fst (items oracle k0)).
Proof.
  unfold items. rewrite !bind_run. unfold ret. cbn [fst].
  apply Forall_app_intro; [apply pushLoop_Forall, ornament_plain|].
  apply Forall_app_intro; [apply pushLoop_Forall, foil_plain|].
  apply Forall_app_intro; [apply pushLoop_Forall, ribbonWhite_plain|].
  apply Forall_app_intro; [apply pushLoop_Forall, ribbonBlue_plain|].
  apply pushLoop_Forall, light_plain.
Qed.

Lemma mapPhotos_cons (n : nat) (url : string) (rest : list string)
      (i k : nat) :
  mapPhotos oracle n (url :: rest) i k
  = (fst (photoItem oracle n url i k)
       :: fst (mapPhotos oracle n rest (S i) (S k)),
     snd (mapPhotos oracle n rest (S i) (S k))).
Proof.
  change (mapPhotos oracle n (url :: rest) i k)
    with (bind (photoItem oracle n url i)
               (fun it => bind (mapPhotos oracle n rest (S i))
                               (fun its => ret (it :: its))) k).
  rewrite !bind_run. reflexivity.
Qed.

Lemma mapPhotos_length (n : nat) (rest : list string) :
  forall i k,
    List.length (fst (mapPhotos oracle n rest i k)) = List.length rest.
Proof.
  induction rest as [|url rest IH]; intros i k; [reflexivity|].
  rewrite mapPhotos_cons. cbn [fst List.length]. now rewrite IH.
Qed.

(** The item at position [j] is built from the photo at [j], with the
    index counted from the start of the collection. *)
Lemma mapPhotos_nth (n : nat) (rest : list string) :
  forall i k j url,
    nth_error rest j = Some url ->
    nth_error (fst (mapPhotos oracle n rest i k)) j
    = Some (fst (photoItem oracle n url (i + j)%nat (j + k)%nat)).
Proof.
  induction rest as [|u rest IH]; intros i k j url Hj.
  - now destruct j.
  - rewrite mapPhotos_cons. cbn [fst].
    destruct j as [|j]; cbn [nth_error] in *.
    + injection Hj as ->. now rewrite Nat.add_0_r.
    + rewrite (IH _ _ _ _ Hj).
      replace (S i + j)%nat with (i + S j)%nat by lia.
      replace (j + S k)%nat with (S j + k)%nat by lia.
      reflexivity.
Qed.

Lemma mapPhotos_In (n : nat) (rest : list string) :
  forall i k it,
    In it (fst (mapPhotos oracle n rest i k)) ->
    type it = photo
    /\ exists j, (j < List.length rest)%nat
                 /\ id it = App.photoId (Z.of_nat (i + j)%nat).
Proof.
  induction rest as [|u rest IH]; intros i k it Hin.
  - destruct Hin.
  - rewrite mapPhotos_cons in Hin. cbn [fst] in Hin.
    destruct Hin as [<-|Hin].
    + split; [reflexivity|]. exists 0%nat. split; [simpl; lia|].
      now rewrite Nat.add_0_r.
    + destruct (IH _ _ _ Hin) as (T & j & Hj & Hid).
      split; [exact T|]. exists (S j). split; [simpl; lia|].
      rewrite Hid. do 2 f_equal. lia.
Qed.

End WithOracle.

Lemma toString_inj (a b : Z) : Js.toString a = Js.toString b -> a = b.
Proof.
  unfold Js.toString. intros H.
  apply (f_equal NilEmpty.int_of_string) in H.
  rewrite !NilEmpty.isi in H. injection H as H.
  apply (f_equal Z.of_int) in H. now rewrite !DecimalZ.of_to in H.
Qed.

Lemma photoId_inj (a b : Z) : App.photoId a = App.photoId b -> a = b.
Proof.
  unfold App.photoId. cbn [String.append]. intros H.
  injection H as H. now apply toString_inj.
Qed.

Lemma nonPhotos_plain (l : list SceneItem) :
  Forall plain l -> nonPhotos l = l.
Proof.
  unfold nonPhotos. induction 1 as [|it l [Ht _] _ IH]; [reflexivity|].
  cbn [filter]. rewrite IH. destruct (type it); congruence.
Qed.

Lemma nonPhotos_photos (l : list SceneItem) :
  (forall it, In it l -> type it = photo) -> nonPhotos l = [].
Proof.
  unfold nonPhotos. induction l as [|it l IH]; intros H; [reflexivity|].
  cbn [filter]. rewrite (H it (or_introl eq_refl)).
  apply IH. intros; apply H; now right.
Qed.

(** For a non-negative number the remainder by one is the fractional
    part. *)
Lemma rem1_frac (x : R) : 0 <= x -> Js.rem x 1 = frac_part x.
Proof.
  intros H. unfold Js.rem, Js.trunc, Js.floor, frac_part.
  rewrite Rdiv_1_r. destruct (Rlt_dec x 0); lra.
Qed.

Lemma allItems_app (oracle : nat -> R) (its : list SceneItem)
      (photos : list string) (k : nat) :
  fst (allItems oracle its photos k)
  = its ++ fst (photoItems oracle photos k).
Proof. unfold allItems. rewrite bind_run. reflexivity. Qed.

Lemma scatter_bound (a radius : R) :
  0 <= a < 1 -> 0 <= radius -> Rabs ((a - 0.5) * (radius * 2)) <= radius.
Proof. intros Ha Hr. apply Rabs_le. nra. Qed.

(** C7: for every bulk-ornament index [i] in [0, 300) the item generated
    at that index has the assembled pose given by the closed formula
    (height [(i/300) * 16 - 8], angle [i * pi * (3 - sqrt 5)], radius
    [(1 - i/300) * 6 + (1 - ((i/300) * 5 mod 1)) * 1.5]), whatever the
    random draws; two generations give the same assembled pose at the
    index; and with draws in [0, 1) the dispersed pose is bounded by 45,
    25 and 20 in absolute value. *)
Theorem ornament_layout (oracle oracle' : nat -> R) (k0 k0' i : nat) :
  (forall k, 0 <= oracle k < 1) ->
  (i < 300)%nat ->
  exists it it',
    nth_error (fst (items oracle k0)) i = Some it
    /\ nth_error (fst (items oracle' k0')) i = Some it'
    /\ id it = ("ornament-" ++ Js.toString (Z.of_nat i))%string
    /\ (let h := INR i / 300 * 16 - 8 in
        let theta := INR i * (PI * (3 - sqrt 5)) in
        let r := (1 - INR i / 300) * 6
                 + (1 - frac_part (INR i / 300 * 5)) * 1.5 in
        treePos it = mkVector3 (r * cos theta) h (r * sin theta))
    /\ treePos it' = treePos it
    /\ Rabs (vx (scatterPos it)) <= 45
    /\ Rabs (vy (scatterPos it)) <= 25
    /\ Rabs (vz (scatterPos it)) <= 20.
Proof.
  intros Hr Hi.
  assert (N : forall o k,
             nth_error (fst (items o k)) i
             = Some (fst (ornament o i (i * 9 + k)%nat))).
  { intros o k. destruct (items_ornaments o k) as [rest ->].
    rewrite nth_error_app1 by (rewrite pushLoop_length; exact Hi).
    apply (pushLoop_nth (ornament o) 9 ORNAMENT_COUNT (ornament_draws o)
                        0 k i Hi). }
  exists (fst (ornament oracle i (i * 9 + k0)%nat)),
         (fst (ornament oracle' i (i * 9 + k0')%nat)).
  split; [apply N|]. split; [apply N|]. split; [reflexivity|].
  rewrite !ornament_treePos, ornament_scatterPos. cbv zeta. cbn [vx vy vz].
  rewrite rem1_frac.
  - repeat split; trivial; apply scatter_bound; trivial; lra.
  - pose proof (pos_INR i). lra.
Qed.

Lemma ornament_layout_witness :
  exists it,
    nth_error (fst (items Samples.half 0%nat)) 7 = Some it
    /\ Rabs (vx (scatterPos it)) <= 45.
Proof.
  destruct (ornament_layout Samples.half Samples.half 0%nat 0%nat 7%nat)
    as (it & _ & H & _ & _ & _ & _ & B & _).
  - intros k. unfold Samples.half. lra.
  - lia.
  - exists it. split; [exact H | exact B].
Defined.

Lemma allItems_nonPhotos (oracle : nat -> R) (its : list SceneItem)
      (photos : list string) (k : nat) :
  Forall plain its ->
  nonPhotos (fst (allItems oracle its photos k)) = its.
Proof.
  intros P. rewrite allItems_app. unfold nonPhotos. rewrite filter_app.
  fold (nonPhotos its). fold (nonPhotos (fst (photoItems oracle photos k))).
  rewrite (nonPhotos_plain _ P), nonPhotos_photos; [apply app_nil_r|].
  intros it Hin. apply mapPhotos_In in Hin. apply Hin.
Qed.

Lemma allItems_firstn (oracle : nat -> R) (its : list SceneItem)
      (photos : list string) (k : nat) :
  firstn (List.length its) (fst (allItems oracle its photos k)) = its.
Proof.
  rewrite allItems_app, firstn_app, Nat.sub_diag, firstn_all, firstn_O.
  apply app_nil_r.
Qed.

Lemma allItems_photo (oracle : nat -> R) (its : list SceneItem)
      (photos : list string) (k i : nat) (url : string) :
  nth_error photos i = Some url ->
  nth_error (fst (allItems oracle its photos k)) (List.length its + i)
  = Some (fst (photoItem oracle (List.length photos) url i (i + k)%nat)).
Proof.
  intros Hi. rewrite allItems_app, nth_error_app2 by lia.
  replace (List.length its + i - List.length its)%nat with i by lia.
  apply (mapPhotos_nth oracle (List.length photos) photos 0 k i url Hi).
Qed.

Lemma allItems_resolves (oracle : nat -> R) (its : list SceneItem)
      (photos : list string) (k n : nat) :
  Forall plain its ->
  resolves (App.photoId (Z.of_nat n)) (fst (allItems oracle its photos k))
  <-> (n < List.length photos)%nat.
Proof.
  intros P. rewrite allItems_app. split.
  - intros (it & Hin & Hid). apply in_app_or in Hin.
    destruct Hin as [Hin|Hin].
    + rewrite Forall_forall in P. destruct (P it Hin) as [_ Hne].
      now destruct (Hne (Z.of_nat n)).
    + apply mapPhotos_In in Hin. destruct Hin as (_ & j & Hj & Hid').
      rewrite Hid' in Hid. apply photoId_inj in Hid.
      apply Nat2Z.inj in Hid. subst n. exact Hj.
  - intros Hn.
    destruct (nth_error photos n) as [url|] eqn:E;
      [|apply nth_error_None in E; lia].
    exists (fst (photoItem oracle (List.length photos) url n (n + k)%nat)).
    split; [|reflexivity].
    apply in_or_app. right. apply nth_error_In with n.
    apply (mapPhotos_nth oracle (List.length photos) photos 0 k n url E).
Qed.

(** C8: whatever the photo collection was and whatever it becomes, the
    regenerated list holds the memoised non-photo items unchanged (same
    records, hence same id, poses, colour and scale); the item built from
    the photo at index [i] has id [photo-i]; and a held focus id [photo-k]
    names an item of the new list exactly when [k] is less than the new
    photo count. *)
Theorem photo_regeneration (oracle : nat -> R) (k0 k k' : nat)
        (photos photos' : list string) :
  let its := fst (items oracle k0) in
  let before := fst (allItems oracle its photos k) in
  let after := fst (allItems oracle its photos' k') in
  nonPhotos before = its
  /\ nonPhotos after = its
  /\ firstn (List.length its) after = its
  /\ (forall i url,
         nth_error photos' i = Some url ->
         exists it,
           nth_error after (List.length its + i)%nat = Some it
           /\ id it = ("photo-" ++ Js.toString (Z.of_nat i))%string
           /\ type it = photo
           /\ textureUrl it = Some url)
  /\ (forall n : nat,
         resolves ("photo-" ++ Js.toString (Z.of_nat n))%string after
         <-> (n < List.length photos')%nat).
Proof.
  intros its before after.
  assert (P : Forall plain its) by apply items_plain.
  split; [apply allItems_nonPhotos, P|].
  split; [apply allItems_nonPhotos, P|].
  split; [apply allItems_firstn|]. split.
  - intros i url Hi. eexists. split; [apply allItems_photo, Hi|].
    split; [reflexivity|]. split; reflexivity.
  - intros n. apply allItems_resolves, P.
Qed.

Lemma photo_regeneration_witness :
  resolves "photo-1"
           (fst (allItems Samples.half (fst (items Samples.half 0%nat))
                          ["a"; "b"] 3700%nat)).
Proof.
  destruct (photo_regeneration Samples.half 0%nat 3700%nat 3700%nat
                               ["a"; "b"; "c"] ["a"; "b"])
    as (_ & _ & _ & _ & H).
  apply (H 1%nat). simpl. lia.
Defined.

End LayoutSpec.

(** ** Photo ids written and read back *)

Module IdSpec.

Import Reading.

Lemma parseDigits_acc (d : uint) (a : positive) :
  Js.parseDigits 10 (NilEmpty.string_of_uint d) (Some (Z.pos a))
  = Some (Z.pos (Pos.of_uint_acc d a)).
Proof.
  revert a. induction d; intros a; [reflexivity|..];
    read_digit; rewrite <- IHd; do 2 f_equal; lia.
Qed.

Lemma parseDigits_zero (d : uint) :
  Js.parseDigits 10 (NilEmpty.string_of_uint d) (Some 0%Z)
  = Some (Z.of_N (Pos.of_uint d)).
Proof.
  induction d; [reflexivity|..]; read_digit;
    [exact IHd|..]; apply (parseDigits_acc d).
Qed.

(** Digits are read back as the number they were printed from. *)
Lemma parseDigits_uint (d : uint) :
  d <> Nil ->
  Js.parseDigits 10 (NilEmpty.string_of_uint d) None
  = Some (Z.of_N (Pos.of_uint d)).
Proof.
  destruct d; intros H; [congruence|..]; read_digit;
    [apply parseDigits_zero|..]; apply (parseDigits_acc d).
Qed.

Lemma to_uint_not_Nil (p : positive) : Pos.to_uint p <> Nil.
Proof.
  intros E. pose proof (DecimalPos.Unsigned.of_to p) as H.
  rewrite E in H. discriminate.
Qed.

(** Printed digits start with a digit: no white space, no sign, and no
    [0x] prefix is read from them. *)
Lemma parseInt_uint (d : uint) :
  d <> Nil ->
  Js.parseInt (NilEmpty.string_of_uint d) = Some (Z.of_N (Pos.of_uint d)).
Proof.
  intros H. unfold Js.parseInt.
  pose proof (parseDigits_uint d H) as P.
  destruct d as [|d|d|d|d|d|d|d|d|d|d]; [congruence|..];
    cbn [NilEmpty.string_of_uint Js.skipWhiteSpace] in *;
    match goal with
    | |- context [Js.isWhiteSpace ?c] => change (Js.isWhiteSpace c) with false
    end;
    cbv beta iota zeta;
    try (rewrite P; f_equal; lia).
  destruct d; cbn [NilEmpty.string_of_uint] in *; cbv beta iota zeta;
    rewrite P; f_equal; lia.
Qed.

(** [parseInt] reads back every integer that a template literal printed. *)
Lemma parseInt_toString (z : Z) : Js.parseInt (Js.toString z) = Some z.
Proof.
  unfold Js.toString. destruct z as [|p|p]; cbn [Z.to_int NilEmpty.string_of_int].
  - reflexivity.
  - rewrite parseInt_uint by apply to_uint_not_Nil.
    now rewrite DecimalPos.Unsigned.of_to.
  - pose proof (parseDigits_uint _ (to_uint_not_Nil p)) as P.
    rewrite DecimalPos.Unsigned.of_to in P.
    unfold Js.parseInt. cbn [Js.skipWhiteSpace].
    change (Js.isWhiteSpace "-") with false. cbv beta iota zeta.
    destruct (Pos.to_uint p) as [|d|d|d|d|d|d|d|d|d|d] eqn:E;
      [now destruct (to_uint_not_Nil p)|..];
      cbn [NilEmpty.string_of_uint] in *; cbv beta iota zeta;
      try (rewrite P; f_equal; lia).
    destruct d; cbn [NilEmpty.string_of_uint] in *; cbv beta iota zeta;
      rewrite P; f_equal; lia.
Qed.

(** Printed integers never hold a dash after their first character. *)
Lemma takeUntil_uint (d : uint) :
  Js.takeUntil "-" (NilEmpty.string_of_uint d) = NilEmpty.string_of_uint d.
Proof.
  induction d; cbn [NilEmpty.string_of_uint Js.takeUntil]; [reflexivity|..];
    match goal with
    | |- context [Ascii.eqb ?c "-"] => change (Ascii.eqb c "-") with false
    end; cbv iota; now rewrite IHd.
Qed.

Lemma toString_nat (n : nat) :
  exists d, d <> Nil /\ Js.toString (Z.of_nat n) = NilEmpty.string_of_uint d.
Proof.
  unfold Js.toString. destruct (Z.of_nat n) as [|p|p] eqn:E; [| |lia].
  - exists zero. split; [discriminate|reflexivity].
  - exists (Pos.to_uint p). split; [apply to_uint_not_Nil|reflexivity].
Qed.

(** The id [photo-i] is taken apart the way [handleDeleteClick] does it. *)
Lemma photoId_split (i : nat) :
  prefix "photo-" (App.photoId (Z.of_nat i)) = true
  /\ Js.splitAt1 "-" (App.photoId (Z.of_nat i))
     = Some (Js.toString (Z.of_nat i)).
Proof.
  unfold App.photoId. destruct (toString_nat i) as (d & _ & ->).
  split.
  - cbn [String.append prefix]. 
    repeat (rewrite Ascii.eqb_refl). now destruct (NilEmpty.string_of_uint d).
  - unfold Js.splitAt1. cbn [String.append Js.dropThrough].
    change (Ascii.eqb "p" "-") with false.
    change (Ascii.eqb "h" "-") with false.
    change (Ascii.eqb "o" "-") with false.
    change (Ascii.eqb "t" "-") with false.
    change (Ascii.eqb "-" "-") with true.
    cbv iota. now rewrite takeUntil_uint.
Qed.

Lemma photoId_read_back (i : nat) :
  Js.truthy (Some (App.photoId (Z.of_nat i))) = true
  /\ prefix "photo-" (App.photoId (Z.of_nat i)) = true
  /\ Js.bind (Js.splitAt1 "-" (App.photoId (Z.of_nat i))) Js.parseInt
     = Some (Z.of_nat i).
Proof.
  destruct (photoId_split i) as [P S].
  split; [reflexivity|]. split; [exact P|].
  rewrite S. cbn [Js.bind]. apply parseInt_toString.
Qed.

(** X1: the id [photo-i] that the gesture handler and the layout generator
    write for index [i] is read back as [i] by the steps of
    [handleDeleteClick]: it starts with [photo-], its second dash-separated
    field is the decimal text of [i], and [parseInt] of that text is [i]. *)
Theorem photoId_decodes (i : nat) :
  Js.truthy (Some (App.photoId (Z.of_nat i))) = true
  /\ prefix "photo-" (App.photoId (Z.of_nat i)) = true
  /\ Js.bind (Js.splitAt1 "-" (App.photoId (Z.of_nat i))) Js.parseInt
     = Some (Z.of_nat i).
Proof. apply photoId_read_back. Qed.

End IdSpec.

(** ** More of the state machine: delete, upload, focus *)

Module AppMoreSpec.

Import App AppRuns.

(** Removing one element by index. *)
Lemma splice1_nat {A} (l : list A) (i : nat) :
  Js.splice1 l (Z.of_nat i) = firstn i l ++ skipn (S i) l.
Proof.
  unfold Js.splice1.
  assert (E : (Z.of_nat i <? 0)%Z = false) by (apply Z.ltb_ge; lia).
  rewrite E.
  destruct (Nat.lt_ge_cases i (List.length l)) as [Hlt|Hge].
  - rewrite Z.min_l by lia. now rewrite Nat2Z.id.
  - rewrite Z.min_r by lia. rewrite Nat2Z.id.
    rewrite !firstn_all2, !skipn_all2 by lia. reflexivity.
Qed.

Lemma removed_length {A} (l : list A) (a : nat) :
  (List.length (firstn a l ++ skipn (S a) l) <= List.length l)%nat.
Proof. rewrite length_app, length_firstn, length_skipn. lia. Qed.

Lemma splice1_length {A} (l : list A) (z : Z) :
  (List.length (Js.splice1 l z) <= List.length l)%nat.
Proof. unfold Js.splice1. apply removed_length. Qed.

Lemma removed_nth {A} (l : list A) (i j : nat) :
  nth_error (firstn i l ++ skipn (S i) l) j
  = if (j <? i)%nat then nth_error l j else nth_error l (S j).
Proof.
  destruct (Nat.lt_ge_cases i (List.length l)) as [Hlt|Hge].
  - destruct (j <? i)%nat eqn:E.
    + apply Nat.ltb_lt in E.
      rewrite nth_error_app1 by (rewrite length_firstn; lia).
      rewrite nth_error_firstn.
      apply Nat.ltb_lt in E. now rewrite E.
    + apply Nat.ltb_ge in E.
      rewrite nth_error_app2 by (rewrite length_firstn; lia).
      rewrite length_firstn, nth_error_skipn. f_equal. lia.
  - rewrite firstn_all2, skipn_all2, app_nil_r by lia.
    destruct (j <? i)%nat eqn:E; [reflexivity|].
    apply Nat.ltb_ge in E.
    transitivity (@None A); [|symmetry]; apply nth_error_None; lia.
Qed.

Lemma handleDeleteClick_confirmed (now : Z) (s : State) (i : nat) :
  deleteConfirm s = true ->
  focusId s = Some (photoId (Z.of_nat i)) ->
  handleDeleteClick now s
  = setGestureCooldown (now + 2000)%Z
      (setAppState SCATTER
         (setDeleteConfirm false
            (setFocusId None
               (setPhotos (firstn i (photos s) ++ skipn (S i) (photos s))
                          s)))).
Proof.
  intros C F. unfold handleDeleteClick. rewrite C, F. cbn [negb].
  destruct (IdSpec.photoId_read_back i) as (T & P & D).
  rewrite T, P, D. cbn [andb]. now rewrite splice1_nat.
Qed.

(** X2: a confirmed delete while [photo-i] is focused removes exactly the
    photo at index [i] and keeps the others in order (nothing is removed
    when [i] is past the end), returns to SCATTER with a null focus and no
    pending confirmation, and starts a cooldown of two seconds. *)
Theorem confirmed_delete (now : Z) (s : State) (i : nat) :
  deleteConfirm s = true ->
  focusId s = Some (photoId (Z.of_nat i)) ->
  let s' := handleDeleteClick now s in
  photos s' = firstn i (photos s) ++ skipn (S i) (photos s)
  /\ (forall j, nth_error (photos s') j
                = if (j <? i)%nat then nth_error (photos s) j
                  else nth_error (photos s) (S j))
  /\ ((List.length (photos s) <= i)%nat -> photos s' = photos s)
  /\ appState s' = SCATTER
  /\ focusId s' = None
  /\ deleteConfirm s' = false
  /\ gestureCooldownRef s' = (now + 2000)%Z.
Proof.
  intros C F s'. subst s'.
  rewrite (handleDeleteClick_confirmed now s i C F). state_simpl.
  split; [reflexivity|]. split; [intros j; apply removed_nth|].
  split; [|repeat split].
  intros H. rewrite firstn_all2, skipn_all2 by lia. apply app_nil_r.
Qed.

Lemma confirmed_delete_witness :
  photos (handleDeleteClick 7000 Samples.inspecting) = ["a"; "c"].
Proof.
  destruct (confirmed_delete 7000 Samples.inspecting 1) as [E _].
  - reflexivity.
  - reflexivity.
  - exact E.
Defined.

(** X3: deleting takes two clicks. The first click only arms the
    confirmation; a second click then deletes; but once the confirmation
    timer has fired, the next click only arms it again and the collection,
    the mode, the focus and the cooldown are as before. *)
Theorem delete_needs_confirmation (now1 now2 : Z) (s : State) :
  deleteConfirm s = false ->
  handleDeleteClick now1 s = setDeleteConfirm true s
  /\ handleDeleteClick now2 (deleteConfirmTimeout (handleDeleteClick now1 s))
     = setDeleteConfirm true s
  /\ (forall i : nat,
         focusId s = Some (photoId (Z.of_nat i)) ->
         photos (handleDeleteClick now2 (handleDeleteClick now1 s))
         = firstn i (photos s) ++ skipn (S i) (photos s)).
Proof.
  intros C.
  assert (A : handleDeleteClick now1 s = setDeleteConfirm true s).
  { unfold handleDeleteClick. now rewrite C. }
  split; [exact A|]. rewrite A. split.
  - unfold handleDeleteClick, deleteConfirmTimeout. state_simpl. reflexivity.
  - intros i F.
    now rewrite (handleDeleteClick_confirmed now2 (setDeleteConfirm true s) i).
Qed.

Lemma delete_needs_confirmation_witness :
  handleDeleteClick 10 Samples.scattered
  = setDeleteConfirm true Samples.scattered.
Proof.
  apply (delete_needs_confirmation 10 20 Samples.scattered). reflexivity.
Defined.

(** What an upload does to the collection, and that it does nothing else. *)
Lemma handleFileUpload_photos (files : list string) (s : State) :
  handleFileUpload files s
  = setPhotos (photos s
               ++ firstn (MAX_PHOTOS - List.length (photos s)) files) s.
Proof.
  unfold handleFileUpload.
  destruct (Z.of_nat MAX_PHOTOS - Z.of_nat (List.length (photos s)) <=? 0)%Z
    eqn:E.
  - apply Z.leb_le in E.
    replace (MAX_PHOTOS - List.length (photos s))%nat with 0%nat by lia.
    cbn [firstn]. rewrite app_nil_r. now destruct s.
  - apply Z.leb_gt in E.
    replace (Z.to_nat (Z.of_nat MAX_PHOTOS - Z.of_nat (List.length (photos s))))
      with (MAX_PHOTOS - List.length (photos s))%nat by lia.
    destruct (_ <? Z.of_nat (List.length files))%Z eqn:E2; [reflexivity|].
    apply Z.ltb_ge in E2. rewrite firstn_all2 by lia. reflexivity.
Qed.

(** X4: an upload appends the chosen files in order, as many as there are
    free slots up to 20, after the photos already held, which keep their
    indices (and so their [photo-k] ids); a full gallery is left as it is;
    mode, focus, confirmation and cooldown are untouched. *)
Theorem upload_appends_free_slots (files : list string) (s : State) :
  let s' := handleFileUpload files s in
  photos s' = photos s ++ firstn (20 - List.length (photos s)) files
  /\ (forall k url, nth_error (photos s) k = Some url ->
                    nth_error (photos s') k = Some url)
  /\ ((20 <= List.length (photos s))%nat -> s' = s)
  /\ ((List.length (photos s) <= 20)%nat ->
      List.length (photos s')
      = Nat.min 20 (List.length (photos s) + List.length files))
  /\ appState s' = appState s
  /\ focusId s' = focusId s
  /\ deleteConfirm s' = deleteConfirm s
  /\ gestureCooldownRef s' = gestureCooldownRef s.
Proof.
  intros s'. subst s'. rewrite handleFileUpload_photos. state_simpl.
  change MAX_PHOTOS with 20%nat.
  split; [reflexivity|]. split; [|split; [|split; [|repeat split]]].
  - intros k url H. rewrite nth_error_app1; [exact H|].
    apply nth_error_Some. congruence.
  - intros H. replace (20 - List.length (photos s))%nat with 0%nat by lia.
    cbn [firstn]. rewrite app_nil_r. now destruct s.
  - intros H. rewrite length_app, length_firstn. lia.
Qed.

Lemma upload_appends_free_slots_witness :
  List.length (photos (handleFileUpload ["d"; "e"] Samples.scattered))
  = Nat.min 20 (3 + 2).
Proof.
  destruct (upload_appends_free_slots ["d"; "e"] Samples.scattered)
    as (_ & _ & _ & L & _).
  apply L. simpl. lia.
Defined.

Lemma handleGesture_photos now random data s :
  photos (handleGesture now random data s) = photos s
  /\ gestureCooldownRef (handleGesture now random data s)
     = gestureCooldownRef s.
Proof.
  destruct s as [m g ph f w d c]. open_handleGesture.
  repeat case_if; state_simpl; split; reflexivity.
Qed.

Lemma handleDeleteClick_photos now s :
  (List.length (photos (handleDeleteClick now s))
   <= List.length (photos s))%nat.
Proof.
  unfold handleDeleteClick.
  destruct (negb (deleteConfirm s)); [state_simpl; lia|].
  destruct (focusId s) as [f|]; [|lia].
  destruct (Js.truthy (Some f) && prefix "photo-" f); [|lia].
  destruct (Js.bind (Js.splitAt1 "-" f) Js.parseInt); [|lia].
  state_simpl. apply splice1_length.
Qed.

(** X5: in every state reachable from the initial one the gallery holds at
    most 20 photos. *)
Theorem gallery_bounded (s : State) :
  reachable s -> (List.length (photos s) <= 20)%nat.
Proof.
  induction 1 as [|e s _ IH]; [simpl; lia|].
  destruct e; cbn [step].
  - now rewrite (proj1 (handleGesture_photos _ _ _ _)).
  - exact IH.
  - pose proof (handleDeleteClick_photos now s). lia.
  - exact IH.
  - exact IH.
  - rewrite handleFileUpload_photos. state_simpl.
    rewrite length_app, length_firstn. change MAX_PHOTOS with 20%nat. lia.
Qed.

Lemma gallery_bounded_witness :
  (List.length
     (photos (step (FileUpload ["a"; "b"]) initial)) <= 20)%nat.
Proof.
  apply (gallery_bounded (step (FileUpload ["a"; "b"]) initial)).
  apply reachable_step, reachable_initial.
Defined.

(** X6: whatever the event, a step that changes the focus leaves no delete
    confirmation pending: a confirmation armed for one photo is never
    carried over to another. *)
Theorem focus_change_disarms (e : Event) (s : State) :
  focusId (step e s) <> focusId s -> deleteConfirm (step e s) = false.
Proof.
  destruct e; cbn [step].
  - destruct s as [m g ph f w d c]. open_handleGesture.
    repeat case_if; state_simpl; intros H; try reflexivity;
      now destruct H.
  - reflexivity.
  - unfold handleDeleteClick.
    destruct (negb (deleteConfirm s)); [intros H; now destruct H|].
    destruct (focusId s) as [f|] eqn:F; [|intros H; now destruct H].
    destruct (Js.truthy (Some f) && prefix "photo-" f);
      [|intros H; now destruct H].
    destruct (Js.bind (Js.splitAt1 "-" f) Js.parseInt);
      [reflexivity|intros H; now destruct H].
  - reflexivity.
  - reflexivity.
  - rewrite handleFileUpload_photos. intros H. now destruct H.
Qed.

Lemma focus_change_disarms_witness :
  deleteConfirm (step (Gesture 6000 0 Samples.fist) Samples.inspecting)
  = false.
Proof.
  apply (focus_change_disarms (Gesture 6000 0 Samples.fist)
                              Samples.inspecting).
  discriminate.
Defined.

(** X7: gestures never touch the photo collection or the cooldown
    deadline; a tick that is not suppressed stores its signal and its
    pointing flag. *)
Theorem gesture_frame (now : Z) (random : R) (data : HandGestureData)
        (s : State) :
  photos (handleGesture now random data s) = photos s
  /\ gestureCooldownRef (handleGesture now random data s)
     = gestureCooldownRef s
  /\ ((gestureCooldownRef s <= now)%Z ->
      gestureData (handleGesture now random data s) = data
      /\ wasPointingRef (handleGesture now random data s) = isPointing data).
Proof.
  destruct (handleGesture_photos now random data s) as [P C].
  split; [exact P|]. split; [exact C|].
  intros H. destruct s as [m g ph f w d c]. open_handleGesture.
  rewrite (AppSpec.cooldown_over _ _ H).
  repeat case_if; state_simpl; split; reflexivity.
Qed.

Lemma gesture_frame_witness :
  gestureData (handleGesture 10 0 Samples.pinch Samples.scattered)
  = Samples.pinch.
Proof.
  destruct (gesture_frame 10 0 Samples.pinch Samples.scattered)
    as (_ & _ & G).
  apply G. simpl. lia.
Defined.

End AppMoreSpec.

(** ** Invariants of runs *)

Module RunSpec.

Import App AppRuns.

Lemma handleGesture_focused now random data s :
  (appState s = INSPECT -> focusId s <> None) ->
  appState (handleGesture now random data s) = INSPECT ->
  focusId (handleGesture now random data s) <> None.
Proof.
  destruct s as [m g ph f w d c]. open_handleGesture. intros I.
  repeat case_if; state_simpl; try discriminate; try exact I;
    intros _;
    first [ solve [destruct f as [[|a r]|]; cbn in *; congruence]
          | apply I; destruct m; cbn in *; congruence ].
Qed.

Lemma handleDeleteClick_focused now s :
  (appState s = INSPECT -> focusId s <> None) ->
  appState (handleDeleteClick now s) = INSPECT ->
  focusId (handleDeleteClick now s) <> None.
Proof.
  unfold handleDeleteClick. intros I.
  destruct (negb (deleteConfirm s)); [exact I|].
  destruct (focusId s) as [f|] eqn:F; [|rewrite F; exact I].
  destruct (Js.truthy (Some f) && prefix "photo-" f); [|rewrite F; exact I].
  destruct (Js.bind (Js.splitAt1 "-" f) Js.parseInt); [|rewrite F; exact I].
  discriminate.
Qed.

Lemma reachable_inspect_focus (s : State) :
  reachable s -> (appState s = INSPECT <-> focusId s <> None).
Proof.
  intros H. split.
  - induction H as [|e s _ IH]; [discriminate|].
    destruct e; cbn [step].
    + apply handleGesture_focused, IH.
    + discriminate.
    + apply handleDeleteClick_focused, IH.
    + exact IH.
    + discriminate.
    + rewrite AppMoreSpec.handleFileUpload_photos. exact IH.
  - induction H as [|e s _ IH]; [intros F; now destruct F|].
    apply AppSpec.step_inv. exact IH.
Qed.

(** X8: in every reachable state the mode is INSPECT exactly when the focus
    is non-null: INSPECT is never entered or kept without a focus. *)
Theorem inspect_iff_focus (s : State) :
  reachable s -> (appState s = INSPECT <-> focusId s <> None).
Proof. apply reachable_inspect_focus. Qed.

Lemma inspect_iff_focus_witness :
  focusId (step (PhotoSelect "photo-0") (step (FileUpload ["a"]) initial))
  <> None.
Proof.
  apply (inspect_iff_focus
           (step (PhotoSelect "photo-0") (step (FileUpload ["a"]) initial))).
  - apply reachable_step, reachable_step, reachable_initial.
  - reflexivity.
Defined.

Lemma runsTo_reachable (s : State) : runsTo s -> reachable s.
Proof. induction 1; constructor; assumption. Qed.

Lemma validFocus_grow (s s' : State) :
  focusId s' = focusId s ->
  (List.length (photos s) <= List.length (photos s'))%nat ->
  validFocus s -> validFocus s'.
Proof.
  intros F L V id Hid. rewrite F in Hid.
  destruct (V id Hid) as (k & Hk & E). exists k. split; [lia|exact E].
Qed.

Lemma handleGesture_valid now random data s :
  0 <= random < 1 -> validFocus s ->
  validFocus (handleGesture now random data s).
Proof.
  intros Hr V. unfold validFocus.
  rewrite (proj1 (AppMoreSpec.handleGesture_photos now random data s)).
  destruct s as [m g ph f w d c]. unfold validFocus in V. revert V.
  open_handleGesture. intros V.
  assert (Pick : (0 <? List.length ph)%nat = true ->
                 forall id, Some (photoId (randomIdx random (List.length ph)))
                            = Some id ->
                 exists k, (k < List.length ph)%nat
                           /\ id = photoId (Z.of_nat k)).
  { intros Hn id [= <-]. apply Nat.ltb_lt in Hn.
    pose proof (AppSpec.randomIdx_range random _ Hr Hn) as R.
    exists (Z.to_nat (randomIdx random (List.length ph))).
    split; [lia|]. now rewrite Z2Nat.id by lia. }
  repeat case_if; state_simpl; try exact V; try discriminate;
    repeat match goal with
           | H : (_ && _)%bool = true |- _ =>
               apply andb_true_iff in H; destruct H
           end;
    first [ now apply Pick
          | intros id [= <-]; exists 0%nat;
            split; [now apply Nat.ltb_lt | reflexivity] ].
Qed.

Lemma runsTo_validFocus (s : State) : runsTo s -> validFocus s.
Proof.
  induction 1 as [|e s _ IH A]; [discriminate|].
  destruct e; cbn [step admissible] in *.
  - now apply handleGesture_valid.
  - intros id' [= <-]. exact A.
  - unfold handleDeleteClick.
    destruct (negb (deleteConfirm s)); [exact IH|].
    destruct (focusId s) as [f|]; [|exact IH].
    destruct (Js.truthy (Some f) && prefix "photo-" f); [|exact IH].
    destruct (Js.bind (Js.splitAt1 "-" f) Js.parseInt); [|exact IH].
    intros id'. discriminate.
  - exact IH.
  - intros id'. discriminate.
  - apply (validFocus_grow s); [| |exact IH];
      rewrite AppMoreSpec.handleFileUpload_photos; state_simpl;
      [reflexivity|rewrite length_app; lia].
Qed.

(** X9: in every run in which [Math.random()] returns draws in [[0, 1)]
    and clicks arrive only for photos of the collection, a non-null focus
    always names a photo of the current collection: the state machine
    never holds a stale focus. *)
Theorem focus_never_stale (s : State) :
  runsTo s ->
  forall id, focusId s = Some id ->
  exists k, (k < List.length (photos s))%nat /\ id = photoId (Z.of_nat k).
Proof. apply runsTo_validFocus. Qed.

Lemma focus_never_stale_witness :
  exists k, (k < 1)%nat /\ "photo-0" = photoId (Z.of_nat k).
Proof.
  apply (focus_never_stale
           (step (PhotoSelect "photo-0") (step (FileUpload ["a"]) initial))).
  - apply runs_step; [apply runs_step; [apply runs_initial|exact I]|].
    exists 0%nat. split; [simpl; lia|reflexivity].
  - reflexivity.
Defined.

(** X10: in every such run the delete and close buttons are rendered
    exactly while the mode is INSPECT. *)
Theorem controls_iff_inspect (s : State) :
  runsTo s -> (controlsVisible s = true <-> appState s = INSPECT).
Proof.
  intros H. unfold controlsVisible. split.
  - intros V. apply andb_true_iff in V. destruct V as [V _].
    apply andb_true_iff in V. destruct V as [V _].
    now apply AppSpec.AppState_eqb_eq.
  - intros M. rewrite M. cbn [AppState_eqb andb].
    pose proof (proj1 (reachable_inspect_focus s (runsTo_reachable s H)) M) as F.
    destruct (focusId s) as [id|] eqn:E; [|now destruct F].
    destruct (runsTo_validFocus s H id E) as (k & _ & ->).
    reflexivity.
Qed.

Lemma controls_iff_inspect_witness :
  controlsVisible
    (step (PhotoSelect "photo-0") (step (FileUpload ["a"]) initial)) = true.
Proof.
  apply (controls_iff_inspect
           (step (PhotoSelect "photo-0") (step (FileUpload ["a"]) initial))).
  - apply runs_step; [apply runs_step; [apply runs_initial|exact I]|].
    exists 0%nat. split; [simpl; lia|reflexivity].
  - reflexivity.
Defined.

End RunSpec.

(** ** More of the classifier *)

Module ClassifierMoreSpec.

Import HandController Frames.

(** Everything a raised pointing flag says. *)
Lemma pointing_conditions (lm : list Landmark) :
  detectPointing lm = Some true ->
  exists l8 l6 l12 l10 l16 l14 l20 l18,
    (at_ lm 8 = Some l8 /\ at_ lm 6 = Some l6 /\ y l8 < y l6)
    /\ (at_ lm 12 = Some l12 /\ at_ lm 10 = Some l10 /\ y l10 < y l12)
    /\ (at_ lm 16 = Some l16 /\ at_ lm 14 = Some l14 /\ y l14 < y l16)
    /\ (at_ lm 20 = Some l20 /\ at_ lm 18 = Some l18 /\ y l18 < y l20).
Proof.
  unfold detectPointing. intros H.
  destruct (at_ lm 8) as [l8|]; [|discriminate].
  destruct (at_ lm 6) as [l6|]; [|discriminate].
  destruct (at_ lm 12) as [l12|]; [|discriminate].
  destruct (at_ lm 10) as [l10|]; [|discriminate].
  destruct (at_ lm 16) as [l16|]; [|discriminate].
  destruct (at_ lm 14) as [l14|]; [|discriminate].
  destruct (at_ lm 20) as [l20|]; [|discriminate].
  destruct (at_ lm 18) as [l18|]; [|discriminate].
  cbn [Js.bind] in H. injection H as H.
  repeat (apply andb_true_iff in H; destruct H as [H ?]).
  exists l8, l6, l12, l10, l16, l14, l20, l18.
  repeat split; trivial; now apply JsFacts.ltb_true.
Qed.

(** X11: a fingertip exactly level with its joint raises none of the
    flags [isFist], [isOpen] and [isPointing]: the open-hand test is not
    the negation of the fist test. *)
Theorem level_finger_raises_nothing (lm : list Landmark) (tip : nat)
        (t p : Landmark) :
  In tip [8; 12; 16; 20]%nat ->
  at_ lm tip = Some t ->
  at_ lm (tip - 2) = Some p ->
  y t = y p ->
  raised (detectFist lm) = false
  /\ raised (detectOpenPalm lm) = false
  /\ raised (detectPointing lm) = false.
Proof.
  intros Hin Ht Hp E. repeat split.
  - destruct (detectFist lm) as [[|]|] eqn:F; trivial. exfalso.
    destruct (HandControllerSpec.fist_finger lm tip Hin F)
      as (t' & p' & Ht' & Hp' & L).
    rewrite Ht in Ht'. rewrite Hp in Hp'.
    injection Ht' as <-. injection Hp' as <-. lra.
  - destruct (detectOpenPalm lm) as [[|]|] eqn:O; trivial. exfalso.
    destruct (HandControllerSpec.open_finger lm tip Hin O)
      as (t' & p' & Ht' & Hp' & L).
    rewrite Ht in Ht'. rewrite Hp in Hp'.
    injection Ht' as <-. injection Hp' as <-. lra.
  - destruct (detectPointing lm) as [[|]|] eqn:P; trivial. exfalso.
    destruct (pointing_conditions lm P)
      as (l8 & l6 & l12 & l10 & l16 & l14 & l20 & l18 & A & B & C & D).
    destruct Hin as [<-|[<-|[<-|[<-|[]]]]];
      [destruct A as (X & Y & L) | destruct B as (X & Y & L)
       | destruct C as (X & Y & L) | destruct D as (X & Y & L)];
      match type of Hp with
      | at_ lm (?n - 2) = _ =>
          let m := eval compute in (n - 2)%nat in
          change (n - 2)%nat with m in Hp
      end;
      rewrite Ht in X; rewrite Hp in Y;
      injection X as <-; injection Y as <-; lra.
Qed.

Lemma level_finger_raises_nothing_witness :
  raised (detectFist (repeat (mkLandmark 0.5 0.5) 21)) = false
  /\ raised (detectOpenPalm (repeat (mkLandmark 0.5 0.5) 21)) = false
  /\ raised (detectPointing (repeat (mkLandmark 0.5 0.5) 21)) = false.
Proof.
  apply (level_finger_raises_nothing
           (repeat (mkLandmark 0.5 0.5) 21) 8
           (mkLandmark 0.5 0.5) (mkLandmark 0.5 0.5)).
  - left. reflexivity.
  - reflexivity.
  - reflexivity.
  - reflexivity.
Defined.

Lemma every_ext {A} (p q : A -> option bool) (l : list A) :
  (forall a, p a = q a) -> Js.every p l = Js.every q l.
Proof.
  intros H. induction l as [|a l IH]; [reflexivity|].
  cbn [Js.every]. now rewrite H, IH.
Qed.

Lemma at_moveFrame (sx a b : R) (lm : list Landmark) (i : nat) :
  at_ (moveFrame sx a b lm) i
  = option_map (fun l => mkLandmark (sx * x l + a) (y l + b)) (at_ lm i).
Proof. apply nth_error_map. Qed.

Lemma ltb_shift (u v b : R) : Js.ltb (u + b) (v + b) = Js.ltb u v.
Proof.
  unfold Js.ltb.
  destruct (Rlt_dec (u + b) (v + b)), (Rlt_dec u v); trivial; lra.
Qed.

Lemma moved_detectors (sx a b : R) (lm : list Landmark) :
  sx = 1 \/ sx = -1 ->
  detectFist (moveFrame sx a b lm) = detectFist lm
  /\ detectOpenPalm (moveFrame sx a b lm) = detectOpenPalm lm
  /\ detectPinch (moveFrame sx a b lm) = detectPinch lm
  /\ detectPointing (moveFrame sx a b lm) = detectPointing lm.
Proof.
  intros Hs. repeat split.
  - unfold detectFist. apply every_ext. intros tip.
    rewrite !at_moveFrame.
    destruct (at_ lm tip), (at_ lm (tip - 2)); cbn; trivial.
    unfold Js.gtb. now rewrite ltb_shift.
  - unfold detectOpenPalm. apply every_ext. intros tip.
    rewrite !at_moveFrame.
    destruct (at_ lm tip), (at_ lm (tip - 2)); cbn; trivial.
    now rewrite ltb_shift.
  - unfold detectPinch. rewrite !at_moveFrame.
    destruct (at_ lm 8), (at_ lm 4); cbn; trivial.
    do 3 f_equal. destruct Hs; subst sx; ring.
  - unfold detectPointing. rewrite !at_moveFrame.
    destruct (at_ lm 8), (at_ lm 6), (at_ lm 12), (at_ lm 10),
      (at_ lm 16), (at_ lm 14), (at_ lm 20), (at_ lm 18); cbn; trivial.
    unfold Js.gtb. now rewrite !ltb_shift.
Qed.

(** X12: the four gesture flags do not change when the whole hand is
    shifted in the image or mirrored left to right: a frame with every
    landmark moved to [(sx * x + a, y + b)], [sx] being 1 or -1, gives the
    same flags, and the hand position moves with the frame. *)
Theorem flags_follow_the_hand (sx a b : R) (lm : list Landmark)
        (rest : list (list Landmark)) (g : HandGestureData) :
  sx = 1 \/ sx = -1 ->
  onResults (mkResults (Some (lm :: rest))) = Some g ->
  onResults (mkResults (Some (moveFrame sx a b lm :: rest)))
  = Some (mkGesture (isFist g) (isOpen g) (isPinching g) (isPointing g)
                    (mkPoint2 (1 - (sx * (1 - px (handPosition g)) + a))
                              (py (handPosition g) + b))).
Proof.
  intros Hs. unfold onResults. cbn [multiHandLandmarks].
  destruct (moved_detectors sx a b lm Hs) as (-> & -> & -> & ->).
  rewrite !at_moveFrame.
  destruct (detectFist lm) as [f|]; [|discriminate].
  destruct (detectOpenPalm lm) as [o|]; [|discriminate].
  destruct (detectPinch lm) as [pi|]; [|discriminate].
  destruct (detectPointing lm) as [po|]; [|discriminate].
  cbn [Js.bind].
  destruct (at_ lm 0) as [w|]; [|discriminate].
  destruct (at_ lm 9) as [m|]; [|discriminate].
  cbn. intros [= <-]. cbn. do 2 f_equal. f_equal; lra.
Qed.

Lemma flags_follow_the_hand_witness :
  onResults (mkResults (Some [moveFrame (-1) 1 0 Samples.openFrame]))
  = Some (mkGesture false true false false
                    (mkPoint2 (1 - (-1 * (1 - 0.5) + 1)) (0.6 + 0))).
Proof.
  apply (flags_follow_the_hand (-1) 1 0 Samples.openFrame []
           (mkGesture false true false false (mkPoint2 0.5 0.6))).
  - right. reflexivity.
  - apply HandControllerSpec.openFrame_signal.
Defined.

(** X13: when every landmark of the frame lies in the unit square, so does
    the emitted hand position; with no hand it is the centre. *)
Theorem handPosition_in_unit_square (results : Results)
        (g : HandGestureData) :
  (forall lm rest,
      multiHandLandmarks results = Some (lm :: rest) ->
      Forall inUnitSquare lm) ->
  onResults results = Some g ->
  0 <= px (handPosition g) <= 1 /\ 0 <= py (handPosition g) <= 1.
Proof.
  intros H. unfold onResults.
  destruct (multiHandLandmarks results) as [[|lm rest]|] eqn:E;
    try (intros [= <-]; cbn; lra).
  specialize (H lm rest eq_refl). rewrite Forall_forall in H.
  destruct (detectFist lm) as [f|]; [|discriminate].
  destruct (detectOpenPalm lm) as [o|]; [|discriminate].
  destruct (detectPinch lm) as [pi|]; [|discriminate].
  destruct (detectPointing lm) as [po|]; [|discriminate].
  cbn [Js.bind].
  destruct (at_ lm 0) as [w|] eqn:W; [|discriminate].
  destruct (at_ lm 9) as [m|] eqn:M; [|discriminate].
  cbn [Js.bind]. intros [= <-]. cbn [handPosition px py].
  apply nth_error_In in W, M.
  destruct (H w W) as [? ?], (H m M) as [? ?]. lra.
Qed.

Lemma handPosition_in_unit_square_witness :
  0 <= px (mkPoint2 0.5 0.6) <= 1 /\ 0 <= py (mkPoint2 0.5 0.6) <= 1.
Proof.
  apply (handPosition_in_unit_square
           (mkResults (Some [Samples.openFrame]))
           (mkGesture false true false false (mkPoint2 0.5 0.6))).
  - intros lm rest [= <- _]. unfold Samples.openFrame. cbn [map seq].
    repeat constructor; cbn; lra.
  - apply HandControllerSpec.openFrame_signal.
Defined.

(** X14: a capture tick with no hand in view never moves the state
    machine: whatever the time and the state, the emitted signal leaves
    the mode, the focus, the photos and the pending confirmation as they
    were; when it is not suppressed it clears the stored pointing flag, so
    that the next pointing tick counts as a fresh point. *)
Theorem no_hand_freezes_mode (results : Results) (now : Z) (random : R)
        (s : App.State) :
  multiHandLandmarks results = None \/ multiHandLandmarks results = Some [] ->
  exists g,
    onResults results = Some g
    /\ App.appState (App.handleGesture now random g s) = App.appState s
    /\ App.focusId (App.handleGesture now random g s) = App.focusId s
    /\ App.photos (App.handleGesture now random g s) = App.photos s
    /\ App.deleteConfirm (App.handleGesture now random g s)
       = App.deleteConfirm s
    /\ ((App.gestureCooldownRef s <= now)%Z ->
        App.wasPointingRef (App.handleGesture now random g s) = false).
Proof.
  intros H. exists noHand. split.
  - unfold onResults. destruct H as [-> | ->]; reflexivity.
  - destruct s as [m g ph f w d c]. unfold App.handleGesture.
    cbn -[Z.ltb]. destruct (now <? c)%Z eqn:E.
    + repeat split. intros L. apply Z.ltb_lt in E. lia.
    + destruct m; repeat split.
Qed.

Lemma no_hand_freezes_mode_witness :
  exists g,
    onResults (mkResults None) = Some g
    /\ App.appState (App.handleGesture 6000 0 g Samples.inspecting)
       = INSPECT.
Proof.
  destruct (no_hand_freezes_mode (mkResults None) 6000 0 Samples.inspecting)
    as (g & G & M & _).
  - left. reflexivity.
  - exists g. split; [exact G | exact M].
Defined.

End ClassifierMoreSpec.

(** ** Camera, drift and emissive intensity *)

Module FrameSpec.

Import MagicScene.

Lemma sqrt_625 : sqrt 625 = 25.
Proof. replace 625 with (25 * 25) by lra. apply sqrt_square. lra. Qed.

Lemma sin_cos_ring (t r : R) :
  (sin t * r) * (sin t * r) + (cos t * r) * (cos t * r) = r * r.
Proof.
  pose proof (sin2_cos2 t) as H. unfold Rsqr in H.
  replace (sin t * r * (sin t * r) + cos t * r * (cos t * r))
    with ((sin t * sin t + cos t * cos t) * (r * r)) by ring.
  rewrite H. ring.
Qed.

(** X15: the position the camera is sent to stays at least 25 away from
    the point it looks at, in every mode; in SCATTER mode it lies on the
    circle of radius 35 around the vertical axis, at a height within 10 of
    the centre when the hand position is in the unit square, and a centred
    hand puts it straight in front; in TREE mode it sways at most 5 to
    either side at depth 32. *)
Theorem camera_target_bounds (mode : AppState) (gesture : HandGestureData)
        (time : R) :
  0 <= py (handPosition gesture) <= 1 ->
  let t := Camera.targetPos mode gesture time in
  25 <= distanceTo t Camera.lookAtPos
  /\ (mode = SCATTER ->
      vx t * vx t + vz t * vz t = 35 * 35 /\ Rabs (vy t) <= 10)
  /\ (mode = SCATTER -> handPosition gesture = mkPoint2 0.5 0.5 ->
      t = mkVector3 0 0 35)
  /\ (mode = TREE -> Rabs (vx t) <= 5 /\ vy t = 0 /\ vz t = 32).
Proof.
  intros Hy t. subst t. split; [|split; [|split]].
  - rewrite <- sqrt_625. rewrite BlendSpec.distanceTo_sqrt.
    apply sqrt_le_1_alt. unfold sqDist, Camera.lookAtPos.
    destruct mode; cbn [Camera.targetPos vx vy vz].
    + pose proof (Rle_0_sqr (sin (time * 0.1) * 5 - 0)) as H.
      unfold Rsqr in H. lra.
    + set (az := (px (handPosition gesture) - 0.5) * PI * 1.5).
      set (h := (py (handPosition gesture) - 0.5) * 20).
      pose proof (sin_cos_ring az 35) as H.
      pose proof (Rle_0_sqr h) as Hh. unfold Rsqr in Hh.
      replace ((sin az * 35 - 0) * (sin az * 35 - 0) + (h - 0) * (h - 0)
               + (cos az * 35 - 0) * (cos az * 35 - 0))
        with (sin az * 35 * (sin az * 35) + cos az * 35 * (cos az * 35)
              + h * h) by ring.
      lra.
    + lra.
  - intros ->. cbn [Camera.targetPos vx vy vz]. split.
    + apply sin_cos_ring.
    + apply Rabs_le. lra.
  - intros -> E. cbn [Camera.targetPos]. rewrite E. cbn [px py].
    replace ((0.5 - 0.5) * PI * 1.5) with 0 by ring.
    rewrite sin_0, cos_0. f_equal; lra.
  - intros ->. cbn [Camera.targetPos vx vy vz]. split; [|split; reflexivity].
    apply Rabs_le. pose proof (SIN_bound (time * 0.1)). lra.
Qed.

Lemma camera_target_bounds_witness :
  25 <= distanceTo (Camera.targetPos SCATTER Samples.open 0)
                   Camera.lookAtPos.
Proof.
  apply (camera_target_bounds SCATTER Samples.open 0). cbn. lra.
Defined.

Lemma norm_inspect_pose : Double.norm (mkVector3 0 0 25) = 25.
Proof.
  unfold Double.norm, Double.length3. cbn.
  replace (_ + _ + _) with (25 * 25) by ring. apply sqrt_square. lra.
Qed.

(** In INSPECT mode the camera frame is a blend toward the fixed pose. *)
Lemma cameraFrame_inspect (Math_sin Math_cos : R -> R)
      (g : HandGestureData) (f : Double.Frame) (pos : Vector3) :
  Double.cameraFrame Math_sin Math_cos INSPECT g f pos
  = (alpha <- Binary64.mul (Double.delta f) 2 ;;
     Double.lerp pos (mkVector3 0 0 25) alpha).
Proof. reflexivity. Qed.

(** X16: in INSPECT mode the camera closes in on the fixed pose
    (0, 0, 25) geometrically, down to a noise floor. For any run of frames
    whose blend factor [delta * 2], as computed in binary64, lies between
    [lo] and [2 - lo], the position stays finite and its distance to the
    pose after [n] frames is at most [(1 - lo + 6 u) ^ n] times the
    initial distance plus [(25 u + 10 eta) / (lo - 6 u)]; for factors of a
    64th and more that floor is below [3328 u], about 4e-13. Every such
    frame that starts further from the pose than the floor ends strictly
    closer to it. Nothing is said at the floor and below, where the camera
    may stop short of the pose or sit on it. *)
Theorem camera_inspect_approach (Math_sin Math_cos : R -> R)
        (g : HandGestureData) (frames : list Double.Frame) (pos : Vector3)
        (lo : R) :
  7 * Binary64.u <= lo <= 1 ->
  Forall (Double.paced 2 lo) frames ->
  distanceTo pos (mkVector3 0 0 25) + 60 <= Binary64.limit ->
  (exists pos',
      Double.run (Double.cameraFrame Math_sin Math_cos INSPECT g) frames pos
      = Some pos'
      /\ distanceTo pos' (mkVector3 0 0 25)
         <= (1 - lo + 6 * Binary64.u) ^ List.length frames
            * distanceTo pos (mkVector3 0 0 25)
            + Double.noiseFloor lo (mkVector3 0 0 25))
  /\ (1 / 64 <= lo ->
      Double.noiseFloor lo (mkVector3 0 0 25) <= 3328 * Binary64.u)
  /\ (forall f q,
        Double.paced 2 lo f ->
        distanceTo q (mkVector3 0 0 25) + 25 <= Binary64.limit ->
        Double.noiseFloor lo (mkVector3 0 0 25)
        < distanceTo q (mkVector3 0 0 25) ->
        exists q',
          Double.cameraFrame Math_sin Math_cos INSPECT g f q = Some q'
          /\ distanceTo q' (mkVector3 0 0 25)
             < distanceTo q (mkVector3 0 0 25)).
Proof.
  intros Hlo Hf H. split; [|split].
  - apply (DoubleFacts.paced_run _ 2 lo (mkVector3 0 0 25) frames pos);
      [intros f q; apply cameraFrame_inspect|exact Hlo|exact Hf|].
    rewrite norm_inspect_pose. lra.
  - intros L.
    pose proof (DoubleFacts.noiseFloor_small lo (mkVector3 0 0 25) L) as B.
    rewrite norm_inspect_pose in B. lra.
  - intros f q Hp Hq F. rewrite cameraFrame_inspect.
    apply DoubleFacts.paced_lerp_closer with (lo := lo); trivial.
    rewrite norm_inspect_pose. lra.
Qed.

Lemma camera_inspect_approach_witness :
  exists pos',
    Double.run (Double.cameraFrame sin cos INSPECT Samples.open)
               [Double.mkFrame 0 (1 / 32); Double.mkFrame (1 / 32) (1 / 16)]
               (mkVector3 0 0 32)
    = Some pos'
    /\ distanceTo pos' (mkVector3 0 0 25)
       <= (1 - 1 / 16 + 6 * Binary64.u) ^ 2
          * distanceTo (mkVector3 0 0 32) (mkVector3 0 0 25)
          + Double.noiseFloor (1 / 16) (mkVector3 0 0 25).
Proof.
  apply (camera_inspect_approach sin cos Samples.open
           [Double.mkFrame 0 (1 / 32); Double.mkFrame (1 / 32) (1 / 16)]
           (mkVector3 0 0 32) (1 / 16)).
  - unfold Binary64.u. lra.
  - repeat constructor.
    + exists (1 / 32 * 2). split; [|lra]. cbn [Double.delta].
      apply (Binary64Facts.round_dyadic _ 1 (-4));
        first [unfold Binary64.emin; lia | simpl; lra].
    + exists (1 / 16 * 2). split; [|lra]. cbn [Double.delta].
      apply (Binary64Facts.round_dyadic _ 1 (-3));
        first [unfold Binary64.emin; lia | simpl; lra].
  - rewrite BlendSpec.distanceTo_sqrt. unfold sqDist. cbn [vx vy vz].
    replace (_ + _ + _) with (7 * 7) by ring.
    rewrite sqrt_square by lra. pose proof DoubleFacts.limit_big. lra.
Defined.

(** X17: the drift that SCATTER mode adds after the blend moves the item
    by at most 0.02 along x and along y and not at all along z; in the
    other modes the frame is the blend alone. *)
Theorem scatter_drift_bounded (item : SceneItem) (mode : AppState)
        (focus : option string) (randomOffset time delta : R)
        (p : Vector3) :
  let q := blend (targetPos item mode focus) delta p in
  let r := framePosition item mode focus randomOffset time delta p in
  Rabs (vx r - vx q) <= 0.02
  /\ Rabs (vy r - vy q) <= 0.02
  /\ vz r = vz q
  /\ (mode <> SCATTER -> r = q).
Proof.
  cbv zeta. unfold framePosition.
  pose proof (COS_bound (time * 0.5 + randomOffset)).
  pose proof (SIN_bound (time + randomOffset)).
  destruct mode; cbn [vx vy vz];
    repeat split; try congruence; apply Rabs_le; lra.
Qed.

End FrameSpec.

(** ** Material flags and emissive intensity *)

Module MaterialSpec.

Import MagicScene Material.

Lemma includes_skip (a : ascii) (s needle : string) :
  prefix needle (String a s) = false ->
  includes (String a s) needle = includes s needle.
Proof.
  unfold includes. cbn [String.index]. intros ->.
  now destruct (String.index 0 needle s).
Qed.

(** Printed digits hold none of the keywords. *)
Lemma digits_no_keyword (d : uint) :
  includes (NilEmpty.string_of_uint d) "foil" = false
  /\ includes (NilEmpty.string_of_uint d) "light" = false
  /\ includes (NilEmpty.string_of_uint d) "ribbon" = false.
Proof.
  induction d as [|d IH|d IH|d IH|d IH|d IH|d IH|d IH|d IH|d IH|d IH];
    cbn [NilEmpty.string_of_uint]; [repeat split|..];
    rewrite !includes_skip by reflexivity; exact IH.
Qed.

(** The ids written by the six generators and their keywords. *)
Lemma keywords_of_ids (d : uint) :
  let n := NilEmpty.string_of_uint d in
  (includes ("ornament-" ++ n) "foil" = false
   /\ includes ("ornament-" ++ n) "light" = false
   /\ includes ("ornament-" ++ n) "ribbon" = false)
  /\ (includes ("foil-" ++ n) "foil" = true
      /\ includes ("foil-" ++ n) "light" = false
      /\ includes ("foil-" ++ n) "ribbon" = false)
  /\ (includes ("ribbon-white-" ++ n) "foil" = false
      /\ includes ("ribbon-white-" ++ n) "light" = false
      /\ includes ("ribbon-white-" ++ n) "ribbon" = true)
  /\ (includes ("ribbon-blue-" ++ n) "foil" = false
      /\ includes ("ribbon-blue-" ++ n) "light" = false
      /\ includes ("ribbon-blue-" ++ n) "ribbon" = true)
  /\ (includes ("light-" ++ n) "foil" = false
      /\ includes ("light-" ++ n) "light" = true
      /\ includes ("light-" ++ n) "ribbon" = false)
  /\ (includes ("photo-" ++ n) "foil" = false
      /\ includes ("photo-" ++ n) "light" = false
      /\ includes ("photo-" ++ n) "ribbon" = false).
Proof.
  cbv zeta. destruct (digits_no_keyword d) as (F & L & R).
  cbn [String.append].
  repeat split;
    first [ reflexivity
          | rewrite !includes_skip by reflexivity; assumption ].
Qed.

(** The loop each generated id is attributed to. *)
Lemma idGroup_of_ids (n : string) :
  idGroup ("ornament-" ++ n) = 1%nat
  /\ idGroup ("foil-" ++ n) = 2%nat
  /\ idGroup ("ribbon-white-" ++ n) = 3%nat
  /\ idGroup ("ribbon-blue-" ++ n) = 4%nat
  /\ idGroup ("light-" ++ n) = 5%nat
  /\ idGroup ("photo-" ++ n) = 6%nat.
Proof. destruct n; repeat split; reflexivity. Qed.

Lemma conventional_intro (it : SceneItem) (g : nat) :
  idGroup (id it) = g ->
  (1 <= g <= 6)%nat ->
  (type it = photo <-> g = 6%nat) ->
  includes (id it) "foil" = (g =? 2)%nat ->
  includes (id it) "light" = (g =? 5)%nat ->
  includes (id it) "ribbon" = ((g =? 3) || (g =? 4))%nat ->
  conventional it.
Proof.
  intros G B T F L Rb. unfold conventional, isFoil, isLight, isRibbon.
  cbv zeta. rewrite G. auto.
Qed.

Section WithOracle.

Variable oracle : nat -> R.

Lemma ornament_conventional (i k : nat) :
  conventional (fst (ornament oracle i k)).
Proof.
  destruct (LayoutSpec.ornament_plain oracle i k) as [T _].
  destruct (IdSpec.toString_nat i) as (d & _ & D).
  assert (E : id (fst (ornament oracle i k))
              = ("ornament-" ++ NilEmpty.string_of_uint d)%string)
    by (rewrite <- D; reflexivity).
  destruct (keywords_of_ids d) as ((A & B & C) & _). cbv zeta in *.
  destruct (idGroup_of_ids (NilEmpty.string_of_uint d)) as (G & _).
  apply (conventional_intro _ 1); rewrite ?E;
    try assumption; try reflexivity; try lia.
  split; [intros H; now destruct T|discriminate].
Qed.

Lemma foil_conventional (i k : nat) :
  conventional (fst (foil oracle i k)).
Proof.
  destruct (LayoutSpec.foil_plain oracle i k) as [T _].
  destruct (IdSpec.toString_nat i) as (d & _ & D).
  assert (E : id (fst (foil oracle i k))
              = ("foil-" ++ NilEmpty.string_of_uint d)%string)
    by (rewrite <- D; reflexivity).
  destruct (keywords_of_ids d) as (_ & (A & B & C) & _). cbv zeta in *.
  destruct (idGroup_of_ids (NilEmpty.string_of_uint d)) as (_ & G & _).
  apply (conventional_intro _ 2); rewrite ?E;
    try assumption; try reflexivity; try lia.
  split; [intros H; now destruct T|discriminate].
Qed.

Lemma ribbonWhite_conventional (i k : nat) :
  conventional (fst (ribbonWhite oracle i k)).
Proof.
  destruct (LayoutSpec.ribbonWhite_plain oracle i k) as [T _].
  destruct (IdSpec.toString_nat i) as (d & _ & D).
  assert (E : id (fst (ribbonWhite oracle i k))
              = ("ribbon-white-" ++ NilEmpty.string_of_uint d)%string)
    by (rewrite <- D; reflexivity).
  destruct (keywords_of_ids d) as (_ & _ & (A & B & C) & _). cbv zeta in *.
  destruct (idGroup_of_ids (NilEmpty.string_of_uint d)) as (_ & _ & G & _).
  apply (conventional_intro _ 3); rewrite ?E;
    try assumption; try reflexivity; try lia.
  split; [intros H; now destruct T|discriminate].
Qed.

Lemma ribbonBlue_conventional (i k : nat) :
  conventional (fst (ribbonBlue oracle i k)).
Proof.
  destruct (LayoutSpec.ribbonBlue_plain oracle i k) as [T _].
  destruct (IdSpec.toString_nat i) as (d & _ & D).
  assert (E : id (fst (ribbonBlue oracle i k))
              = ("ribbon-blue-" ++ NilEmpty.string_of_uint d)%string)
    by (rewrite <- D; reflexivity).
  destruct (keywords_of_ids d) as (_ & _ & _ & (A & B & C) & _). cbv zeta in *.
  destruct (idGroup_of_ids (NilEmpty.string_of_uint d)) as (_ & _ & _ & G & _).
  apply (conventional_intro _ 4); rewrite ?E;
    try assumption; try reflexivity; try lia.
  split; [intros H; now destruct T|discriminate].
Qed.

Lemma light_conventional (i k : nat) :
  conventional (fst (light oracle i k)).
Proof.
  destruct (LayoutSpec.light_plain oracle i k) as [T _].
  destruct (IdSpec.toString_nat i) as (d & _ & D).
  assert (E : id (fst (light oracle i k))
              = ("light-" ++ NilEmpty.string_of_uint d)%string)
    by (rewrite <- D; reflexivity).
  destruct (keywords_of_ids d) as (_ & _ & _ & _ & (A & B & C) & _). cbv zeta in *.
  destruct (idGroup_of_ids (NilEmpty.string_of_uint d)) as (_ & _ & _ & _ & G & _).
  apply (conventional_intro _ 5); rewrite ?E;
    try assumption; try reflexivity; try lia.
  split; [intros H; now destruct T|discriminate].
Qed.

Lemma photo_conventional (it : SceneItem) (j : nat) :
  type it = photo -> id it = App.photoId (Z.of_nat j) -> conventional it.
Proof.
  intros T E. unfold App.photoId in E.
  destruct (IdSpec.toString_nat j) as (d & _ & D). rewrite D in E.
  destruct (keywords_of_ids d) as (_ & _ & _ & _ & _ & (A & B & C)).
  cbv zeta in *.
  destruct (idGroup_of_ids (NilEmpty.string_of_uint d))
    as (_ & _ & _ & _ & _ & G).
  apply (conventional_intro _ 6); rewrite ?E;
    try assumption; try reflexivity; try lia.
  split; trivial.
Qed.

Lemma items_conventional (k0 : nat) :
  Forall conventional (fst (items oracle k0)).
Proof.
  unfold items. rewrite !LayoutSpec.bind_run. unfold ret. cbn [fst].
  apply LayoutSpec.Forall_app_intro;
    [apply LayoutSpec.pushLoop_Forall, ornament_conventional|].
  apply LayoutSpec.Forall_app_intro;
    [apply LayoutSpec.pushLoop_Forall, foil_conventional|].
  apply LayoutSpec.Forall_app_intro;
    [apply LayoutSpec.pushLoop_Forall, ribbonWhite_conventional|].
  apply LayoutSpec.Forall_app_intro;
    [apply LayoutSpec.pushLoop_Forall, ribbonBlue_conventional|].
  apply LayoutSpec.pushLoop_Forall, light_conventional.
Qed.

Lemma allItems_conventional (its : list SceneItem) (photos : list string)
      (k : nat) :
  Forall conventional its ->
  Forall conventional (fst (allItems oracle its photos k)).
Proof.
  intros H. rewrite LayoutSpec.allItems_app.
  apply LayoutSpec.Forall_app_intro; [exact H|].
  apply Forall_forall. intros it Hin.
  apply LayoutSpec.mapPhotos_In in Hin. destruct Hin as (T & j & _ & E).
  now apply (photo_conventional it (0 + j)).
Qed.

End WithOracle.

Lemma steady_target_of_flags (it : SceneItem) (mode : AppState)
      (time twinkleSpeed randomOffset : R) :
  mode <> SCATTER ->
  (isLight it = true ->
   emissiveTarget it mode time twinkleSpeed randomOffset = 4.0)
  /\ (isLight it = false -> isRibbon it = true ->
      emissiveTarget it mode time twinkleSpeed randomOffset = 3.0)
  /\ (isLight it = false -> isRibbon it = false -> isFoil it = true ->
      emissiveTarget it mode time twinkleSpeed randomOffset = 1.5).
Proof.
  intros M. destruct mode; try congruence; cbn [emissiveTarget];
    repeat split; intros; repeat match goal with
                                 | H : _ = _ |- _ => rewrite H
                                 end; reflexivity.
Qed.

(** X18: for every item of the scene list the keyword tests on the id
    agree with the generator the id prefix names: exactly the foils hold
    [foil], exactly the lights hold [light], exactly the two ribbons hold
    [ribbon], and exactly the [photo-] ids belong to photos; so outside
    SCATTER mode the emissive target is 4.0 for every light, 3.0 for every
    ribbon particle and 1.5 for every foil. *)
Theorem keywords_match_generators (oracle : nat -> R) (k0 k : nat)
        (photos : list string) (it : SceneItem) :
  In it (fst (allItems oracle (fst (items oracle k0)) photos k)) ->
  let g := idGroup (id it) in
  (1 <= g <= 6)%nat
  /\ (type it = photo <-> g = 6%nat)
  /\ isFoil it = (g =? 2)%nat
  /\ isLight it = (g =? 5)%nat
  /\ isRibbon it = ((g =? 3) || (g =? 4))%nat
  /\ (forall mode time twinkleSpeed randomOffset,
         mode <> SCATTER ->
         (g = 5%nat ->
          emissiveTarget it mode time twinkleSpeed randomOffset = 4.0)
         /\ (g = 3%nat \/ g = 4%nat ->
             emissiveTarget it mode time twinkleSpeed randomOffset = 3.0)
         /\ (g = 2%nat ->
             emissiveTarget it mode time twinkleSpeed randomOffset = 1.5)).
Proof.
  intros Hin.
  pose proof (allItems_conventional oracle _ photos k
                (items_conventional oracle k0)) as H.
  rewrite Forall_forall in H. specialize (H it Hin).
  unfold conventional in H. cbv zeta in *.
  destruct H as (B & T & F & L & Rb).
  split; [exact B|]. split; [exact T|]. split; [exact F|].
  split; [exact L|]. split; [exact Rb|].
  intros mode time ts ro M.
  destruct (steady_target_of_flags it mode time ts ro M) as (TL & TR & TF).
  split; [|split].
  - intros G. apply TL. rewrite L, G. reflexivity.
  - intros G. apply TR; [rewrite L|rewrite Rb];
      destruct G as [-> | ->]; reflexivity.
  - intros G. apply TF; [rewrite L|rewrite Rb|rewrite F];
      rewrite G; reflexivity.
Qed.

Lemma keywords_match_generators_witness :
  exists it,
    In it (fst (allItems Samples.half (fst (items Samples.half 0%nat))
                         ["a"] 0%nat))
    /\ isLight it = (idGroup (id it) =? 5)%nat.
Proof.
  pose proof (LayoutSpec.allItems_photo
                Samples.half (fst (items Samples.half 0%nat)) ["a"]
                0%nat 0%nat "a" eq_refl) as N.
  apply nth_error_In in N.
  eexists. split; [exact N|].
  apply (keywords_match_generators Samples.half 0%nat 0%nat ["a"] _ N).
Defined.

Lemma target_bounds (it : SceneItem) (mode : AppState) (time ts ro : R) :
  0.1 <= emissiveTarget it mode time ts ro <= 8
  /\ (mode <> SCATTER -> emissiveTarget it mode time ts ro <= 4).
Proof.
  destruct mode; cbn [emissiveTarget]; cbv zeta;
    repeat match goal with
           | |- context [if ?b then _ else _] => destruct b
           end; split; try congruence; try lra; intros _; lra.
Qed.

(** Outside SCATTER mode the target is a literal of the source: the one
    the exact reading of the branch gives. *)
Lemma steady_target (Math_sin : R -> R) (it : SceneItem) (mode : AppState)
      (time ts ro : R) :
  mode <> SCATTER ->
  Double.emissiveTarget Math_sin it mode time ts ro
  = Binary64.literal (emissiveTarget it mode 0 0 0).
Proof.
  intros M. destruct mode; [|now destruct M|];
    cbn [Double.emissiveTarget emissiveTarget]; f_equal;
    repeat match goal with
           | |- context [if ?b then _ else _] => destruct b
           end; lra.
Qed.

(** One frame of a non-photo item whose target has been computed. *)
Lemma emissiveFrame_ok (Math_sin : R -> R) (it : SceneItem)
      (mode : AppState) (ts ro : R) (f : Double.Frame) (target e : R) :
  type it <> photo ->
  Double.emissiveTarget Math_sin it mode (Double.elapsedTime f) ts ro
  = Some target ->
  Rabs target <= Binary64.limit -> Rabs e <= Binary64.limit ->
  exists e',
    Double.emissiveFrame Math_sin it mode ts ro f e = Some e'
    /\ Rabs (e' - target)
       <= (9 / 10 + 7 * Binary64.u) * Rabs (e - target)
          + (7 * Binary64.u * Rabs target + 4 * Binary64.eta).
Proof.
  intros T E Ht He.
  destruct (DoubleFacts.mathLerp_ok e target He Ht) as (t & Lt & e' & L & B).
  exists e'. split; [|exact B].
  unfold Double.emissiveFrame. rewrite E, Lt.
  destruct (type it); try congruence; exact L.
Qed.

(** The number a steady literal denotes. *)
Lemma steady_literal (it : SceneItem) (mode : AppState) :
  mode <> SCATTER ->
  exists target,
    Binary64.literal (emissiveTarget it mode 0 0 0) = Some target
    /\ Rabs target <= 5.
Proof.
  intros M. pose proof (target_bounds it mode 0 0 0) as [[L _] U].
  specialize (U M).
  pose proof DoubleFacts.limit_big as HL.
  pose proof Binary64Facts.eta_bounds as [He Heu].
  set (l := emissiveTarget it mode 0 0 0) in *.
  assert (A : Rabs l = l) by (apply Rabs_pos_eq; lra).
  destruct (Binary64Facts.round_ok l) as (target & R & E); [lra|].
  exists target. split; [exact R|].
  pose proof (Rabs_triang (target - l) l) as T.
  replace (target - l + l) with target in T by ring.
  Binary64.lra_u.
Qed.

(** X19: the emissive intensity of a non-photo item is blended toward its
    target with the literal factor 0.1 on every frame, whatever the frame
    delta. In binary64 one frame leaves a gap of at most [9/10 + 7 u]
    times the old gap plus [7 u |target| + 4 eta], and the result is
    finite. Outside SCATTER mode the target is the number denoted by the
    literal of the branch taken, the same on every frame, and after [n]
    frames the gap is at most [(9/10 + 7 u) ^ n] times the initial one
    plus a noise floor below [512 u], about 6e-14; a frame that starts
    with a gap above the floor ends with a strictly smaller one, and at
    the floor and below nothing is said: the value may stop short of the
    target. A photo's intensity is left alone. *)
Theorem emissive_approach (Math_sin : R -> R) (it : SceneItem)
        (mode : AppState) (twinkleSpeed randomOffset e : R) :
  Rabs e <= Binary64.limit / 2 ->
  (type it <> photo ->
   forall f target,
     Double.emissiveTarget Math_sin it mode (Double.elapsedTime f)
                           twinkleSpeed randomOffset
     = Some target ->
     Rabs target <= Binary64.limit ->
     exists e',
       Double.emissiveFrame Math_sin it mode twinkleSpeed randomOffset f e
       = Some e'
       /\ Rabs (e' - target)
          <= (9 / 10 + 7 * Binary64.u) * Rabs (e - target)
             + (7 * Binary64.u * Rabs target + 4 * Binary64.eta))
  /\ (type it <> photo -> mode <> SCATTER ->
      exists target,
        Binary64.literal (emissiveTarget it mode 0 0 0) = Some target
        /\ Double.emissiveNoiseFloor target <= 512 * Binary64.u
        /\ forall frames,
           exists e',
             Double.run (Double.emissiveFrame Math_sin it mode twinkleSpeed
                                              randomOffset) frames e
             = Some e'
             /\ Rabs (e' - target)
                <= (9 / 10 + 7 * Binary64.u) ^ List.length frames
                   * Rabs (e - target)
                   + Double.emissiveNoiseFloor target)
  /\ (type it <> photo -> mode <> SCATTER ->
      forall f target,
        Binary64.literal (emissiveTarget it mode 0 0 0) = Some target ->
        Double.emissiveNoiseFloor target < Rabs (e - target) ->
        exists e',
          Double.emissiveFrame Math_sin it mode twinkleSpeed randomOffset f e
          = Some e'
          /\ Rabs (e' - target) < Rabs (e - target))
  /\ (type it = photo ->
      forall f,
        Double.emissiveFrame Math_sin it mode twinkleSpeed randomOffset f e
        = Some e).
Proof.
  intros He. pose proof DoubleFacts.limit_big as HL.
  pose proof Binary64Facts.eta_bounds as [He0 Heu].
  pose proof DoubleFacts.eta_small as Hes.
  split; [|split; [|split]].
  - intros T f target E Ht. apply emissiveFrame_ok; trivial. lra.
  - intros T M. destruct (steady_literal it mode M) as (target & L & B).
    exists target. split; [exact L|].
    pose proof (Rabs_pos target) as Pt.
    assert (F : Double.emissiveNoiseFloor target <= 512 * Binary64.u).
    { unfold Double.emissiveNoiseFloor, Rdiv.
      assert (D : / (1 / 10 - 7 * Binary64.u) <= 16).
      { replace 16 with (/ / 16) by lra.
        apply Rinv_le_contravar; Binary64.lra_u. }
      assert (0 <= 7 * Binary64.u * Rabs target + 4 * Binary64.eta)
        by Binary64.lra_u.
      assert ((7 * Binary64.u * Rabs target + 4 * Binary64.eta)
              * / (1 / 10 - 7 * Binary64.u)
              <= (7 * Binary64.u * Rabs target + 4 * Binary64.eta) * 16)
        by (apply Rmult_le_compat_l; assumption).
      Binary64.lra_u. }
    split; [exact F|]. intros frames.
    unfold Double.emissiveNoiseFloor.
    replace (1 / 10 - 7 * Binary64.u)
      with (1 - (9 / 10 + 7 * Binary64.u)) by lra.
    apply (DoubleFacts.run_contracts_floor
             (Double.emissiveFrame Math_sin it mode twinkleSpeed randomOffset)
             (fun a => Rabs (a - target)) (fun _ => True)
             (9 / 10 + 7 * Binary64.u)
             (7 * Binary64.u * Rabs target + 4 * Binary64.eta)
             (Binary64.limit - 5)).
    + Binary64.lra_u.
    + Binary64.lra_u.
    + Binary64.lra_u.
    + intros f a _ Ha. apply emissiveFrame_ok; trivial.
      * rewrite steady_target by exact M. exact L.
      * lra.
      * pose proof (Rabs_triang (a - target) target) as Tr.
        replace (a - target + target) with a in Tr by ring. lra.
    + apply Forall_forall. trivial.
    + pose proof (Rabs_triang e (- target)) as Tr.
      rewrite Rabs_Ropp in Tr. replace (e + - target) with (e - target) in Tr
        by ring. 
      lra.
  - intros T M f target L F.
    destruct (steady_literal it mode M) as (target' & L' & B).
    assert (target' = target) by congruence. subst target'.
    destruct (emissiveFrame_ok Math_sin it mode twinkleSpeed randomOffset f
                               target e T) as (e' & R & Be); [|lra|lra|].
    { rewrite steady_target by exact M. exact L. }
    exists e'. split; [exact R|].
    unfold Double.emissiveNoiseFloor in F.
    set (c := 7 * Binary64.u * Rabs target + 4 * Binary64.eta) in *.
    set (G := Rabs (e - target)) in *.
    assert (P : 0 < 1 / 10 - 7 * Binary64.u) by Binary64.lra_u.
    assert (E : c = c / (1 / 10 - 7 * Binary64.u) * (1 / 10 - 7 * Binary64.u))
      by (field; lra).
    assert (c / (1 / 10 - 7 * Binary64.u) * (1 / 10 - 7 * Binary64.u)
            < G * (1 / 10 - 7 * Binary64.u))
      by (apply Rmult_lt_compat_r; assumption).
    lra.
  - intros T f. unfold Double.emissiveFrame. now rewrite T.
Qed.

Lemma emissive_approach_witness :
  exists target,
    Binary64.literal (emissiveTarget Double.unitItem TREE 0 0 0) = Some target
    /\ Double.emissiveNoiseFloor target <= 512 * Binary64.u
    /\ forall frames,
       exists e',
         Double.run (Double.emissiveFrame sin Double.unitItem TREE 1 0)
                    frames 1
         = Some e'
         /\ Rabs (e' - target)
            <= (9 / 10 + 7 * Binary64.u) ^ List.length frames
               * Rabs (1 - target)
               + Double.emissiveNoiseFloor target.
Proof.
  destruct (emissive_approach sin Double.unitItem TREE 1 0 1)
    as (_ & H & _).
  - pose proof DoubleFacts.limit_big. rewrite Rabs_pos_eq; lra.
  - apply H; discriminate.
Defined.

End MaterialSpec.

(** ** More of the layout: ids, cone and ring *)

Module LayoutMoreSpec.

Import MagicScene Material.

Lemma append_inj (name a b : string) :
  (name ++ a)%string = (name ++ b)%string -> a = b.
Proof.
  induction name as [|c name IH]; cbn [String.append]; intros H;
    [exact H|]. injection H as H. auto.
Qed.

Lemma named_inj (name : string) (i j : nat) :
  (name ++ Js.toString (Z.of_nat i))%string
  = (name ++ Js.toString (Z.of_nat j))%string -> i = j.
Proof.
  intros H. apply append_inj, LayoutSpec.toString_inj in H. lia.
Qed.

Lemma NoDup_map_inj {A B} (f : A -> B) (l : list A) :
  (forall x y, f x = f y -> x = y) -> NoDup l -> NoDup (map f l).
Proof.
  intros Hf. induction 1 as [|a l Ha _ IH]; cbn [map]; constructor; trivial.
  intros Hin. apply in_map_iff in Hin. destruct Hin as (b & E & Hb).
  apply Hf in E. subst b. contradiction.
Qed.

Lemma NoDup_app_disjoint {A} (m m' : list A) :
  NoDup m -> NoDup m' -> (forall x, In x m -> ~ In x m') -> NoDup (m ++ m').
Proof.
  induction 1 as [|a m Ha _ IH]; intros N' D; cbn [app]; [exact N'|].
  constructor.
  - intros Hin. apply in_app_or in Hin. destruct Hin as [Hin|Hin];
      [contradiction|]. apply (D a); [now left|exact Hin].
  - apply IH; [exact N'|]. intros x Hx. apply D. now right.
Qed.

Lemma segment_ordered (g : nat) (l l' : list SceneItem) :
  segment g l -> ordered (S g) l' -> ordered g (l ++ l').
Proof.
  intros [N G] [N' G']. rewrite Forall_forall in G, G'. split.
  - rewrite map_app. apply NoDup_app_disjoint; trivial.
    intros x H1 H2. apply in_map_iff in H1, H2.
    destruct H1 as (a & Ea & Ha), H2 as (b & Eb & Hb).
    pose proof (G a Ha) as Ga. pose proof (G' b Hb) as Gb.
    rewrite Ea in Ga. rewrite Eb in Gb. lia.
  - apply Forall_forall. intros x Hx. apply in_app_or in Hx.
    destruct Hx as [Hx|Hx]; [rewrite (G x Hx); lia|].
    pose proof (G' x Hx). lia.
Qed.

Lemma segment_is_ordered (g : nat) (l : list SceneItem) :
  segment g l -> ordered g l.
Proof.
  intros [N G]. split; [exact N|].
  rewrite Forall_forall in *. intros x Hx. rewrite (G x Hx). lia.
Qed.

(** Six segments in a row, the first five grouped as [items] groups
    them. *)
Lemma six_segments (l1 l2 l3 l4 l5 l6 : list SceneItem) :
  segment 1 l1 -> segment 2 l2 -> segment 3 l3 -> segment 4 l4 ->
  segment 5 l5 -> segment 6 l6 ->
  NoDup (map id ((l1 ++ l2 ++ l3 ++ l4 ++ l5) ++ l6)).
Proof.
  intros S1 S2 S3 S4 S5 S6. rewrite <- !app_assoc.
  apply (segment_ordered 1), (segment_ordered 2), (segment_ordered 3),
    (segment_ordered 4), (segment_ordered 5), segment_is_ordered;
    assumption.
Qed.

Section WithOracle.

Variable oracle : nat -> R.

(** The ids a loop pushes are its name followed by the running index. *)
Lemma pushLoop_ids (body : nat -> Gen SceneItem) (name : string) :
  (forall i k, id (fst (body i k))
               = (name ++ Js.toString (Z.of_nat i))%string) ->
  forall count start k,
    map id (fst (pushLoop body start count k))
    = map (fun i => (name ++ Js.toString (Z.of_nat i))%string)
          (seq start count).
Proof.
  intros H. induction count as [|count IH]; intros start k; [reflexivity|].
  rewrite LayoutSpec.pushLoop_S. cbn [fst map seq]. now rewrite H, IH.
Qed.

Lemma pushLoop_segment (body : nat -> Gen SceneItem) (name : string)
      (g count k : nat) :
  (forall i k, id (fst (body i k))
               = (name ++ Js.toString (Z.of_nat i))%string) ->
  (forall n, idGroup (name ++ n) = g) ->
  segment g (fst (pushLoop body 0 count k)).
Proof.
  intros H G. split.
  - rewrite (pushLoop_ids body name H).
    apply NoDup_map_inj; [apply named_inj|apply seq_NoDup].
  - apply LayoutSpec.pushLoop_Forall. intros i k'. rewrite H. apply G.
Qed.

Lemma mapPhotos_ids (n : nat) (rest : list string) :
  forall i k,
    map id (fst (mapPhotos oracle n rest i k))
    = map (fun j => ("photo-" ++ Js.toString (Z.of_nat j))%string)
          (seq i (List.length rest)).
Proof.
  induction rest as [|u rest IH]; intros i k; [reflexivity|].
  rewrite LayoutSpec.mapPhotos_cons. cbn [fst map seq List.length].
  now rewrite IH.
Qed.

Lemma photoItems_segment (photos : list string) (k : nat) :
  segment 6 (fst (photoItems oracle photos k)).
Proof.
  split.
  - unfold photoItems. rewrite mapPhotos_ids.
    apply NoDup_map_inj; [apply named_inj|apply seq_NoDup].
  - apply Forall_forall. intros it Hin.
    apply LayoutSpec.mapPhotos_In in Hin. destruct Hin as (_ & j & _ & ->).
    apply MaterialSpec.idGroup_of_ids.
Qed.

Lemma scene_ids_NoDup (k0 k : nat) (photos : list string) :
  NoDup (map id (fst (allItems oracle (fst (items oracle k0)) photos k))).
Proof.
  rewrite LayoutSpec.allItems_app.
  unfold items. rewrite !LayoutSpec.bind_run. unfold ret. cbn [fst].
  apply six_segments.
  - apply (pushLoop_segment (ornament oracle) "ornament-");
      [reflexivity|apply MaterialSpec.idGroup_of_ids].
  - apply (pushLoop_segment (foil oracle) "foil-");
      [reflexivity|apply MaterialSpec.idGroup_of_ids].
  - apply (pushLoop_segment (ribbonWhite oracle) "ribbon-white-");
      [reflexivity|apply MaterialSpec.idGroup_of_ids].
  - apply (pushLoop_segment (ribbonBlue oracle) "ribbon-blue-");
      [reflexivity|apply MaterialSpec.idGroup_of_ids].
  - apply (pushLoop_segment (light oracle) "light-");
      [reflexivity|apply MaterialSpec.idGroup_of_ids].
  - apply photoItems_segment.
Qed.

Lemma five_lengths {A} (l1 l2 l3 l4 l5 : list A) :
  List.length (l1 ++ l2 ++ l3 ++ l4 ++ l5)
  = (List.length l1 + List.length l2 + List.length l3 + List.length l4
     + List.length l5)%nat.
Proof. rewrite !length_app. lia. Qed.

Lemma items_length (k0 : nat) : List.length (fst (items oracle k0)) = 1400%nat.
Proof.
  unfold items. rewrite !LayoutSpec.bind_run. unfold ret. cbn [fst].
  etransitivity; [apply five_lengths|].
  do 5 rewrite LayoutSpec.pushLoop_length. reflexivity.
Qed.

End WithOracle.

Lemma same_id_same_item (l : list SceneItem) (a b : SceneItem) :
  NoDup (map id l) -> In a l -> In b l -> id a = id b -> a = b.
Proof.
  induction l as [|c l IH]; cbn [map]; intros N Ha Hb E; [destruct Ha|].
  inversion N as [|? ? Hc N']; subst.
  destruct Ha as [<-|Ha], Hb as [<-|Hb]; trivial.
  - exfalso. apply Hc. rewrite E. now apply in_map.
  - exfalso. apply Hc. rewrite <- E. now apply in_map.
  - now apply IH.
Qed.

(** X20: the scene list holds 1400 generated items followed by one item
    per photo, and no two of its items share an id (the ids serve as React
    keys and as focus references). *)
Theorem scene_ids_unique (oracle : nat -> R) (k0 k : nat)
        (photos : list string) :
  let all := fst (allItems oracle (fst (items oracle k0)) photos k) in
  NoDup (map id all)
  /\ List.length all = (1400 + List.length photos)%nat
  /\ (forall a b, In a all -> In b all -> id a = id b -> a = b).
Proof.
  intros all.
  assert (N : NoDup (map id all)) by apply scene_ids_NoDup.
  assert (L : List.length all = (1400 + List.length photos)%nat).
  { subst all. rewrite LayoutSpec.allItems_app, length_app, items_length.
    unfold photoItems. now rewrite LayoutSpec.mapPhotos_length. }
  clearbody all. split; [exact N|]. split; [exact L|].
  intros a b. now apply same_id_same_item.
Qed.

(** X21: in INSPECT mode an item is sent to the presentation pose
    (0, 0, 15) only if it is a photo whose id is the focus id, and at most
    one item of the scene list is; every other photo is sent to its
    dispersed pose enlarged by 1.2 and pushed back by 10, every non-photo
    to its dispersed pose. *)
Theorem presentation_pose_unique (oracle : nat -> R) (k0 k : nat)
        (photos : list string) (focus : option string) :
  let all := fst (allItems oracle (fst (items oracle k0)) photos k) in
  (forall a b, In a all -> In b all ->
               isFocus focus a = true -> isFocus focus b = true -> a = b)
  /\ (forall it, type it = photo -> isFocus focus it = true ->
                 targetPos it INSPECT focus = mkVector3 0 0 15)
  /\ (forall it, type it = photo -> isFocus focus it = false ->
                 targetPos it INSPECT focus
                 = mkVector3 (vx (scatterPos it) * 1.2)
                             (vy (scatterPos it) * 1.2)
                             (vz (scatterPos it) * 1.2 - 10))
  /\ (forall it, type it <> photo ->
                 targetPos it INSPECT focus = scatterPos it).
Proof.
  intros all.
  assert (N : NoDup (map id all)) by apply scene_ids_NoDup.
  clearbody all. split; [|split; [|split]].
  - intros a b Ha Hb Fa Fb. apply (same_id_same_item all); trivial.
    unfold isFocus in *. destruct focus as [f|]; [|discriminate].
    apply String.eqb_eq in Fa, Fb. congruence.
  - intros it T F. unfold targetPos. now rewrite T, F.
  - intros it T F. unfold targetPos. now rewrite T, F.
  - intros it T. unfold targetPos. destruct (type it); congruence.
Qed.

Lemma items_nth_ornament (oracle : nat -> R) (k0 i : nat) :
  (i < 300)%nat ->
  nth_error (fst (items oracle k0)) i
  = Some (fst (ornament oracle i (i * 9 + k0)%nat)).
Proof.
  intros Hi. destruct (LayoutSpec.items_ornaments oracle k0) as [rest E].
  etransitivity; [apply (f_equal (fun l => nth_error l i) E)|].
  cbv beta.
  rewrite nth_error_app1 by (rewrite LayoutSpec.pushLoop_length; exact Hi).
  apply (LayoutSpec.pushLoop_nth (ornament oracle) 9 ORNAMENT_COUNT
           (LayoutSpec.ornament_draws oracle) 0 k0 i Hi).
Qed.

Lemma on_circle (r t : R) :
  (r * cos t) * (r * cos t) + (r * sin t) * (r * sin t) = r * r.
Proof.
  pose proof (sin2_cos2 t) as H. unfold Rsqr in H.
  replace (r * cos t * (r * cos t) + r * sin t * (r * sin t))
    with ((sin t * sin t + cos t * cos t) * (r * r)) by ring.
  rewrite H. ring.
Qed.

(** X22: every bulk ornament is assembled inside the cone of the tree: at
    a height in [[-8, 8)], off the axis, and at a distance from the axis
    that is at most 7.5 at the foot and decreases with the height to at
    most 1.5 at the top. *)
Theorem ornaments_inside_cone (oracle : nat -> R) (k0 i : nat) :
  (i < 300)%nat ->
  exists it r,
    nth_error (fst (items oracle k0)) i = Some it
    /\ -8 <= vy (treePos it) < 8
    /\ vx (treePos it) * vx (treePos it) + vz (treePos it) * vz (treePos it)
       = r * r
    /\ 0 < r <= 7.5 - (vy (treePos it) + 8) * (6 / 16).
Proof.
  intros Hi.
  exists (fst (ornament oracle i (i * 9 + k0)%nat)).
  exists ((1 - INR i / 300) * 6 + (1 - Js.rem (INR i / 300 * 5) 1) * 1.5).
  split; [now apply items_nth_ornament|].
  rewrite LayoutSpec.ornament_treePos. cbv zeta. cbn [vx vy vz].
  assert (H0 : 0 <= INR i) by apply pos_INR.
  assert (H1 : INR i < 300).
  { replace 300 with (INR 300) by (rewrite INR_IZR_INZ; reflexivity).
    now apply lt_INR. }
  rewrite LayoutSpec.rem1_frac by lra.
  destruct (base_fp (INR i / 300 * 5)) as [F0 F1].
  split; [lra|]. split; [apply on_circle|]. lra.
Qed.

Lemma ornaments_inside_cone_witness :
  exists it, nth_error (fst (items Samples.half 0%nat)) 7 = Some it
             /\ -8 <= vy (treePos it) < 8.
Proof.
  destruct (ornaments_inside_cone Samples.half 0%nat 7%nat)
    as (it & r & N & H & _).
  - lia.
  - exists it. split; [exact N | exact H].
Defined.

(** X23: the dispersed pose of every photo item lies on the ring of radius
    12 around the vertical axis, at a height within 8 of the centre for
    draws in [[0, 1)]; its assembled height lies in
    [[-16/3, 12.8 - 16/3)]. *)
Theorem photos_on_ring (oracle : nat -> R) (its : list SceneItem)
        (photos : list string) (k i : nat) (url : string) :
  (forall j, 0 <= oracle j < 1) ->
  nth_error photos i = Some url ->
  exists it,
    nth_error (fst (allItems oracle its photos k)) (List.length its + i)%nat
    = Some it
    /\ vx (scatterPos it) * vx (scatterPos it)
       + vz (scatterPos it) * vz (scatterPos it) = 12 * 12
    /\ Rabs (vy (scatterPos it)) <= 8
    /\ - (16 / 3) <= vy (treePos it) < 12.8 - 16 / 3.
Proof.
  intros Hr Hi.
  exists (fst (photoItem oracle (List.length photos) url i (i + k)%nat)).
  split; [now apply LayoutSpec.allItems_photo|].
  assert (Hn : (i < List.length photos)%nat)
    by (apply nth_error_Some; congruence).
  assert (Hp : 0 < INR (List.length photos)) by (apply lt_0_INR; lia).
  assert (L : lengthOr1 (List.length photos) = INR (List.length photos)).
  { destruct (List.length photos); [lia|reflexivity]. }
  unfold photoItem. rewrite LayoutSpec.bind_run. unfold ret, Math_random.
  cbn [fst snd scatterPos treePos vx vy vz]. rewrite L.
  split; [|split].
  - pose proof (FrameSpec.sin_cos_ring
                  (INR i / INR (List.length photos) * PI * 2) 12) as C.
    lra.
  - apply Rabs_le. pose proof (Hr (i + k)%nat). lra.
  - assert (Q : 0 <= INR i / INR (List.length photos) < 1).
    { pose proof (pos_INR i).
      assert (INR i < INR (List.length photos)) by now apply lt_INR.
      split.
      - apply Rmult_le_pos; [lra|]. apply Rlt_le, Rinv_0_lt_compat, Hp.
      - apply Rmult_lt_reg_r with (INR (List.length photos)); trivial.
        unfold Rdiv. rewrite Rmult_assoc, Rinv_l by lra. lra. }
    unfold TREE_HEIGHT. lra.
Qed.

Lemma photos_on_ring_witness :
  exists it,
    nth_error (fst (allItems Samples.half [] ["a"] 0%nat)) 0 = Some it
    /\ Rabs (vy (scatterPos it)) <= 8.
Proof.
  destruct (photos_on_ring Samples.half [] ["a"] 0%nat 0%nat "a")
    as (it & N & _ & B & _).
  - intros j. unfold Samples.half. lra.
  - reflexivity.
  - exists it. split; [exact N | exact B].
Defined.

End LayoutMoreSpec.

(** ** The earlier variant *)

Module LegacySpec.

Import Legacy.

Example strip_mp3 : stripExtension "song.mp3" = "song".
Proof. reflexivity. Qed.

Example strip_last_only : stripExtension "a.b.c" = "a.b".
Proof. reflexivity. Qed.

Example strip_trailing_dot : stripExtension "a.b." = "a.b.".
Proof. reflexivity. Qed.

Example strip_no_dot : stripExtension "noext" = "noext".
Proof. reflexivity. Qed.

Example strip_slash_after_dot : stripExtension "dir.x/file" = "dir.x/file".
Proof. reflexivity. Qed.

Lemma changeTrack_cases (d : Direction) (p : Player) :
  trackIndex p = (-1)%Z \/ (0 <= trackIndex p < 3)%Z ->
  exists i t,
    changeTrack d p = Some (mkPlayer i (src t) (title t) true)
    /\ (0 <= i < 3)%Z /\ track i = Some t
    /\ (trackIndex p = (-1)%Z -> i = 0%Z)
    /\ ((0 <= trackIndex p < 3)%Z ->
        i = match d with
            | next => ((trackIndex p + 1) mod 3)%Z
            | prev => ((trackIndex p - 1) mod 3)%Z
            end).
Proof.
  intros H. destruct p as [i a t b]. cbn [trackIndex] in *.
  assert (C : i = (-1)%Z \/ i = 0%Z \/ i = 1%Z \/ i = 2%Z) by lia.
  destruct C as [-> | [-> | [-> | ->]]]; destruct d, b;
    lazymatch goal with
    | |- exists i t, ?lhs = _ /\ _ =>
        let v := eval vm_compute in lhs in
        lazymatch v with
        | Some (mkPlayer ?i ?s ?ti _) => exists i, (mkTrack ti s)
        end
    end;
    (split; [reflexivity|]); (split; [lia|]); (split; [reflexivity|]);
    split; intros; first [lia | reflexivity].
Qed.

Lemma playerStep_consistent (e : PlayerEvent) (p : Player) :
  consistent p -> exists p', playerStep e p = Some p' /\ consistent p'.
Proof.
  intros C. destruct e as [d|name url|]; cbn [playerStep].
  - destruct (changeTrack_cases d p) as (i & t & E & R & T & _).
    { destruct C as [C|[C _]]; [now left|now right]. }
    rewrite E. eexists. split; [reflexivity|]. right.
    cbn [trackIndex trackTitle audioSrc]. split; [exact R|].
    rewrite T. now destruct t.
  - eexists. split; [reflexivity|]. now left.
  - eexists. split; [reflexivity|]. exact C.
Qed.

Lemma playerRun_consistent (es : list PlayerEvent) :
  forall p, consistent p ->
  exists p', playerRun es p = Some p' /\ consistent p'.
Proof.
  induction es as [|e es IH]; intros p C; cbn [playerRun].
  - eauto.
  - destruct (playerStep_consistent e p C) as (p1 & -> & C1).
    cbn [Js.bind]. now apply IH.
Qed.

(** X24: no sequence of track changes, audio uploads and play toggles
    makes the player throw, and after any of them the track index is
    either -1, while an uploaded file plays, or an index of the playlist
    whose title and source are the ones playing. *)
Theorem player_never_throws (es : list PlayerEvent) :
  exists p,
    playerRun es initialPlayer = Some p
    /\ (trackIndex p = (-1)%Z
        \/ ((0 <= trackIndex p < 3)%Z
            /\ track (trackIndex p)
               = Some (mkTrack (trackTitle p) (audioSrc p)))).
Proof.
  apply playerRun_consistent. right. split; [cbn; lia|reflexivity].
Qed.



(** X26: outside a cooldown the current gesture handler acts on mode,
    signal, photos and focus exactly as the earlier variant does, except
    for a fresh point while INSPECT with photos present: there the variant
    keeps the focus and the current handler draws it again. *)
Theorem current_agrees_with_variant (now : Z) (random : R)
        (data : HandGestureData) (s : App.State) :
  (App.gestureCooldownRef s <= now)%Z ->
  let fresh :=
    App.appState s = INSPECT /\ isFist data = false
    /\ isPointing data = true /\ App.photos s <> []
    /\ App.wasPointingRef s = false in
  (~ fresh ->
   project (App.handleGesture now random data s)
   = handleGesture random data (project s))
  /\ (fresh ->
      focusId (handleGesture random data (project s)) = App.focusId s
      /\ App.focusId (App.handleGesture now random data s)
         = Some (App.photoId
                   (App.randomIdx random (List.length (App.photos s))))
      /\ App.appState (App.handleGesture now random data s) = INSPECT
      /\ appState (handleGesture random data (project s)) = INSPECT).
Proof.
  intros C fresh. subst fresh. destruct s as [m g ph f w d c].
  unfold handleGesture, project. App.open_handleGesture.
  cbn [appState gestureData photos focusId] in *.
  rewrite (AppSpec.cooldown_over _ _ C). split.
  - intros NF.
    destruct (isFist data) eqn:Fi; [reflexivity|].
    destruct (isPointing data) eqn:Po; cbn [andb];
      destruct ph as [|u ph]; cbn [List.length Nat.ltb Nat.leb andb];
      destruct m; cbn [AppState_eqb negb orb andb]; App.state_simpl;
      try reflexivity;
      try (destruct (isOpen data); App.state_simpl; try reflexivity;
           destruct (isPinching data); cbn [andb]; App.state_simpl;
           try reflexivity;
           destruct (Js.truthy f); reflexivity).
    destruct w; cbn [negb orb]; App.state_simpl; [reflexivity|].
    exfalso. apply NF. repeat split; discriminate.
  - intros (-> & Fi & Po & Ph & ->). rewrite Fi, Po.
    rewrite (AppSpec.nonempty_ltb _ Ph).
    cbn [andb AppState_eqb negb orb]. App.state_simpl.
    repeat split.
Qed.

Lemma current_agrees_with_variant_witness :
  project (App.handleGesture 10 0 Samples.pinch Samples.scattered)
  = handleGesture 0 Samples.pinch (project Samples.scattered).
Proof.
  destruct (current_agrees_with_variant 10 0 Samples.pinch Samples.scattered)
    as [A _].
  - cbn. lia.
  - apply A. intros (M & _). discriminate.
Defined.

End LegacySpec.

(** ** Bounds of the dispersed layout, and the cooldown after a click *)

Module BoundsSpec.

Import MagicScene.

(** An item dispersed inside the box 56.25 by 27.5 by 20 (half sizes) and
    scaled between 0.2 and 1. *)
Lemma boxed_intro (it : SceneItem) (x y z s : R) :
  scatterPos it = mkVector3 x y z -> scale it = s ->
  -56.25 <= x <= 56.25 -> -27.5 <= y <= 27.5 -> -20 <= z <= 20 ->
  0.2 <= s <= 1 ->
  Rabs (vx (scatterPos it)) <= 56.25
  /\ Rabs (vy (scatterPos it)) <= 27.5
  /\ Rabs (vz (scatterPos it)) <= 20
  /\ 0.2 <= scale it <= 1.
Proof.
  intros -> -> X Y Z S. cbn [vx vy vz].
  repeat split; try apply Rabs_le; lra.
Qed.

Section WithOracle.

Variable oracle : nat -> R.
Hypothesis draws : forall j, 0 <= oracle j < 1.

Lemma ornament_boxed (i k : nat) :
  let it := fst (ornament oracle i k) in
  Rabs (vx (scatterPos it)) <= 56.25
  /\ Rabs (vy (scatterPos it)) <= 27.5
  /\ Rabs (vz (scatterPos it)) <= 20
  /\ 0.2 <= scale it <= 1.
Proof.
  cbv zeta.
  pose proof (draws k). pose proof (draws (1 + k)%nat).
  pose proof (draws (2 + k)%nat). pose proof (draws (8 + k)%nat).
  eapply boxed_intro with (s := oracle (8 + k)%nat * 0.6 + 0.3); [reflexivity|reflexivity|..];
    unfold SCATTER_RADIUS_X, SCATTER_RADIUS_Y, SCATTER_RADIUS_Z;
    cbn [Nat.add] in *; lra.
Qed.

Lemma foil_boxed (i k : nat) :
  let it := fst (foil oracle i k) in
  Rabs (vx (scatterPos it)) <= 56.25
  /\ Rabs (vy (scatterPos it)) <= 27.5
  /\ Rabs (vz (scatterPos it)) <= 20
  /\ 0.2 <= scale it <= 1.
Proof.
  cbv zeta.
  pose proof (draws (2 + k)%nat). pose proof (draws (3 + k)%nat).
  pose proof (draws (4 + k)%nat). pose proof (draws (9 + k)%nat).
  eapply boxed_intro with (s := oracle (9 + k)%nat * 0.4 + 0.2); [reflexivity|reflexivity|..];
    unfold SCATTER_RADIUS_X, SCATTER_RADIUS_Y, SCATTER_RADIUS_Z;
    cbn [Nat.add] in *; lra.
Qed.

Lemma ribbonWhite_boxed (i k : nat) :
  let it := fst (ribbonWhite oracle i k) in
  Rabs (vx (scatterPos it)) <= 56.25
  /\ Rabs (vy (scatterPos it)) <= 27.5
  /\ Rabs (vz (scatterPos it)) <= 20
  /\ 0.2 <= scale it <= 1.
Proof.
  cbv zeta.
  pose proof (draws k). pose proof (draws (1 + k)%nat).
  pose proof (draws (2 + k)%nat).
  eapply boxed_intro with (s := 0.28); [reflexivity|reflexivity|..];
    unfold SCATTER_RADIUS_X, SCATTER_RADIUS_Y, SCATTER_RADIUS_Z;
    cbn [Nat.add] in *; lra.
Qed.

Lemma ribbonBlue_boxed (i k : nat) :
  let it := fst (ribbonBlue oracle i k) in
  Rabs (vx (scatterPos it)) <= 56.25
  /\ Rabs (vy (scatterPos it)) <= 27.5
  /\ Rabs (vz (scatterPos it)) <= 20
  /\ 0.2 <= scale it <= 1.
Proof.
  cbv zeta.
  pose proof (draws k). pose proof (draws (1 + k)%nat).
  pose proof (draws (2 + k)%nat).
  eapply boxed_intro with (s := 0.3); [reflexivity|reflexivity|..];
    unfold SCATTER_RADIUS_X, SCATTER_RADIUS_Y, SCATTER_RADIUS_Z;
    cbn [Nat.add] in *; lra.
Qed.

Lemma light_boxed (i k : nat) :
  let it := fst (light oracle i k) in
  Rabs (vx (scatterPos it)) <= 56.25
  /\ Rabs (vy (scatterPos it)) <= 27.5
  /\ Rabs (vz (scatterPos it)) <= 20
  /\ 0.2 <= scale it <= 1.
Proof.
  cbv zeta.
  pose proof (draws k). pose proof (draws (1 + k)%nat).
  pose proof (draws (2 + k)%nat).
  eapply boxed_intro with (s := 0.2); [reflexivity|reflexivity|..];
    unfold SCATTER_RADIUS_X, SCATTER_RADIUS_Y, SCATTER_RADIUS_Z;
    cbn [Nat.add] in *; lra.
Qed.

Lemma photoItem_boxed (n : nat) (url : string) (i k : nat) :
  let it := fst (photoItem oracle n url i k) in
  Rabs (vx (scatterPos it)) <= 56.25
  /\ Rabs (vy (scatterPos it)) <= 27.5
  /\ Rabs (vz (scatterPos it)) <= 20
  /\ 0.2 <= scale it <= 1.
Proof.
  cbv zeta. pose proof (draws k).
  pose proof (COS_bound (INR i / lengthOr1 n * PI * 2)).
  pose proof (SIN_bound (INR i / lengthOr1 n * PI * 2)).
  eapply boxed_intro with (s := 1); [reflexivity|reflexivity|..]; lra.
Qed.

Lemma mapPhotos_Forall (P : SceneItem -> Prop) (n : nat)
      (rest : list string) :
  (forall url i k, P (fst (photoItem oracle n url i k))) ->
  forall i k, Forall P (fst (mapPhotos oracle n rest i k)).
Proof.
  intros HP. induction rest as [|u rest IH]; intros i k.
  - constructor.
  - rewrite LayoutSpec.mapPhotos_cons. cbn [fst]. constructor; auto.
Qed.

Lemma scene_boxed (k0 k : nat) (photos : list string) :
  Forall (fun it =>
            Rabs (vx (scatterPos it)) <= 56.25
            /\ Rabs (vy (scatterPos it)) <= 27.5
            /\ Rabs (vz (scatterPos it)) <= 20
            /\ 0.2 <= scale it <= 1)
         (fst (allItems oracle (fst (items oracle k0)) photos k)).
Proof.
  rewrite LayoutSpec.allItems_app.
  apply LayoutSpec.Forall_app_intro.
  - unfold items. rewrite !LayoutSpec.bind_run. unfold ret. cbn [fst].
    apply LayoutSpec.Forall_app_intro;
      [apply LayoutSpec.pushLoop_Forall, ornament_boxed|].
    apply LayoutSpec.Forall_app_intro;
      [apply LayoutSpec.pushLoop_Forall, foil_boxed|].
    apply LayoutSpec.Forall_app_intro;
      [apply LayoutSpec.pushLoop_Forall, ribbonWhite_boxed|].
    apply LayoutSpec.Forall_app_intro;
      [apply LayoutSpec.pushLoop_Forall, ribbonBlue_boxed|].
    apply LayoutSpec.pushLoop_Forall, light_boxed.
  - apply mapPhotos_Forall. intros url i j. apply photoItem_boxed.
Qed.

End WithOracle.

(** X27: with draws in [[0, 1)], every item of the scene list, whichever
    generator made it, is dispersed inside the box of half sizes 56.25,
    27.5 and 20 (the ribbons reach past the bulk ornaments' 45 along x, the
    foils past 25 along y), and is scaled between 0.2 and 1. *)
Theorem dispersed_layout_bounded (oracle : nat -> R) (k0 k : nat)
        (photos : list string) (it : SceneItem) :
  (forall j, 0 <= oracle j < 1) ->
  In it (fst (allItems oracle (fst (items oracle k0)) photos k)) ->
  Rabs (vx (scatterPos it)) <= 56.25
  /\ Rabs (vy (scatterPos it)) <= 27.5
  /\ Rabs (vz (scatterPos it)) <= 20
  /\ 0.2 <= scale it <= 1.
Proof.
  intros Hr Hin.
  pose proof (scene_boxed oracle Hr k0 k photos) as H.
  rewrite Forall_forall in H. exact (H it Hin).
Qed.

Lemma dispersed_layout_bounded_witness :
  exists it,
    In it (fst (allItems Samples.half (fst (items Samples.half 0%nat))
                         ["a"] 0%nat))
    /\ 0.2 <= scale it <= 1.
Proof.
  pose proof (LayoutSpec.allItems_photo
                Samples.half (fst (items Samples.half 0%nat)) ["a"]
                0%nat 0%nat "a" eq_refl) as N.
  apply nth_error_In in N.
  eexists. split; [exact N|].
  apply (dispersed_layout_bounded Samples.half 0%nat 0%nat ["a"] _).
  - intros j. unfold Samples.half. lra.
  - exact N.
Defined.

(** X28: a click on close at time [now] silences the gestures for one
    second and a confirmed delete for two: every run of ticks before the
    deadline leaves the state exactly as the click left it, and the first
    tick at or after the deadline is obeyed again (a fist then resets to
    TREE). *)
Theorem clicks_start_cooldown (now : Z) (s : App.State) (i : nat)
        (ts : list (Z * R * HandGestureData)) (t : Z) (random : R)
        (data : HandGestureData) :
  isFist data = true ->
  (Forall (fun tk => (fst (fst tk) < now + 1000)%Z) ts ->
   App.ticks ts (App.handleCloseInspect now s) = App.handleCloseInspect now s)
  /\ ((now + 1000 <= t)%Z ->
      App.appState (App.handleGesture t random data
                                      (App.handleCloseInspect now s)) = TREE)
  /\ (App.deleteConfirm s = true ->
      App.focusId s = Some (App.photoId (Z.of_nat i)) ->
      (Forall (fun tk => (fst (fst tk) < now + 2000)%Z) ts ->
       App.ticks ts (App.handleDeleteClick now s)
       = App.handleDeleteClick now s)
      /\ ((now + 2000 <= t)%Z ->
          App.appState (App.handleGesture t random data
                                          (App.handleDeleteClick now s))
          = TREE)).
Proof.
  intros Fi.
  assert (Fist : forall s', (App.gestureCooldownRef s' <= t)%Z ->
                 App.appState (App.handleGesture t random data s') = TREE).
  { intros s' C. App.open_handleGesture.
    now rewrite (AppSpec.cooldown_over _ _ C), Fi. }
  split; [intros H; apply AppSpec.ticks_cooldown; exact H|].
  split; [intros H; now apply Fist|].
  intros D F.
  assert (C : App.gestureCooldownRef (App.handleDeleteClick now s)
              = (now + 2000)%Z).
  { now rewrite (AppMoreSpec.handleDeleteClick_confirmed now s i D F). }
  split.
  - intros H. apply AppSpec.ticks_cooldown. now rewrite C.
  - intros H. apply Fist. rewrite C. exact H.
Qed.

Lemma clicks_start_cooldown_witness :
  App.appState (App.handleGesture 9000 0 Samples.fist
                                  (App.handleCloseInspect 8000
                                                          Samples.inspecting))
  = TREE.
Proof.
  destruct (clicks_start_cooldown 8000 Samples.inspecting 1 [] 9000 0
                                  Samples.fist) as (_ & A & _).
  - reflexivity.
  - apply A. lia.
Defined.

End BoundsSpec.
